(** * axios-interceptor-plus: the request execution pipeline

    A shallow embedding of the policy classes of the package (circuit
    breaker, retry handler, cache manager, auth handler, token manager and
    request manager) and the properties of their state machines.

    Conventions of the embedding:
    - a JavaScript [number] that holds a counter or a millisecond timestamp
      is a [Z]; [Date.now()] is an explicit argument [now];
    - an optional field ([x?: T], [T | null]) is an [option];
    - a [Map<string, V>] or a plain object used as a dictionary is a
      [gmap string V];
    - a method that mutates [this] takes the object and returns the new one,
      together with the method's result when it has one;
    - an [async] method is cut at its suspension points: what happens
      between two of them is one atomic transition. *)

From Stdlib Require Import ZArith QArith Qminmax Qpower Lia Lqa Sorted.
From stdpp Require Import base option strings gmap list.

Local Open Scope Z_scope.

(** ** Axios values *)

Module Axios.

(** [AxiosResponse]: the fields the pipeline reads. *)
Record AxiosResponse := mkResponse {
  status : Z;
  data : string;
  headers : gmap string string;
}.

(** [AxiosRequestConfig]: the fields the pipeline reads; [method], [url],
    [params] and [data] are optional in the source. [params] and
    [reqData] hold the value already serialised by [JSON.stringify]. *)
Record AxiosRequestConfig := mkConfig {
  method : option string;
  url : option string;
  params : option string;
  reqData : option string;
  reqHeaders : gmap string string;
  signal : option nat;
}.

(** [AxiosError]: [code] is axios' error code, [response] is present when
    the server answered. *)
Record AxiosError := mkError {
  code : option string;
  response : option AxiosResponse;
  message : string;
}.

#[export] Instance AxiosResponse_eq_dec : EqDecision AxiosResponse.
Proof. solve_decision. Defined.
#[export] Instance AxiosRequestConfig_eq_dec : EqDecision AxiosRequestConfig.
Proof. solve_decision. Defined.
#[export] Instance AxiosError_eq_dec : EqDecision AxiosError.
Proof. solve_decision. Defined.

End Axios.
Import Axios.

(** JavaScript truthiness of a [string | null] value: [null] and the empty
    string are falsy. *)
Definition truthy_string (s : option string) : bool :=
  match s with
  | Some s => negb (String.eqb s "")
  | None => false
  end.

(** JavaScript truthiness of a [number | undefined] value: [undefined] and
    [0] are falsy. *)
Definition truthy_number (n : option Z) : bool :=
  match n with
  | Some n => negb (n =? 0)
  | None => false
  end.

(** ** Circuit breaker (utils/circuitBreaker.ts) *)

Module CircuitBreaker.

(** ['closed' | 'open' | 'half-open'] *)
Inductive CircuitState := Closed | Open | HalfOpen.

#[export] Instance CircuitState_eq_dec : EqDecision CircuitState.
Proof. solve_decision. Defined.

Record CircuitBreakerConfig := mkCfg {
  enabled : bool;
  failureThreshold : Z;
  successThreshold : Z;
  timeout : Z;
  resetTimeout : Z;
  monitoringPeriod : Z;
  errorFilter : option (AxiosError -> bool);
}.

(** A timeout armed by [setTimeout]: the time it is due and whether it is
    still live (not yet fired, not cleared by [clearTimeout]). *)
Record Timer := mkTimer { due : Z; live : bool }.

Record t := mk {
  state : CircuitState;
  failureCount : Z;
  successCount : Z;
  lastFailureTime : option Z;
  lastSuccessTime : option Z;
  nextAttemptTime : option Z;
  totalRequests : Z;
  totalFailures : Z;
  totalSuccesses : Z;
  failureHistory : list Z;
  config : CircuitBreakerConfig;
  resetTimer : option Timer;
}.

(** The field initialisers and the constructor. *)
Definition new (cfg : CircuitBreakerConfig) : t :=
  {| state := Closed; failureCount := 0; successCount := 0;
     lastFailureTime := None; lastSuccessTime := None;
     nextAttemptTime := None; totalRequests := 0; totalFailures := 0;
     totalSuccesses := 0; failureHistory := []; config := cfg;
     resetTimer := None |}.

(** Field assignments [this.f = v]. *)
Definition set_state (v : CircuitState) (cb : t) : t :=
  mk v (failureCount cb) (successCount cb) (lastFailureTime cb)
     (lastSuccessTime cb) (nextAttemptTime cb) (totalRequests cb)
     (totalFailures cb) (totalSuccesses cb) (failureHistory cb)
     (config cb) (resetTimer cb).
Definition set_failureCount (v : Z) (cb : t) : t :=
  mk (state cb) v (successCount cb) (lastFailureTime cb)
     (lastSuccessTime cb) (nextAttemptTime cb) (totalRequests cb)
     (totalFailures cb) (totalSuccesses cb) (failureHistory cb)
     (config cb) (resetTimer cb).
Definition set_successCount (v : Z) (cb : t) : t :=
  mk (state cb) (failureCount cb) v (lastFailureTime cb)
     (lastSuccessTime cb) (nextAttemptTime cb) (totalRequests cb)
     (totalFailures cb) (totalSuccesses cb) (failureHistory cb)
     (config cb) (resetTimer cb).
Definition set_lastFailureTime (v : option Z) (cb : t) : t :=
  mk (state cb) (failureCount cb) (successCount cb) v
     (lastSuccessTime cb) (nextAttemptTime cb) (totalRequests cb)
     (totalFailures cb) (totalSuccesses cb) (failureHistory cb)
     (config cb) (resetTimer cb).
Definition set_lastSuccessTime (v : option Z) (cb : t) : t :=
  mk (state cb) (failureCount cb) (successCount cb) (lastFailureTime cb)
     v (nextAttemptTime cb) (totalRequests cb)
     (totalFailures cb) (totalSuccesses cb) (failureHistory cb)
     (config cb) (resetTimer cb).
Definition set_nextAttemptTime (v : option Z) (cb : t) : t :=
  mk (state cb) (failureCount cb) (successCount cb) (lastFailureTime cb)
     (lastSuccessTime cb) v (totalRequests cb)
     (totalFailures cb) (totalSuccesses cb) (failureHistory cb)
     (config cb) (resetTimer cb).
Definition set_totalRequests (v : Z) (cb : t) : t :=
  mk (state cb) (failureCount cb) (successCount cb) (lastFailureTime cb)
     (lastSuccessTime cb) (nextAttemptTime cb) v
     (totalFailures cb) (totalSuccesses cb) (failureHistory cb)
     (config cb) (resetTimer cb).
Definition set_totalFailures (v : Z) (cb : t) : t :=
  mk (state cb) (failureCount cb) (successCount cb) (lastFailureTime cb)
     (lastSuccessTime cb) (nextAttemptTime cb) (totalRequests cb)
     v (totalSuccesses cb) (failureHistory cb)
     (config cb) (resetTimer cb).
Definition set_totalSuccesses (v : Z) (cb : t) : t :=
  mk (state cb) (failureCount cb) (successCount cb) (lastFailureTime cb)
     (lastSuccessTime cb) (nextAttemptTime cb) (totalRequests cb)
     (totalFailures cb) v (failureHistory cb)
     (config cb) (resetTimer cb).
Definition set_failureHistory (v : list Z) (cb : t) : t :=
  mk (state cb) (failureCount cb) (successCount cb) (lastFailureTime cb)
     (lastSuccessTime cb) (nextAttemptTime cb) (totalRequests cb)
     (totalFailures cb) (totalSuccesses cb) v
     (config cb) (resetTimer cb).
Definition set_resetTimer (v : option Timer) (cb : t) : t :=
  mk (state cb) (failureCount cb) (successCount cb) (lastFailureTime cb)
     (lastSuccessTime cb) (nextAttemptTime cb) (totalRequests cb)
     (totalFailures cb) (totalSuccesses cb) (failureHistory cb)
     (config cb) v.

(** [clearTimeout(handle)]: the handle stays, the timeout is dead. *)
Definition clearTimeout (tm : option Timer) : option Timer :=
  match tm with
  | Some x => Some {| due := due x; live := false |}
  | None => None
  end.

Definition canExecute (now : Z) (cb : t) : bool * t :=
  if negb (enabled (config cb)) then (true, cb)
  else
    match state cb with
    | Closed => (true, cb)
    | Open =>
        if truthy_number (nextAttemptTime cb)
           && (default 0 (nextAttemptTime cb) <=? now)
        then (true, set_successCount 0 (set_state HalfOpen cb))
        else (false, cb)
    | HalfOpen => (true, cb)
    end.

Definition getState (cb : t) : CircuitState := state cb.

Definition reset (cb : t) : t :=
  set_resetTimer None
    (set_failureHistory []
       (set_nextAttemptTime None
          (set_lastSuccessTime None
             (set_lastFailureTime None
                (set_successCount 0
                   (set_failureCount 0 (set_state Closed cb))))))).

Definition forceOpen (now : Z) (cb : t) : t :=
  set_nextAttemptTime (Some (now + timeout (config cb))) (set_state Open cb).

Definition forceClose (cb : t) : t :=
  set_nextAttemptTime None
    (set_successCount 0 (set_failureCount 0 (set_state Closed cb))).

Definition forceHalfOpen (cb : t) : t :=
  set_nextAttemptTime None (set_successCount 0 (set_state HalfOpen cb)).

(** [destroy()] clears the reset timer (the monitoring interval is the
    [MonitoringTick] event below, which then no longer occurs). *)
Definition destroy (cb : t) : t :=
  set_resetTimer (clearTimeout (resetTimer cb)) cb.

(** [open()]: the earlier reset timer, if any, is cleared and a new one
    is armed. *)
Definition open (now : Z) (cb : t) : t :=
  set_resetTimer
    (Some {| due := now + resetTimeout (config cb); live := true |})
    (set_nextAttemptTime (Some (now + timeout (config cb)))
       (set_state Open cb)).

Definition close (cb : t) : t :=
  set_resetTimer None
    (set_nextAttemptTime None
       (set_successCount 0 (set_failureCount 0 (set_state Closed cb)))).

Definition onSuccess (now : Z) (cb : t) : t :=
  let cb := set_totalSuccesses (totalSuccesses cb + 1) cb in
  let cb := set_lastSuccessTime (Some now) cb in
  match state cb with
  | HalfOpen =>
      let cb := set_successCount (successCount cb + 1) cb in
      if successThreshold (config cb) <=? successCount cb
      then close cb else cb
  | Closed => set_failureCount 0 cb
  | Open => cb
  end.

(** An error is counted unless an [errorFilter] is configured and
    rejects it. *)
Definition counted (cfg : CircuitBreakerConfig) (error : AxiosError) : bool :=
  match errorFilter cfg with
  | Some f => f error
  | None => true
  end.

Definition onFailure (now : Z) (error : AxiosError) (cb : t) : t :=
  if negb (counted (config cb) error) then cb
  else
    let cb := set_totalFailures (totalFailures cb + 1) cb in
    let cb := set_lastFailureTime (Some now) cb in
    let cb := set_failureCount (failureCount cb + 1) cb in
    let cb := set_failureHistory (failureHistory cb ++ [now]) cb in
    match state cb with
    | Closed =>
        if failureThreshold (config cb) <=? failureCount cb
        then open now cb else cb
    | HalfOpen => open now cb
    | Open => cb
    end.

(** The callback armed by [open]: it only clears [failureCount]. *)
Definition resetTimerFires (now : Z) (cb : t) : t :=
  match resetTimer cb with
  | Some tm =>
      if live tm && (due tm <=? now) then
        set_resetTimer (Some {| due := due tm; live := false |})
          (set_failureCount 0 cb)
      else cb
  | None => cb
  end.

Definition cleanupFailureHistory (now : Z) (cb : t) : t :=
  let cutoff := now - monitoringPeriod (config cb) in
  set_failureHistory
    (List.filter (fun timestamp => cutoff <? timestamp) (failureHistory cb))
    cb.

(** What can happen to a breaker between two observations. [execute] is
    cut at its [await]: [Admission] is its synchronous prefix
    ([totalRequests++], then [canExecute]), [Succeeded] and [Failed] are
    the two continuations. *)
Inductive Event :=
| CanExecute (now : Z)
| Admission (now : Z)
| Succeeded (now : Z)
| Failed (now : Z) (error : AxiosError)
| ResetTimerFires (now : Z)
| MonitoringTick (now : Z).

(** One event; the result is the boolean the caller observes, if any. *)
Definition step (cb : t) (ev : Event) : option bool * t :=
  match ev with
  | CanExecute now => let '(b, cb') := canExecute now cb in (Some b, cb')
  | Admission now =>
      if negb (enabled (config cb)) then (Some true, cb)
      else let '(b, cb') := canExecute now (set_totalRequests (totalRequests cb + 1) cb) in (Some b, cb')
  | Succeeded now =>
      (None, if enabled (config cb) then onSuccess now cb else cb)
  | Failed now error =>
      (None, if enabled (config cb) then onFailure now error cb else cb)
  | ResetTimerFires now => (None, resetTimerFires now cb)
  | MonitoringTick now => (None, cleanupFailureHistory now cb)
  end.

Definition eventTime (ev : Event) : Z :=
  match ev with
  | CanExecute now | Admission now | Succeeded now | Failed now _
  | ResetTimerFires now | MonitoringTick now => now
  end.

(** A trace of events, with the answers of the admission checks in it. *)
Fixpoint run (cb : t) (evs : list Event) : list bool * t :=
  match evs with
  | [] => ([], cb)
  | ev :: evs' =>
      let '(r, cb1) := step cb ev in
      let '(rs, cb2) := run cb1 evs' in
      (match r with Some b => b :: rs | None => rs end, cb2)
  end.

(** [n] failures in a row, recorded at the given times. *)
Definition recordFailures (fs : list (Z * AxiosError)) (cb : t) : t :=
  fold_left (fun cb f => onFailure (fst f) (snd f) cb) fs cb.

Definition recordSuccesses (nows : list Z) (cb : t) : t :=
  fold_left (fun cb now => onSuccess now cb) nows cb.

(** Everything that can be done to a breaker: the events above and the
    public overrides. *)
Inductive Op :=
| Happens (ev : Event)
| Reset
| ForceOpen (now : Z)
| ForceClose
| ForceHalfOpen
| Destroy.

Definition apply (cb : t) (op : Op) : t :=
  match op with
  | Happens ev => snd (step cb ev)
  | Reset => reset cb
  | ForceOpen now => forceOpen now cb
  | ForceClose => forceClose cb
  | ForceHalfOpen => forceHalfOpen cb
  | Destroy => destroy cb
  end.

Definition applyAll (cb : t) (ops : list Op) : t := fold_left apply ops cb.

End CircuitBreaker.

(** ** Circuit breakers by service name (utils/circuitBreaker.ts) *)

Module CircuitBreakerManager.

(** [Partial<CircuitBreakerConfig>]: the fields that are given. *)
Record PartialConfig := mkPartial {
  p_enabled : option bool;
  p_failureThreshold : option Z;
  p_successThreshold : option Z;
  p_timeout : option Z;
  p_resetTimeout : option Z;
  p_monitoringPeriod : option Z;
  p_errorFilter : option (option (AxiosError -> bool));
}.

(** [{ ...defaultConfig, ...config }] *)
Definition merge (defaultConfig : CircuitBreaker.CircuitBreakerConfig)
    (config : option PartialConfig) : CircuitBreaker.CircuitBreakerConfig :=
  match config with
  | None => defaultConfig
  | Some c =>
      CircuitBreaker.mkCfg
        (default (CircuitBreaker.enabled defaultConfig) (p_enabled c))
        (default (CircuitBreaker.failureThreshold defaultConfig)
           (p_failureThreshold c))
        (default (CircuitBreaker.successThreshold defaultConfig)
           (p_successThreshold c))
        (default (CircuitBreaker.timeout defaultConfig) (p_timeout c))
        (default (CircuitBreaker.resetTimeout defaultConfig)
           (p_resetTimeout c))
        (default (CircuitBreaker.monitoringPeriod defaultConfig)
           (p_monitoringPeriod c))
        (default (CircuitBreaker.errorFilter defaultConfig) (p_errorFilter c))
  end.

Record t := mk {
  breakers : gmap string CircuitBreaker.t;
  defaultConfig : CircuitBreaker.CircuitBreakerConfig;
}.

Definition new (defaultConfig : CircuitBreaker.CircuitBreakerConfig) : t :=
  {| breakers := ∅; defaultConfig := defaultConfig |}.

Definition getBreaker (serviceName : string) (config : option PartialConfig)
    (m : t) : CircuitBreaker.t * t :=
  match breakers m !! serviceName with
  | Some breaker => (breaker, m)
  | None =>
      let breaker := CircuitBreaker.new (merge (defaultConfig m) config) in
      (breaker, mk (<[serviceName := breaker]> (breakers m)) (defaultConfig m))
  end.

(** [execute(serviceName, operation, config)], cut like
    [CircuitBreaker.execute]: [ev] is what happens to the breaker of the
    service ([Admission], then [Succeeded] or [Failed]); the breaker is
    an object of the map, changed in place. *)
Definition execute (serviceName : string) (config : option PartialConfig)
    (ev : CircuitBreaker.Event) (m : t) : option bool * t :=
  let '(breaker, m1) := getBreaker serviceName config m in
  let '(r, breaker') := CircuitBreaker.step breaker ev in
  (r, mk (<[serviceName := breaker']> (breakers m1)) (defaultConfig m1)).

Definition resetAll (m : t) : t :=
  mk (CircuitBreaker.reset <$> breakers m) (defaultConfig m).

Definition forceOpenAll (now : Z) (m : t) : t :=
  mk (CircuitBreaker.forceOpen now <$> breakers m) (defaultConfig m).

Definition forceCloseAll (m : t) : t :=
  mk (CircuitBreaker.forceClose <$> breakers m) (defaultConfig m).

Definition destroy (m : t) : t := mk ∅ (defaultConfig m).

End CircuitBreakerManager.

(** ** Outcomes of asynchronous calls *)

(** How a promise settles: resolved with a value or rejected with a
    reason. *)
Inductive Outcome (E A : Type) :=
| Resolved (value : A)
| Rejected (reason : E).
Arguments Resolved {E A} value.
Arguments Rejected {E A} reason.

(** ** Retry handler (utils/retry.ts) *)

Module RetryHandler.

(** [retryDelay] and the delays are [number]s that hold fractions: they
    are rationals, with exact arithmetic. *)
Record RetryConfig := mkCfg {
  enabled : bool;
  maxRetries : Z;
  retryDelay : Q;
  retryCondition : option (AxiosError -> bool);
  retryDelayFunction : option (Z -> Q);
}.

Definition code_is (error : AxiosError) (c : string) : bool :=
  match code error with
  | Some c' => String.eqb c' c
  | None => false
  end.

Definition shouldRetry (cfg : RetryConfig) (error : AxiosError) : bool :=
  match retryCondition cfg with
  | Some retryCondition => retryCondition error
  | None =>
      if code_is error "ECONNABORTED" || code_is error "ETIMEDOUT" then true
      else
        match response error with
        | Some r =>
            (500 <=? status r) || (status r =? 408) || (status r =? 429)
        | None => true
        end
  end.

(** [calculateDelay(attempt)]; [random] is the value [Math.random()]
    returns, in [0, 1). *)
Definition calculateDelay (cfg : RetryConfig) (attempt : Z) (random : Q) : Q :=
  match retryDelayFunction cfg with
  | Some retryDelayFunction => retryDelayFunction attempt
  | None =>
      let baseDelay := retryDelay cfg in
      let exponentialDelay := (baseDelay * 2 ^ attempt)%Q in
      let jitter := (random * (1 # 10) * exponentialDelay)%Q in
      Qmin (exponentialDelay + jitter) 30000
  end.

(** The test at the head of the [catch] block of [executeWithRetry]:
    [attempt === maxRetries || !shouldRetry(lastError)] rethrows; the
    loop goes on when it is false. *)
Definition retries (cfg : RetryConfig) (error : AxiosError) (attempt : Z) : bool :=
  negb ((attempt =? maxRetries cfg) || negb (shouldRetry cfg error)).

Section ExecuteWithRetry.
Context {W E T : Type}.
(** The request: it acts on the world and settles. *)
Variable requestFn : W -> Outcome E T * W.
(** [error as AxiosError]: the fields [code] and [response] of whatever
    was thrown. *)
Variable asAxiosError : E -> AxiosError.
(** The value [Math.random()] returns during a given attempt. *)
Variable random : Z -> Q.
Variable cfg : RetryConfig.

(** The [for] loop, from [attempt] on, with [fuel] iterations left
    before [attempt <= maxRetries] fails. The result carries the
    delays waited for, in order. What is thrown is [lastError], which
    is still [undefined] ([None]) when the loop body never ran. *)
Fixpoint loop (fuel : nat) (attempt : Z) (lastError : option E)
    (delays : list Q) (w : W)
  : Outcome (option E) T * list Q * W :=
  match fuel with
  | O => (Rejected lastError, delays, w)
  | S fuel' =>
      match requestFn w with
      | (Resolved r, w') => (Resolved r, delays, w')
      | (Rejected error, w') =>
          if (attempt =? maxRetries cfg)
             || negb (shouldRetry cfg (asAxiosError error))
          then (Rejected (Some error), delays, w')
          else
            let delay := calculateDelay cfg attempt (random attempt) in
            loop fuel' (attempt + 1) (Some error) (delays ++ [delay]) w'
      end
  end.

Definition executeWithRetry (w : W)
  : Outcome (option E) T * list Q * W :=
  if negb (enabled cfg) then
    match requestFn w with
    | (Resolved r, w') => (Resolved r, [], w')
    | (Rejected error, w') => (Rejected (Some error), [], w')
    end
  else loop (Z.to_nat (maxRetries cfg + 1)) 0 None [] w.
End ExecuteWithRetry.

(** The retry rule in the words of the specification: retry iff
    [attempt < maxRetries] and (the custom predicate if supplied, else the
    error is a timeout or network error, or the response status is in
    {408, 429} or in [500, 599]). *)
Definition spec_shouldRetry (cfg : RetryConfig) (error : AxiosError)
    (attempt : Z) : bool :=
  (attempt <? maxRetries cfg)
  && match retryCondition cfg with
     | Some retryCondition => retryCondition error
     | None =>
         code_is error "ECONNABORTED" || code_is error "ETIMEDOUT"
         || match response error with
            | None => true
            | Some r =>
                (status r =? 408) || (status r =? 429)
                || ((500 <=? status r) && (status r <=? 599))
            end
     end.

End RetryHandler.

(** ** JavaScript [Map]: a dictionary that remembers insertion order *)

Module JsMap.
Section Ops.
Context {V : Type}.

Fixpoint get (k : string) (m : list (string * V)) : option V :=
  match m with
  | [] => None
  | (k', v) :: m' => if String.eqb k' k then Some v else get k m'
  end.

(** [set] keeps the position of a key that is present and appends a
    new one. *)
Fixpoint set (k : string) (v : V) (m : list (string * V))
  : list (string * V) :=
  match m with
  | [] => [(k, v)]
  | (k', v') :: m' =>
      if String.eqb k' k then (k, v) :: m' else (k', v') :: set k v m'
  end.

Definition delete (k : string) (m : list (string * V))
  : list (string * V) :=
  List.filter (fun kv => negb (String.eqb (fst kv) k)) m.

Definition keys (m : list (string * V)) : list string := map fst m.

Definition size (m : list (string * V)) : Z := Z.of_nat (length m).
End Ops.
End JsMap.

(** ** Cache manager (utils/cache.ts) *)

Module CacheManager.

Inductive CacheStorage := memory | localStorage | indexedDB.

#[export] Instance CacheStorage_eq_dec : EqDecision CacheStorage.
Proof. solve_decision. Defined.

(** [keyGenerator] and [offlineFirst] are never read by the class. *)
Record CacheConfig := mkCfg {
  enabled : bool;
  storage : CacheStorage;
  ttl : Z;
  maxSize : Z;
  shouldCache : option (AxiosResponse -> bool);
}.

Record CacheEntry := mkEntry {
  key : string;
  data : AxiosResponse;
  timestamp : Z;
  entryTtl : Z;
  etag : option string;
  lastModified : option string;
}.

(** The browser globals, present when [typeof window !== 'undefined']:
    the [localStorage] area, and the object store ['cache'] of the
    IndexedDB database ['axios-cache'], whose records are keyed by their
    [key] field.

    The IndexedDB helpers are modelled on the path where the database
    already has its ['cache'] store and every request ends in [onsuccess].
    Two things the source can do on that backend are outside the model: a
    helper rejects when [indexedDB.open] or the store request ends in
    [onerror]; and [deleteFromIndexedDB], [clearIndexedDB] and
    [getKeysFromIndexedDB], which have no [onupgradeneeded], never settle
    when the store does not exist yet ([db.transaction] throws inside
    [onsuccess]). The IndexedDB branches below therefore say what an
    operation that completed has done, not that it completes. *)
Record Window := mkWindow {
  localStorageItems : gmap string string;
  objectStore : gmap string CacheEntry;
}.

Record t := mk {
  memoryCache : list (string * CacheEntry);
  config : CacheConfig;
  window : option Window;
}.

Definition set_memoryCache (m : list (string * CacheEntry)) (c : t) : t :=
  mk m (config c) (window c).
Definition set_window (w : option Window) (c : t) : t :=
  mk (memoryCache c) (config c) w.

Definition new (cfg : CacheConfig) (w : option Window) : t :=
  {| memoryCache := []; config := cfg; window := w |}.

Section WithJSON.
(** [JSON.stringify] on an entry and [JSON.parse] on an item;
    [JSON.parse] throws ([None]) on text that is not JSON. *)
Variable JSON_stringify : CacheEntry -> string.
Variable JSON_parse : string -> option CacheEntry.

Definition isExpired (now : Z) (entry : CacheEntry) : bool :=
  entryTtl entry <? now - timestamp entry.

Definition shouldCacheResponse (cfg : CacheConfig)
    (response : AxiosResponse) : bool :=
  match shouldCache cfg with
  | Some shouldCache => shouldCache response
  | None => (200 <=? status response) && (status response <? 300)
  end.

(** [getEntry]: on localStorage, rejected when [JSON.parse] throws; on
    IndexedDB, the result of a [getFromIndexedDB] whose requests
    succeeded. *)
Definition getEntry (k : string) (c : t)
  : Outcome string (option CacheEntry) :=
  match storage (config c) with
  | memory => Resolved (JsMap.get k (memoryCache c))
  | localStorage =>
      match window c with
      | Some w =>
          let item := localStorageItems w !! ("cache_" +:+ k) in
          if truthy_string item then
            match JSON_parse (default "" item) with
            | Some entry => Resolved (Some entry)
            | None => Rejected "SyntaxError"
            end
          else Resolved None
      | None => Resolved None
      end
  | indexedDB =>
      match window c with
      | Some w => Resolved (objectStore w !! k)
      | None => Resolved None
      end
  end.

(** [setEntry]: on IndexedDB, the store after a [setInIndexedDB] whose
    requests succeeded. *)
Definition setEntry (k : string) (entry : CacheEntry) (c : t) : t :=
  match storage (config c) with
  | memory => set_memoryCache (JsMap.set k entry (memoryCache c)) c
  | localStorage =>
      match window c with
      | Some w =>
          set_window
            (Some {| localStorageItems :=
                       <["cache_" +:+ k := JSON_stringify entry]>
                         (localStorageItems w);
                     objectStore := objectStore w |}) c
      | None => c
      end
  | indexedDB =>
      match window c with
      | Some w =>
          set_window
            (Some {| localStorageItems := localStorageItems w;
                     objectStore := <[key entry := entry]> (objectStore w) |})
            c
      | None => c
      end
  end.

(** [delete]: on IndexedDB, the store after a [deleteFromIndexedDB]
    whose requests succeeded. *)
Definition delete (k : string) (c : t) : t :=
  match storage (config c) with
  | memory => set_memoryCache (JsMap.delete k (memoryCache c)) c
  | localStorage =>
      match window c with
      | Some w =>
          set_window
            (Some {| localStorageItems :=
                       base.delete ("cache_" +:+ k) (localStorageItems w);
                     objectStore := objectStore w |}) c
      | None => c
      end
  | indexedDB =>
      match window c with
      | Some w =>
          set_window
            (Some {| localStorageItems := localStorageItems w;
                     objectStore := base.delete k (objectStore w) |}) c
      | None => c
      end
  end.

(** [key.replace('cache_', '')] on a key that starts with ['cache_']. *)
Definition stripPrefix (k : string) : string :=
  String.substring 6 (String.length k - 6) k.

(** [getKeys]: on IndexedDB, the result of a [getKeysFromIndexedDB]
    whose requests succeeded. *)
Definition getKeys (c : t) : list string :=
  match storage (config c) with
  | memory => JsMap.keys (memoryCache c)
  | localStorage =>
      match window c with
      | Some w =>
          map stripPrefix
            (List.filter (String.prefix "cache_")
               (map fst (map_to_list (localStorageItems w))))
      | None => []
      end
  | indexedDB =>
      match window c with
      | Some w => map fst (map_to_list (objectStore w))
      | None => []
      end
  end.

Definition get (now : Z) (k : string) (c : t)
  : Outcome string (option AxiosResponse) * t :=
  if negb (enabled (config c)) then (Resolved None, c)
  else
    match getEntry k c with
    | Rejected e => (Rejected e, c)
    | Resolved None => (Resolved None, c)
    | Resolved (Some entry) =>
        if isExpired now entry then (Resolved None, delete k c)
        else (Resolved (Some (data entry)), c)
    end.

(** Stable sort of the entries by [timestamp], as
    [entries.sort((a, b) => a[1].timestamp - b[1].timestamp)]: entries
    with the same timestamp keep their order. *)
Fixpoint insertByTimestamp (x : string * CacheEntry)
    (l : list (string * CacheEntry)) : list (string * CacheEntry) :=
  match l with
  | [] => [x]
  | y :: l' =>
      if timestamp (snd x) <=? timestamp (snd y) then x :: y :: l'
      else y :: insertByTimestamp x l'
  end.

Definition sortByTimestamp (l : list (string * CacheEntry))
  : list (string * CacheEntry) :=
  fold_right insertByTimestamp [] l.

(** It looks at [memoryCache] only, whatever the storage is. *)
Definition enforceMaxSize (c : t) : t :=
  if maxSize (config c) <? JsMap.size (memoryCache c) then
    let entries := sortByTimestamp (memoryCache c) in
    let toRemove :=
      take (Z.to_nat (JsMap.size (memoryCache c) - maxSize (config c)))
        entries in
    set_memoryCache
      (fold_left (fun m kv => JsMap.delete (fst kv) m) toRemove
         (memoryCache c)) c
  else c.

Definition newEntry (now : Z) (k : string) (response : AxiosResponse)
    (cfg : CacheConfig) : CacheEntry :=
  {| key := k; data := response; timestamp := now; entryTtl := ttl cfg;
     etag := headers response !! "etag";
     lastModified := headers response !! "last-modified" |}.

Definition set (now : Z) (k : string) (response : AxiosResponse)
    (c : t) : t :=
  if negb (enabled (config c))
     || negb (shouldCacheResponse (config c) response)
  then c
  else enforceMaxSize (setEntry k (newEntry now k response (config c)) c).

(** [clear]: on IndexedDB, the store after a [clearIndexedDB] whose
    requests succeeded. *)
Definition clear (c : t) : t :=
  match storage (config c) with
  | memory => set_memoryCache [] c
  | localStorage =>
      match window c with
      | Some w =>
          set_window
            (Some {| localStorageItems :=
                       filter (fun kv => ~ String.prefix "cache_" (fst kv))
                         (localStorageItems w);
                     objectStore := objectStore w |}) c
      | None => c
      end
  | indexedDB =>
      match window c with
      | Some w =>
          set_window
            (Some {| localStorageItems := localStorageItems w;
                     objectStore := ∅ |}) c
      | None => c
      end
  end.

(** [invalidate(pattern)], with [test] for [new RegExp(pattern).test]. *)
Definition invalidate (test : string -> bool) (c : t) : t :=
  fold_left (fun c k => if test k then delete k c else c) (getKeys c) c.

(** [cleanupExpiredEntries], run every minute by [startCleanupInterval]:
    the keys are listed once, then each one is looked up and deleted when
    its entry has expired. A [JSON.parse] that throws ends the pass; so
    does, in the source, an IndexedDB request that fails, which the model
    of that backend leaves out. The pass reads the clock as one value
    [now]. *)
Fixpoint cleanupKeys (now : Z) (keys : list string) (c : t)
  : Outcome string unit * t :=
  match keys with
  | [] => (Resolved tt, c)
  | k :: keys' =>
      match getEntry k c with
      | Rejected e => (Rejected e, c)
      | Resolved (Some entry) =>
          if isExpired now entry then cleanupKeys now keys' (delete k c)
          else cleanupKeys now keys' c
      | Resolved None => cleanupKeys now keys' c
      end
  end.

Definition cleanupExpiredEntries (now : Z) (c : t)
  : Outcome string unit * t :=
  cleanupKeys now (getKeys c) c.

(** The calls a client or the cleanup timer makes on one cache. *)
Inductive Op :=
| OpGet (now : Z) (k : string)
| OpSet (now : Z) (k : string) (response : AxiosResponse)
| OpDelete (k : string)
| OpClear
| OpInvalidate (test : string -> bool)
| OpCleanup (now : Z).

Definition apply (o : Op) (c : t) : t :=
  match o with
  | OpGet now k => snd (get now k c)
  | OpSet now k response => set now k response c
  | OpDelete k => delete k c
  | OpClear => clear c
  | OpInvalidate test => invalidate test c
  | OpCleanup now => snd (cleanupExpiredEntries now c)
  end.

Definition applyAll (ops : list Op) (c : t) : t :=
  fold_left (fun c o => apply o c) ops c.

End WithJSON.

End CacheManager.

(** ** Asynchronous code as state passing *)

(** A value thrown by the pipeline: an [Error] with a message, or an
    [AxiosError]. *)
Inductive Thrown :=
| JsError (msg : string)
| AxiosFailure (error : AxiosError).

(** [error as AxiosError]: a plain [Error] has neither [code] nor
    [response]. *)
Definition asAxiosError (e : Thrown) : AxiosError :=
  match e with
  | JsError msg => {| code := None; response := None; message := msg |}
  | AxiosFailure error => error
  end.

Module Async.
Section Ops.
Context {S : Type}.

(** An [async] function run to completion on the state [S]. *)
Definition M (X : Type) : Type := S -> Outcome Thrown X * S.

Definition ret {X} (x : X) : M X := fun s => (Resolved x, s).

Definition throw {X} (e : Thrown) : M X := fun s => (Rejected e, s).

Definition bind {X Y} (m : M X) (k : X -> M Y) : M Y :=
  fun s =>
    match m s with
    | (Resolved x, s') => k x s'
    | (Rejected e, s') => (Rejected e, s')
    end.

(** [try { m } catch (error) { h error }] *)
Definition try_catch {X} (m : M X) (h : Thrown -> M X) : M X :=
  fun s =>
    match m s with
    | (Resolved x, s') => (Resolved x, s')
    | (Rejected e, s') => h e s'
    end.

(** An already settled promise, awaited. *)
Definition settled {X} (o : Outcome Thrown X) : M X := fun s => (o, s).
End Ops.
End Async.

Notation "'await' x ':=' m 'in' k" := (Async.bind m (fun x => k))
  (at level 10, x name, m at level 200, k at level 200, only parsing).

(** The world the handlers act on: [localStorage] (present in a browser),
    the state [A] the application's callbacks and the network act on, and
    the record of what was done: the refresh requests issued
    ([fetchCalls]: endpoint and refresh token), the requests handed to the
    transport ([sent]) and the number of [console.warn] calls. *)
Module Runtime.
Record World (A : Type) := mkWorld {
  localStorage : option (gmap string string);
  app : A;
  fetchCalls : list (string * string);
  sent : list AxiosRequestConfig;
  warnings : nat;
}.
Arguments mkWorld {A}.
Arguments localStorage {A}.
Arguments app {A}.
Arguments fetchCalls {A}.
Arguments sent {A}.
Arguments warnings {A}.

Section Ops.
Context {A : Type}.

(** A callback supplied by the application. *)
Definition Callback (X : Type) : Type := A -> Outcome Thrown X * A.

Definition lift {X} (cb : Callback X) : Async.M (S := World A) X :=
  fun w =>
    let '(r, a) := cb (app w) in
    (r, mkWorld (localStorage w) a (fetchCalls w) (sent w) (warnings w)).

(** An optional callback, called when present. *)
Definition call (cb : option (Callback unit)) : Async.M (S := World A) unit :=
  match cb with
  | Some cb => lift cb
  | None => Async.ret tt
  end.

Definition warn : Async.M (S := World A) unit :=
  fun w =>
    (Resolved tt,
     mkWorld (localStorage w) (app w) (fetchCalls w) (sent w)
       (S (warnings w))).

Definition getItem (k : string) : Async.M (S := World A) (option string) :=
  fun w =>
    (Resolved (match localStorage w with
               | Some items => items !! k
               | None => None
               end), w).

Definition setItem (k v : string) : Async.M (S := World A) unit :=
  fun w =>
    (Resolved tt,
     mkWorld (fmap (insert k v) (localStorage w)) (app w) (fetchCalls w)
       (sent w) (warnings w)).

Definition removeItem (k : string) : Async.M (S := World A) unit :=
  fun w =>
    (Resolved tt,
     mkWorld (fmap (delete k) (localStorage w)) (app w) (fetchCalls w)
       (sent w) (warnings w)).
End Ops.
End Runtime.

(** ** Auth handler (utils/auth.ts) *)

Module AuthConfig.
Import Runtime.

(** What [fetch] resolves to, with the fields of the parsed body that
    are read. *)
Record FetchResponse := mkFetch {
  ok : bool;
  accessToken : option string;
  token : option string;
}.

Record RefreshConfig (A : Type) := mkRefresh {
  refreshEnabled : bool;
  getRefreshToken : option (Callback (A := A) (option string));
  refreshEndpoint : option string;
  onRefreshSuccess : option (option string -> Callback (A := A) unit);
  onRefreshFailed : option (Callback (A := A) unit);
}.
Arguments refreshEnabled {A}.
Arguments getRefreshToken {A}.
Arguments refreshEndpoint {A}.
Arguments onRefreshSuccess {A}.
Arguments onRefreshFailed {A}.

Record t (A : Type) := mk {
  enabled : bool;
  tokenKey : string;
  tokenPrefix : string;
  getToken : option (Callback (A := A) (option string));
  setToken : option (string -> Callback (A := A) unit);
  removeToken : option (Callback (A := A) unit);
  onTokenExpired : option (Callback (A := A) unit);
  onUnauthorized : option (Callback (A := A) unit);
  refreshToken : option (RefreshConfig A);
}.
Arguments enabled {A}.
Arguments tokenKey {A}.
Arguments tokenPrefix {A}.
Arguments getToken {A}.
Arguments setToken {A}.
Arguments removeToken {A}.
Arguments onTokenExpired {A}.
Arguments onUnauthorized {A}.
Arguments refreshToken {A}.
End AuthConfig.

Module AuthHandler.
Import Runtime.

Section WithApp.
Context {A : Type}.
(** The network behind [fetch(endpoint, { body: { refreshToken } })]. *)
Variable fetch : string -> string -> Callback (A := A) AuthConfig.FetchResponse.

Abbreviation M := (Async.M (S := World A)).

(** The handler object: [refreshPromise] is the index of the pending
    refresh, [refreshes] counts the calls of [performTokenRefresh]. *)
Record t := mk {
  config : AuthConfig.t A;
  isRefreshing : bool;
  refreshPromise : option nat;
  refreshes : nat;
}.

Definition new (cfg : AuthConfig.t A) : t :=
  {| config := cfg; isRefreshing := false; refreshPromise := None;
     refreshes := 0 |}.

Definition getToken (cfg : AuthConfig.t A) : M (option string) :=
  match AuthConfig.getToken cfg with
  | Some getToken => lift getToken
  | None => getItem (AuthConfig.tokenKey cfg)
  end.

Definition setToken (cfg : AuthConfig.t A) (token : string) : M unit :=
  match AuthConfig.setToken cfg with
  | Some setToken => lift (setToken token)
  | None => setItem (AuthConfig.tokenKey cfg) token
  end.

Definition removeToken (cfg : AuthConfig.t A) : M unit :=
  match AuthConfig.removeToken cfg with
  | Some removeToken => lift removeToken
  | None => removeItem (AuthConfig.tokenKey cfg)
  end.

Definition getRefreshToken (cfg : AuthConfig.t A) : M (option string) :=
  match AuthConfig.refreshToken cfg with
  | Some rc =>
      match AuthConfig.getRefreshToken rc with
      | Some getRefreshToken => lift getRefreshToken
      | None => getItem (AuthConfig.tokenKey cfg +:+ "_refresh")
      end
  | None => getItem (AuthConfig.tokenKey cfg +:+ "_refresh")
  end.

Definition addAuthHeader (cfg : AuthConfig.t A)
    (config : AxiosRequestConfig) : M AxiosRequestConfig :=
  if negb (AuthConfig.enabled cfg) then Async.ret config
  else
    Async.try_catch
      (await token := getToken cfg in
       if truthy_string token then
         Async.ret
           (mkConfig (method config) (url config) (params config)
              (reqData config)
              (<["Authorization" :=
                   AuthConfig.tokenPrefix cfg +:+ " " +:+ default "" token]>
                 (reqHeaders config))
              (signal config))
       else Async.ret config)
      (fun error => await _ := warn in Async.ret config).

(** [fetch], recorded. *)
Definition doFetch (endpoint refreshToken : string)
  : M AuthConfig.FetchResponse :=
  fun w =>
    let '(r, a) := fetch endpoint refreshToken (app w) in
    (r, mkWorld (localStorage w) a
          (fetchCalls w ++ [(endpoint, refreshToken)]) (sent w)
          (warnings w)).

Definition performTokenRefresh (cfg : AuthConfig.t A) : M (option string) :=
  match AuthConfig.refreshToken cfg with
  | None => Async.ret None
  | Some rc =>
      Async.try_catch
        (await refreshToken := getRefreshToken cfg in
         if negb (truthy_string refreshToken)
         then Async.throw (JsError "No refresh token available")
         else
           await response :=
             doFetch
               (if truthy_string (AuthConfig.refreshEndpoint rc)
                then default "" (AuthConfig.refreshEndpoint rc)
                else "/auth/refresh")
               (default "" refreshToken) in
           if negb (AuthConfig.ok response)
           then Async.throw (JsError "Token refresh failed")
           else
             let newToken :=
               if truthy_string (AuthConfig.accessToken response)
               then AuthConfig.accessToken response
               else AuthConfig.token response in
             await _ :=
               match AuthConfig.onRefreshSuccess rc with
               | Some onRefreshSuccess => lift (onRefreshSuccess newToken)
               | None => Async.ret tt
               end in
             Async.ret newToken)
        (fun error =>
           await _ := call (AuthConfig.onRefreshFailed rc) in
           Async.throw error)
  end.

Definition handleForbidden (cfg : AuthConfig.t A) : M unit :=
  call (AuthConfig.onUnauthorized cfg).

(** The tail of [handleUnauthorized]: "if refresh failed or not
    enabled, handle token expiration". *)
Definition handleTokenExpiration (cfg : AuthConfig.t A) : M unit :=
  match AuthConfig.onTokenExpired cfg with
  | Some onTokenExpired => lift onTokenExpired
  | None => removeToken cfg
  end.

(** [handleUnauthorized] from the point where [await
    this.refreshToken()] settles with [refreshed]. *)
Definition handleUnauthorized_resume (cfg : AuthConfig.t A)
    (refreshed : Outcome Thrown (option string)) : M unit :=
  await stored :=
    Async.try_catch
      (await newToken := Async.settled refreshed in
       if truthy_string newToken then
         await _ := setToken cfg (default "" newToken) in
         Async.ret true
       else Async.ret false)
      (fun error => await _ := warn in Async.ret false) in
  if stored then Async.ret tt else handleTokenExpiration cfg.

(** A call of [handleAuthError] suspended, inside [handleUnauthorized],
    at [await this.refreshToken()]: [owns] tells whether its
    [refreshToken()] is the one that started the refresh, hence the one
    whose [finally] clears the flag, or one that returned the pending
    promise; [authError] is the error [handleAuthError] was called
    with and returns. *)
Record Waiter := mkWaiter {
  task : nat;
  owns : bool;
  authError : AxiosError;
}.

Record State := mkState {
  handler : t;
  world : World A;
  waiting : list Waiter;
}.

Definition refreshEnabled (cfg : AuthConfig.t A) : bool :=
  match AuthConfig.refreshToken cfg with
  | Some rc => AuthConfig.refreshEnabled rc
  | None => false
  end.

(** [refreshToken()] up to its [await]. *)
Definition refreshToken_begin (tk : nat) (error : AxiosError)
    (s : State) : State :=
  let h := handler s in
  if isRefreshing h && bool_decide (is_Some (refreshPromise h)) then
    mkState h (world s) (waiting s ++ [mkWaiter tk false error])
  else
    mkState
      {| config := config h; isRefreshing := true;
         refreshPromise := Some (refreshes h);
         refreshes := S (refreshes h) |}
      (world s) (waiting s ++ [mkWaiter tk true error]).

(** [handleUnauthorized()] up to its first suspension: [None] when it
    is left waiting for the refresh, its outcome when it finished. *)
Definition handleUnauthorized_begin (tk : nat) (error : AxiosError)
    (s : State) : option (Outcome Thrown unit) * State :=
  if refreshEnabled (config (handler s))
     && negb (isRefreshing (handler s))
  then (None, refreshToken_begin tk error s)
  else
    let '(r, w) := handleTokenExpiration (config (handler s)) (world s) in
    (Some r, mkState (handler s) w (waiting s)).

(** The [finally] block of [refreshToken()]. *)
Definition refreshToken_finally (h : t) : t :=
  {| config := config h; isRefreshing := false; refreshPromise := None;
     refreshes := refreshes h |}.

(** The waiters resume in the order they started waiting; each one
    finishes [handleUnauthorized] and then [handleAuthError], which
    returns the error it was given. *)
Fixpoint resume (refreshed : Outcome Thrown (option string))
    (ws : list Waiter) (h : t) (w : World A)
  : list (nat * Outcome Thrown AxiosError) * t * World A :=
  match ws with
  | [] => ([], h, w)
  | x :: ws' =>
      let h1 := if owns x then refreshToken_finally h else h in
      let '(r, w1) := handleUnauthorized_resume (config h1) refreshed w in
      let '(rs, h2, w2) := resume refreshed ws' h1 w1 in
      ((task x,
        match r with
        | Resolved _ => Resolved (authError x)
        | Rejected e => Rejected e
        end) :: rs, h2, w2)
  end.

(** The pending refresh runs and settles; every waiter resumes. The
    steps of [performTokenRefresh] are taken together. *)
Definition refreshSettles (s : State)
  : list (nat * Outcome Thrown AxiosError) * State :=
  match refreshPromise (handler s) with
  | None => ([], s)
  | Some _ =>
      let '(refreshed, w1) :=
        performTokenRefresh (config (handler s)) (world s) in
      let '(rs, h2, w2) := resume refreshed (waiting s) (handler s) w1 in
      (rs, mkState h2 w2 [])
  end.

(** [handleAuthError] up to its first suspension. *)
Definition handleAuthError_begin (tk : nat) (error : AxiosError)
    (s : State) : option (Outcome Thrown AxiosError) * State :=
  if negb (AuthConfig.enabled (config (handler s))) then
    (Some (Resolved error), s)
  else
    match response error with
    | None => (Some (Resolved error), s)
    | Some r =>
        if status r =? 401 then
          match handleUnauthorized_begin tk error s with
          | (Some (Resolved _), s') => (Some (Resolved error), s')
          | (Some (Rejected e), s') => (Some (Rejected e), s')
          | (None, s') => (None, s')
          end
        else if status r =? 403 then
          let '(o, w) := handleForbidden (config (handler s)) (world s) in
          (Some match o with
                | Resolved _ => Resolved error
                | Rejected e => Rejected e
                end,
           mkState (handler s) w (waiting s))
        else (Some (Resolved error), s)
    end.

(** [handleAuthError] when nothing else runs in between: a refresh it
    starts settles before anything else happens. *)
Definition handleAuthError (error : AxiosError) (s : State)
  : Outcome Thrown AxiosError * State :=
  match handleAuthError_begin 0 error s with
  | (Some r, s') => (r, s')
  | (None, s') =>
      let '(rs, s'') := refreshSettles s' in
      (match last rs with
       | Some (_, r) => r
       | None => Resolved error
       end, s'')
  end.

(** Several requests in flight: a 401 reaches [handleAuthError] for
    task [tk], or the pending refresh settles. *)
Inductive Event :=
| Unauthorized (tk : nat) (error : AxiosError)
| RefreshSettles.

(** One event; the result lists the calls of [handleAuthError] that
    finished, with what they settled to. *)
Definition step (s : State) (ev : Event)
  : list (nat * Outcome Thrown AxiosError) * State :=
  match ev with
  | Unauthorized tk error =>
      match handleAuthError_begin tk error s with
      | (Some r, s') => ([(tk, r)], s')
      | (None, s') => ([], s')
      end
  | RefreshSettles => refreshSettles s
  end.

Fixpoint run (s : State) (evs : list Event)
  : list (nat * Outcome Thrown AxiosError) * State :=
  match evs with
  | [] => ([], s)
  | ev :: evs' =>
      let '(rs1, s1) := step s ev in
      let '(rs2, s2) := run s1 evs' in
      (rs1 ++ rs2, s2)
  end.

End WithApp.
End AuthHandler.

(** ** Error handler (utils/errorHandler.ts) *)

Module ErrorHandler.
Import Runtime.

Record ErrorConfig (A : Type) := mkCfg {
  onError : option (AxiosError -> Callback (A := A) unit);
  onNetworkError : option (AxiosError -> Callback (A := A) unit);
  onTimeoutError : option (AxiosError -> Callback (A := A) unit);
  onServerError : option (AxiosError -> Callback (A := A) unit);
  onClientError : option (AxiosError -> Callback (A := A) unit);
  transformError : option (AxiosError -> Outcome Thrown AxiosResponse);
  showErrorNotifications : bool;
  errorNotificationHandler :
    option (string -> AxiosError -> Callback (A := A) unit);
}.
Arguments onError {A}.
Arguments onNetworkError {A}.
Arguments onTimeoutError {A}.
Arguments onServerError {A}.
Arguments onClientError {A}.
Arguments transformError {A}.
Arguments showErrorNotifications {A}.
Arguments errorNotificationHandler {A}.

Section WithApp.
Context {A : Type}.
(** The text [showErrorNotification] builds from an error. *)
Variable notificationMessage : AxiosError -> string.

Abbreviation M := (Async.M (S := World A)).

Definition callWith (cb : option (AxiosError -> Callback (A := A) unit))
    (error : AxiosError) : M unit :=
  match cb with
  | Some cb => lift (cb error)
  | None => Async.ret tt
  end.

Definition handleSpecificError (cfg : ErrorConfig A) (error : AxiosError)
  : M unit :=
  match response error with
  | None => callWith (onNetworkError cfg) error
  | Some r =>
      await _ :=
        (if 500 <=? status r then callWith (onServerError cfg) error
         else if 400 <=? status r then callWith (onClientError cfg) error
         else Async.ret tt) in
      if RetryHandler.code_is error "ECONNABORTED"
         || RetryHandler.code_is error "ETIMEDOUT"
      then callWith (onTimeoutError cfg) error
      else Async.ret tt
  end.

Definition showErrorNotification (cfg : ErrorConfig A)
    (error : AxiosError) : M unit :=
  match errorNotificationHandler cfg with
  | None => Async.ret tt
  | Some handler => lift (handler (notificationMessage error) error)
  end.

(** [handleError]: it resolves only through [transformError]. *)
Definition handleError (cfg : ErrorConfig A) (error : AxiosError)
  : M AxiosResponse :=
  await _ := handleSpecificError cfg error in
  await _ := callWith (onError cfg) error in
  match transformError cfg with
  | Some transformError => Async.settled (transformError error)
  | None =>
      await _ :=
        (if showErrorNotifications cfg
         then showErrorNotification cfg error else Async.ret tt) in
      Async.throw (AxiosFailure error)
  end.
End WithApp.
End ErrorHandler.

(** ** The interceptors and the service calls (index.ts,
       core/serviceFactory.ts) *)

Module AxiosInterceptor.
Import Runtime.

Section WithApp.
Context {A : Type}.
Variable fetch : string -> string -> Callback (A := A) AuthConfig.FetchResponse.
Variable notificationMessage : AxiosError -> string.
(** The transport behind the axios instance: it answers a request
    with a response or fails with an [AxiosError]. *)
Variable adapter : AxiosRequestConfig -> Callback (A := A) AxiosResponse.

(** The transport call, recorded. *)
Definition dispatchRequest (config : AxiosRequestConfig)
  : Async.M (S := World A) AxiosResponse :=
  fun w =>
    let '(r, a) := adapter config (app w) in
    (r, mkWorld (localStorage w) a (fetchCalls w) (sent w ++ [config])
          (warnings w)).

Definition withWorld (s : AuthHandler.State) (w : World A)
  : AuthHandler.State :=
  AuthHandler.mkState (AuthHandler.handler s) w (AuthHandler.waiting s).

(** One request through the instance set up by
    [setupGlobalInterceptors]: the request interceptor, the transport,
    and on failure the response interceptor ([handleAuthError], then
    [handleError]). *)
Definition request (errorConfig : ErrorHandler.ErrorConfig A)
    (config : AxiosRequestConfig) (s : AuthHandler.State)
  : Outcome Thrown AxiosResponse * AuthHandler.State :=
  let cfg := AuthHandler.config (AuthHandler.handler s) in
  match AuthHandler.addAuthHeader cfg config (AuthHandler.world s) with
  | (Rejected e, w1) => (Rejected e, withWorld s w1)
  | (Resolved config1, w1) =>
      match dispatchRequest config1 w1 with
      | (Resolved response, w2) => (Resolved response, withWorld s w2)
      | (Rejected thrown, w2) =>
          let error := asAxiosError thrown in
          match AuthHandler.handleAuthError fetch error (withWorld s w2) with
          | (Rejected e, s3) => (Rejected e, s3)
          | (Resolved _, s3) =>
              let '(r, w4) :=
                ErrorHandler.handleError notificationMessage errorConfig
                  error (AuthHandler.world s3) in
              (r, withWorld s3 w4)
          end
      end
  end.

(** [ServiceFactory.executeRequest]: the request under the retry
    handler; the caller gets [response.data]. *)
Definition executeRequest (retryConfig : RetryHandler.RetryConfig)
    (random : Z -> Q) (errorConfig : ErrorHandler.ErrorConfig A)
    (config : AxiosRequestConfig) (s : AuthHandler.State)
  : Outcome (option Thrown) string * AuthHandler.State :=
  let '(r, _, s') :=
    RetryHandler.executeWithRetry (request errorConfig config)
      asAxiosError random retryConfig s in
  (match r with
   | Resolved response => Resolved (Axios.data response)
   | Rejected e => Rejected e
   end, s').
End WithApp.
End AxiosInterceptor.

(** ** Token manager (utils/tokenManager.ts) *)

Module TokenManager.

Record TokenConfig := mkToken {
  accessToken : string;
  refreshToken : option string;
  apiKey : option string;
  expiresAt : option Z;
  tokenType : option string;
}.

Record t := mk {
  tokens : gmap string TokenConfig;
  primaryToken : string;
  fallbackTokens : list string;
  usageCounts : gmap string Z;
  errorCounts : gmap string Z;
}.

Definition getToken (name : option string) (tm : t) : option TokenConfig :=
  let tokenName :=
    if truthy_string name then default "" name else primaryToken tm in
  tokens tm !! tokenName.

Definition isTokenValid (now : Z) (token : TokenConfig) : bool :=
  if negb (truthy_number (expiresAt token)) then true
  else now <? default 0 (expiresAt token).

Definition incrementUsage (tokenName : string) (tm : t) : t :=
  let current := default 0 (usageCounts tm !! tokenName) in
  mk (tokens tm) (primaryToken tm) (fallbackTokens tm)
     (<[tokenName := current + 1]> (usageCounts tm)) (errorCounts tm).

Fixpoint firstValidFallback (now : Z) (names : list string) (tm : t)
  : option TokenConfig * t :=
  match names with
  | [] => (None, tm)
  | fallbackName :: names' =>
      match getToken (Some fallbackName) tm with
      | Some fallback =>
          if isTokenValid now fallback
          then (Some fallback, incrementUsage fallbackName tm)
          else firstValidFallback now names' tm
      | None => firstValidFallback now names' tm
      end
  end.

Definition getValidToken (now : Z) (tm : t) : option TokenConfig * t :=
  match getToken (Some (primaryToken tm)) tm with
  | Some primary =>
      if isTokenValid now primary
      then (Some primary, incrementUsage (primaryToken tm) tm)
      else firstValidFallback now (fallbackTokens tm) tm
  | None => firstValidFallback now (fallbackTokens tm) tm
  end.

Definition buildAuthHeader (token : TokenConfig) : gmap string string :=
  let headers : gmap string string := ∅ in
  let headers :=
    if negb (String.eqb (accessToken token) "") then
      let tokenType :=
        if truthy_string (tokenType token)
        then default "" (tokenType token) else "Bearer" in
      <["Authorization" := tokenType +:+ " " +:+ accessToken token]> headers
    else headers in
  if truthy_string (apiKey token)
  then <["X-API-Key" := default "" (apiKey token)]> headers
  else headers.

(** [{ ...config.headers, ...authHeader }]: the keys of [authHeader]
    win. *)
Definition addAuthHeader (now : Z) (config : AxiosRequestConfig) (tm : t)
  : AxiosRequestConfig * t :=
  match getValidToken now tm with
  | (None, tm') => (config, tm')
  | (Some token, tm') =>
      (mkConfig (method config) (url config) (params config)
         (reqData config) (buildAuthHeader token ∪ reqHeaders config)
         (signal config), tm')
  end.

End TokenManager.

(** ** Request manager (utils/requestManager.ts) *)

Module RequestManager.

Record RequestManagerConfig := mkCfg {
  enabled : bool;
  deduplication : bool;
  cancellation : bool;
  maxConcurrentRequests : Z;
  requestTimeout : Z;
  deduplicationWindow : Z;
}.

(** A [PendingRequest] object. [promise] is a reference to a promise;
    [resolve] and [reject] are the functions of the promise built by
    [executeRequest], referred to by [settles]; [controller] is a
    reference to the [AbortController]. *)
Record PendingRequest := mkPending {
  id : string;
  config : AxiosRequestConfig;
  controller : nat;
  promise : nat;
  timestamp : Z;
  settles : nat;
}.

Inductive PromiseState :=
| Pending
| Fulfilled (value : AxiosResponse)
| Failed (reason : Thrown).

Inductive HistoryStatus := pending | completed | cancelled | error.

Record HistoryEntry := mkEntry {
  entryId : string;
  startTime : Z;
  endTime : option Z;
  duration : option Z;
  entryStatus : HistoryStatus;
  entryError : option Thrown;
}.

Record RequestStats := mkStats {
  totalRequests : Z;
  activeRequests : Z;
  completedRequests : Z;
  cancelledRequests : Z;
  deduplicatedRequests : Z;
  averageResponseTime : Q;
  errorRate : Q;
}.

(** The manager and the objects it refers to. Both maps hold references
    into [objects], so that an object reached through either map is the
    same object; [promises] is the state of every promise created;
    [aborted] lists the controllers whose [abort()] was called;
    [transportCalls] records the calls of [requestFn]; [fresh] is the next
    unused reference. *)
Record t := mk {
  pendingRequests : gmap string nat;
  deduplicationMap : gmap string nat;
  requestHistory : list HistoryEntry;
  managerConfig : RequestManagerConfig;
  stats : RequestStats;
  objects : gmap nat PendingRequest;
  promises : gmap nat PromiseState;
  aborted : list nat;
  transportCalls : list (string * AxiosRequestConfig);
  fresh : nat;
}.

Definition new (cfg : RequestManagerConfig) : t :=
  {| pendingRequests := ∅; deduplicationMap := ∅; requestHistory := [];
     managerConfig := cfg;
     stats := mkStats 0 0 0 0 0 0 0;
     objects := ∅; promises := ∅; aborted := []; transportCalls := [];
     fresh := 0 |}.

Definition getRequestKey (config : AxiosRequestConfig) : string :=
  let method := if truthy_string (method config)
                then default "" (method config) else "GET" in
  let url := default "" (url config) in
  let params := default "{}" (params config) in
  let data := default "{}" (reqData config) in
  method +:+ ":" +:+ url +:+ ":" +:+ params +:+ ":" +:+ data.

(** What a call of [executeRequest] gives its caller: the promise of
    [requestFn] itself when the manager is disabled, a promise of the
    manager, or an exception. *)
Inductive Returned :=
| Direct
| Promise (p : nat)
| Throws (msg : string).

Definition emptyResponse : AxiosResponse := mkResponse 0 "" ∅.

Definition executeRequest (now : Z) (requestId : string)
    (config : AxiosRequestConfig) (rm : t) : Returned * t :=
  if negb (enabled (managerConfig rm)) then
    (Direct,
     mk (pendingRequests rm) (deduplicationMap rm) (requestHistory rm)
        (managerConfig rm) (stats rm) (objects rm) (promises rm)
        (aborted rm) (transportCalls rm ++ [("", config)]) (fresh rm))
  else
    let requestKey := getRequestKey config in
    match (if deduplication (managerConfig rm)
           then ref ← deduplicationMap rm !! requestKey; objects rm !! ref
           else None) with
    | Some existingRequest =>
        let st := stats rm in
        (Promise (promise existingRequest),
         mk (pendingRequests rm) (deduplicationMap rm) (requestHistory rm)
            (managerConfig rm)
            (mkStats (totalRequests st) (activeRequests st)
               (completedRequests st) (cancelledRequests st)
               (deduplicatedRequests st + 1) (averageResponseTime st)
               (errorRate st))
            (objects rm) (promises rm) (aborted rm) (transportCalls rm)
            (fresh rm))
    | None =>
        if maxConcurrentRequests (managerConfig rm)
           <=? Z.of_nat (size (pendingRequests rm))
        then (Throws "Maximum concurrent requests exceeded", rm)
        else
          let controller := fresh rm in
          let promise := S (fresh rm) in
          let placeholder := S (S (fresh rm)) in
          let ref := S (S (S (fresh rm))) in
          let pendingRequest :=
            mkPending requestId config controller placeholder now promise in
          let pendingRequests1 := <[requestId := ref]> (pendingRequests rm) in
          let deduplicationMap1 :=
            if deduplication (managerConfig rm)
            then <[requestKey := ref]> (deduplicationMap rm)
            else deduplicationMap rm in
          let history1 :=
            requestHistory rm ++ [mkEntry requestId now None None pending None] in
          let st := stats rm in
          let stats1 :=
            mkStats (totalRequests st + 1) (activeRequests st + 1)
              (completedRequests st) (cancelledRequests st)
              (deduplicatedRequests st) (averageResponseTime st)
              (errorRate st) in
          let configWithAbort :=
            mkConfig (method config) (url config) (params config)
              (reqData config) (reqHeaders config) (Some controller) in
          let objects1 := <[ref := pendingRequest]> (objects rm) in
          (* const pendingRequest = this.pendingRequests.get(requestId)!;
             pendingRequest.promise = promise; *)
          let objects2 :=
            match pendingRequests1 !! requestId with
            | Some r =>
                alter (fun o => mkPending (id o) (RequestManager.config o)
                                  (RequestManager.controller o) promise
                                  (timestamp o) (settles o)) r objects1
            | None => objects1
            end in
          (Promise promise,
           mk pendingRequests1 deduplicationMap1 history1 (managerConfig rm)
              stats1 objects2
              (<[placeholder := Fulfilled emptyResponse]>
                 (<[promise := Pending]> (promises rm)))
              (aborted rm)
              (transportCalls rm ++ [(requestId, configWithAbort)])
              (S (S (S (S (fresh rm))))))
    end.

(** [resolve] and [reject] act on a promise that is still pending. *)
Definition settle (p : nat) (o : PromiseState) (ps : gmap nat PromiseState)
  : gmap nat PromiseState :=
  match ps !! p with
  | Some Pending => <[p := o]> ps
  | _ => ps
  end.

Fixpoint updateHistory (requestId : string) (f : HistoryEntry -> HistoryEntry)
    (h : list HistoryEntry) : list HistoryEntry :=
  match h with
  | [] => []
  | e :: h' =>
      if String.eqb (entryId e) requestId then f e :: h'
      else e :: updateHistory requestId f h'
  end.

Definition updateAverageResponseTime (duration : Z) (st : RequestStats)
  : RequestStats :=
  let totalCompleted := completedRequests st + cancelledRequests st in
  if 0 <? totalCompleted then
    mkStats (totalRequests st) (activeRequests st) (completedRequests st)
      (cancelledRequests st) (deduplicatedRequests st)
      ((averageResponseTime st * inject_Z (totalCompleted - 1)
        + inject_Z duration) / inject_Z totalCompleted)%Q
      (errorRate st)
  else st.

Definition updateErrorRate (h : list HistoryEntry) (st : RequestStats)
  : RequestStats :=
  let totalRequests' := completedRequests st + cancelledRequests st in
  if 0 <? totalRequests' then
    let errorCount :=
      length (List.filter
                (fun e => match entryStatus e with error => true | _ => false end)
                h) in
    mkStats (totalRequests st) (activeRequests st) (completedRequests st)
      (cancelledRequests st) (deduplicatedRequests st)
      (averageResponseTime st)
      (inject_Z (Z.of_nat errorCount) / inject_Z totalRequests')%Q
  else st.

(** The common part of the three handlers: look the request up, update
    the statistics and the history, remove it from both maps, settle its
    promise. *)
Definition finish (requestId : string) (rm : t)
    (newStats : PendingRequest -> RequestStats)
    (newEntry : PendingRequest -> HistoryEntry -> HistoryEntry)
    (after : list HistoryEntry -> RequestStats -> RequestStats)
    (outcome : PromiseState) : t :=
  match ref ← pendingRequests rm !! requestId; objects rm !! ref with
  | None => rm
  | Some request =>
      let history1 :=
        updateHistory requestId (newEntry request) (requestHistory rm) in
      mk (delete requestId (pendingRequests rm))
         (delete (getRequestKey (config request)) (deduplicationMap rm))
         history1 (managerConfig rm)
         (after (requestHistory rm) (newStats request))
         (objects rm)
         (settle (settles request) outcome (promises rm))
         (aborted rm) (transportCalls rm) (fresh rm)
  end.

Definition handleRequestSuccess (now : Z) (requestId : string)
    (response : AxiosResponse) (rm : t) : t :=
  finish requestId rm
    (fun request =>
       let st := stats rm in
       updateAverageResponseTime (now - timestamp request)
         (mkStats (totalRequests st) (activeRequests st - 1)
            (completedRequests st + 1) (cancelledRequests st)
            (deduplicatedRequests st) (averageResponseTime st)
            (errorRate st)))
    (fun request e =>
       mkEntry (entryId e) (startTime e) (Some now)
         (Some (now - timestamp request)) completed (entryError e))
    (fun _ st => st)
    (Fulfilled response).

(** [updateErrorRate] runs before the history entry is marked. *)
Definition handleRequestError (now : Z) (requestId : string)
    (err : Thrown) (rm : t) : t :=
  finish requestId rm
    (fun request =>
       let st := stats rm in
       updateAverageResponseTime (now - timestamp request)
         (mkStats (totalRequests st) (activeRequests st - 1)
            (completedRequests st + 1) (cancelledRequests st)
            (deduplicatedRequests st) (averageResponseTime st)
            (errorRate st)))
    (fun request e =>
       mkEntry (entryId e) (startTime e) (Some now)
         (Some (now - timestamp request)) error (Some err))
    updateErrorRate
    (Failed err).

Definition handleRequestCancellation (now : Z) (requestId : string)
    (rm : t) : t :=
  finish requestId rm
    (fun request =>
       let st := stats rm in
       mkStats (totalRequests st) (activeRequests st - 1)
         (completedRequests st) (cancelledRequests st + 1)
         (deduplicatedRequests st) (averageResponseTime st) (errorRate st))
    (fun request e =>
       mkEntry (entryId e) (startTime e) (Some now)
         (Some (now - timestamp request)) cancelled (entryError e))
    (fun _ st => st)
    (Failed (JsError "Request cancelled")).

Definition abort (c : nat) (rm : t) : t :=
  mk (pendingRequests rm) (deduplicationMap rm) (requestHistory rm)
     (managerConfig rm) (stats rm) (objects rm) (promises rm)
     (aborted rm ++ [c]) (transportCalls rm) (fresh rm).

Definition cancelRequest (now : Z) (requestId : string) (rm : t)
  : bool * t :=
  match ref ← pendingRequests rm !! requestId; objects rm !! ref with
  | None => (false, rm)
  | Some request =>
      (true,
       handleRequestCancellation now requestId (abort (controller request) rm))
  end.

(** What happens to a manager: a call of [executeRequest]; the transport
    call made for a request settles (the [then] and [catch] of
    [executeRequest]); a call of [cancelRequest]; the timeout armed by
    [executeActualRequest] fires and aborts the controller. *)
Inductive Event :=
| Execute (now : Z) (requestId : string) (config : AxiosRequestConfig)
| TransportSettles (now : Z) (requestId : string)
    (outcome : Outcome Thrown AxiosResponse)
| Cancel (now : Z) (requestId : string)
| TimeoutFires (controller : nat).

Definition step (rm : t) (ev : Event) : t :=
  match ev with
  | Execute now requestId config =>
      snd (executeRequest now requestId config rm)
  | TransportSettles now requestId (Resolved response) =>
      handleRequestSuccess now requestId response rm
  | TransportSettles now requestId (Rejected err) =>
      handleRequestError now requestId err rm
  | Cancel now requestId => snd (cancelRequest now requestId rm)
  | TimeoutFires c => abort c rm
  end.

Definition run (rm : t) (evs : list Event) : t := fold_left step evs rm.

(** The request ids a trace hands to [executeRequest]. *)
Definition executeIds (evs : list Event) : list string :=
  omap (fun ev => match ev with
                  | Execute _ requestId _ => Some requestId
                  | _ => None
                  end) evs.

(** The events that settle the request [requestId]. *)
Definition finishes (requestId : string) (ev : Event) : bool :=
  match ev with
  | TransportSettles _ requestId' _ | Cancel _ requestId' =>
      String.eqb requestId' requestId
  | _ => false
  end.

End RequestManager.

(** ** Request queue (utils/requestQueue.ts) *)

Module RequestQueue.

Record QueueConfig := mkQueueCfg {
  concurrency : Z;
  timeout : Z;
  retryDelay : Z;
  maxRetries : Z;
}.

Record ThrottleConfig := mkThrottle {
  enabled : bool;
  requestsPerSecond : Z;
  burstLimit : Z;
  windowMs : Z;
}.

(** A queued request; [resolve] and [reject] belong to the promise
    [addRequest] returned. *)
Record QueuedRequest := mkQueued {
  id : string;
  config : AxiosRequestConfig;
  retryCount : Z;
  timestamp : Z;
  priority : Z;
}.

(** [running] is a [Set] of request ids. *)
Record t := mk {
  queue : list QueuedRequest;
  running : list string;
  requestCounts : gmap string (list Z);
  queueConfig : QueueConfig;
  throttleConfig : ThrottleConfig;
}.

Definition new (qc : QueueConfig) (tc : ThrottleConfig) : t :=
  {| queue := []; running := []; requestCounts := ∅; queueConfig := qc;
     throttleConfig := tc |}.

Definition set_queue (l : list QueuedRequest) (q : t) : t :=
  mk l (running q) (requestCounts q) (queueConfig q) (throttleConfig q).

Definition getRequestKey (config : AxiosRequestConfig) : string :=
  (if truthy_string (method config) then default "" (method config)
   else "GET")
  +:+ ":" +:+ default "" (url config).

(** [canMakeRequest]: the timestamps of the requests let through, per
    key, are kept for one window. *)
Definition canMakeRequest (now : Z) (config : AxiosRequestConfig) (q : t)
  : bool * t :=
  if negb (enabled (throttleConfig q)) then (true, q)
  else
    let windowStart := now - windowMs (throttleConfig q) in
    let url := getRequestKey config in
    let requests :=
      List.filter (fun timestamp => windowStart <? timestamp)
        (default [] (requestCounts q !! url)) in
    if requestsPerSecond (throttleConfig q) <=? Z.of_nat (length requests)
    then (false, q)
    else
      (true,
       mk (queue q) (running q)
          (<[url := requests ++ [now]]> (requestCounts q))
          (queueConfig q) (throttleConfig q)).

(** [queue.splice(insertIndex, 0, queuedRequest)] at the first request
    of lower priority, [queue.push] when there is none. *)
Fixpoint insertByPriority (r : QueuedRequest) (l : list QueuedRequest)
  : list QueuedRequest :=
  match l with
  | [] => [r]
  | x :: l' =>
      if priority x <? priority r then r :: x :: l'
      else x :: insertByPriority r l'
  end.

(** [addRequest] up to its call of [processQueue]. *)
Definition addRequest (now : Z) (requestId : string)
    (config : AxiosRequestConfig) (priority : Z) (q : t) : t :=
  set_queue
    (insertByPriority (mkQueued requestId config 0 now priority) (queue q)) q.

(** The comparator of [getNextRequest] puts [a] before [b], or leaves them
    in their order: higher priority first, then the older one. *)
Definition inOrder (a b : QueuedRequest) : bool :=
  if negb (priority a =? priority b) then priority b - priority a <=? 0
  else timestamp a - timestamp b <=? 0.

Fixpoint insertInOrder (r : QueuedRequest) (l : list QueuedRequest)
  : list QueuedRequest :=
  match l with
  | [] => [r]
  | x :: l' =>
      if inOrder r x then r :: x :: l' else x :: insertInOrder r l'
  end.

(** [Array.prototype.sort] is stable. *)
Definition sortQueue (l : list QueuedRequest) : list QueuedRequest :=
  fold_right insertInOrder [] l.

(** [getNextRequest] sorts the queue in place. *)
Definition getNextRequest (q : t) : option QueuedRequest * t :=
  let sorted := sortQueue (queue q) in
  (head sorted, set_queue sorted q).

(** [processQueue] up to its [await]: the request it starts, if any. *)
Definition processQueue (now : Z) (q : t) : option QueuedRequest * t :=
  if concurrency (queueConfig q) <=? Z.of_nat (length (running q))
  then (None, q)
  else
    match getNextRequest q with
    | (None, q1) => (None, q1)
    | (Some request, q1) =>
        let '(allowed, q2) :=
          if enabled (throttleConfig q1)
          then canMakeRequest now (config request) q1
          else (true, q1) in
        if negb allowed then (None, q2)
        else
          (Some request,
           mk (List.filter
                 (fun req => negb (String.eqb (id req) (id request)))
                 (queue q2))
              (if bool_decide (id request ∈ running q2) then running q2
               else running q2 ++ [id request])
              (requestCounts q2) (queueConfig q2) (throttleConfig q2))
    end.

(** A series of throttle checks, each at its own time, with the requests
    let through so far: time and key. *)
Definition throttleStep (s : list (Z * string) * t)
    (call : Z * AxiosRequestConfig) : list (Z * string) * t :=
  let '(ok, q) := canMakeRequest (fst call) (snd call) (snd s) in
  (if ok then fst s ++ [(fst call, getRequestKey (snd call))] else fst s, q).

Definition letThrough (calls : list (Z * AxiosRequestConfig)) (q : t)
  : list (Z * string) :=
  fst (fold_left throttleStep calls ([], q)).

End RequestQueue.

(* ================================================================== *)
(** * Properties *)
(* ================================================================== *)

Module CircuitBreakerProps.
Import CircuitBreaker.

Definition cfg5 : CircuitBreakerConfig :=
  {| enabled := true; failureThreshold := 5; successThreshold := 3;
     timeout := 60000; resetTimeout := 30000; monitoringPeriod := 10000;
     errorFilter := None |}.

Definition e500 : AxiosError :=
  {| code := None;
     response := Some {| status := 500; data := ""; headers := ∅ |};
     message := "Request failed with status code 500" |}.

Example five_failures_open :
  state (recordFailures
           [(1, e500); (2, e500); (3, e500); (4, e500); (5, e500)]
           (new cfg5)) = Open.
Proof. reflexivity. Qed.

Example four_failures_closed :
  state (recordFailures [(1, e500); (2, e500); (3, e500); (4, e500)]
           (new cfg5)) = Closed.
Proof. reflexivity. Qed.

Example open_rejects_before_timeout :
  fst (run (new cfg5)
         [Failed 1 e500; Failed 2 e500; Failed 3 e500; Failed 4 e500;
          Failed 5 e500; CanExecute 6; CanExecute 60004; CanExecute 60005;
          CanExecute 60006])
  = [false; false; true; true].
Proof. reflexivity. Qed.

(** *** Single steps *)

Lemma onFailure_config now error cb :
  config (onFailure now error cb) = config cb.
Proof.
  unfold onFailure. destruct (counted _ _); cbn; [|done].
  destruct (state cb); cbn; [|done..].
  by destruct (_ <=? _).
Qed.

Lemma onFailure_closed_below now error cb :
  state cb = Closed -> counted (config cb) error = true ->
  failureCount cb + 1 < failureThreshold (config cb) ->
  state (onFailure now error cb) = Closed /\
  failureCount (onFailure now error cb) = failureCount cb + 1.
Proof.
  intros Hst Hc Hlt. unfold onFailure. rewrite Hc. cbn. rewrite Hst.
  destruct (Z.leb_spec (failureThreshold (config cb)) (failureCount cb + 1));
    [lia | done].
Qed.

Lemma onFailure_closed_reached now error cb :
  state cb = Closed -> counted (config cb) error = true ->
  failureThreshold (config cb) <= failureCount cb + 1 ->
  state (onFailure now error cb) = Open /\
  nextAttemptTime (onFailure now error cb)
  = Some (now + timeout (config cb)).
Proof.
  intros Hst Hc Hle. unfold onFailure. rewrite Hc. cbn. rewrite Hst.
  destruct (Z.leb_spec (failureThreshold (config cb)) (failureCount cb + 1));
    [done | lia].
Qed.

Lemma onFailure_open now error cb :
  state cb = Open ->
  state (onFailure now error cb) = Open /\
  nextAttemptTime (onFailure now error cb) = nextAttemptTime cb.
Proof.
  intros Hst. unfold onFailure. destruct (counted _ _); cbn; [|done].
  by rewrite Hst.
Qed.

Lemma recordFailures_config fs : forall cb,
  config (recordFailures fs cb) = config cb.
Proof.
  induction fs as [|f fs IH]; intros cb; [done|].
  cbn. unfold recordFailures in IH. rewrite IH. apply onFailure_config.
Qed.

Lemma recordFailures_open fs : forall cb,
  state cb = Open ->
  state (recordFailures fs cb) = Open /\
  nextAttemptTime (recordFailures fs cb) = nextAttemptTime cb.
Proof.
  induction fs as [|f fs IH]; intros cb Hst; [done|].
  cbn. destruct (onFailure_open (fst f) (snd f) cb Hst) as [H1 H2].
  destruct (IH _ H1) as [H3 H4]. unfold recordFailures in *.
  by rewrite H3, H4, H2.
Qed.

(** The failure that trips a closed breaker is the one that brings
    [failureCount] to the threshold: the [k]-th of the run, with
    [k = max 1 (failureThreshold - failureCount)]. *)
Lemma recordFailures_trips fs : forall cb,
  state cb = Closed ->
  Forall (fun f => counted (config cb) (snd f) = true) fs ->
  Z.max 1 (failureThreshold (config cb) - failureCount cb)
    <= Z.of_nat (length fs) ->
  state (recordFailures fs cb) = Open /\
  exists f,
    fs !! Z.to_nat
            (Z.max 1 (failureThreshold (config cb) - failureCount cb) - 1)
      = Some f /\
    nextAttemptTime (recordFailures fs cb)
    = Some (fst f + timeout (config cb)).
Proof.
  induction fs as [|f fs IH]; intros cb Hst Hall Hlen.
  { cbn in Hlen. lia. }
  apply Forall_cons in Hall as [Hf Hall]. cbn [recordFailures fold_left].
  destruct (Z_lt_le_dec (failureCount cb + 1) (failureThreshold (config cb)))
    as [Hlt|Hge].
  - destruct (onFailure_closed_below (fst f) (snd f) cb Hst Hf Hlt)
      as [Hst' Hfc'].
    specialize (IH (onFailure (fst f) (snd f) cb) Hst').
    rewrite onFailure_config, Hfc' in IH.
    destruct IH as [Ho (g & Hg & Hn)]; [done | |].
    { rewrite length_cons in Hlen. lia. }
    split; [done|]. exists g. split; [|done].
    replace (Z.to_nat
               (Z.max 1 (failureThreshold (config cb) - failureCount cb) - 1))
      with (S (Z.to_nat
                 (Z.max 1 (failureThreshold (config cb)
                           - (failureCount cb + 1)) - 1))) by lia.
    done.
  - destruct (onFailure_closed_reached (fst f) (snd f) cb Hst Hf Hge)
      as [Hst' Hn].
    destruct (recordFailures_open fs _ Hst') as [Ho Hn'].
    split; [done|]. exists f. split.
    + replace (Z.to_nat
                 (Z.max 1 (failureThreshold (config cb) - failureCount cb)
                  - 1)) with 0%nat by lia.
      done.
    + unfold recordFailures in Hn'. by rewrite Hn', Hn.
Qed.

(** [failureCount] is never negative: it starts at 0 and is only
    incremented or reset to 0. *)
Lemma step_failureCount_nonneg cb ev :
  0 <= failureCount cb -> 0 <= failureCount (snd (step cb ev)).
Proof.
  intros Hfc. destruct ev as [now|now|now|now e|now|now]; cbn [step].
  - unfold canExecute. destruct (negb _); [done|].
    destruct (state cb); [done| |done]. by destruct (_ && _).
  - destruct (negb _); [done|]. unfold canExecute. cbn.
    destruct (negb _); [done|].
    destruct (state cb); [done| |done]. by destruct (_ && _).
  - destruct (enabled _); [|done]. unfold onSuccess. cbn.
    destruct (state cb); cbn; [done..|]. by destruct (_ <=? _).
  - destruct (enabled _); [|done]. unfold onFailure.
    destruct (negb _); [done|]. cbn.
    destruct (state cb); cbn; [|lia..]. destruct (_ <=? _); cbn; lia.
  - cbn. unfold resetTimerFires. destruct (resetTimer cb) as [tm|]; [|done].
    by destruct (_ && _).
  - done.
Qed.

Lemma run_failureCount_nonneg evs : forall cb,
  0 <= failureCount cb -> 0 <= failureCount (snd (run cb evs)).
Proof.
  induction evs as [|ev evs IH]; intros cb Hfc; [done|].
  cbn [run]. pose proof (step_failureCount_nonneg cb ev Hfc) as H1.
  destruct (step cb ev) as [r cb1]. specialize (IH cb1 H1).
  by destruct (run cb1 evs).
Qed.

(** *** An open breaker before [nextAttemptTime] *)

Lemma step_open_early cb ev t :
  enabled (config cb) = true -> state cb = Open ->
  nextAttemptTime cb = Some t -> eventTime ev < t ->
  (fst (step cb ev) = None \/ fst (step cb ev) = Some false) /\
  enabled (config (snd (step cb ev))) = true /\
  state (snd (step cb ev)) = Open /\
  nextAttemptTime (snd (step cb ev)) = Some t.
Proof.
  intros Hen Hst Hn Hlt. destruct ev as [now|now|now|now e|now|now];
    cbn in Hlt; cbn [step].
  - unfold canExecute. rewrite Hen, Hst, Hn. cbn.
    destruct (Z.leb_spec t now); [lia|]. rewrite andb_false_r. cbn. eauto.
  - rewrite Hen. cbn. unfold canExecute. cbn. rewrite Hen, Hst, Hn. cbn.
    destruct (Z.leb_spec t now); [lia|]. rewrite andb_false_r. cbn. eauto.
  - rewrite Hen. cbn. unfold onSuccess. cbn. rewrite Hst. cbn. eauto.
  - rewrite Hen. cbn. rewrite onFailure_config.
    destruct (onFailure_open now e cb Hst) as [-> ->]. eauto.
  - cbn. unfold resetTimerFires. destruct (resetTimer cb) as [tm|]; [|eauto].
    destruct (live tm && (due tm <=? now)); cbn; eauto.
  - cbn. eauto.
Qed.

Lemma run_open_early evs : forall cb t,
  enabled (config cb) = true -> state cb = Open ->
  nextAttemptTime cb = Some t ->
  Forall (fun ev => eventTime ev < t) evs ->
  Forall (fun b => b = false) (fst (run cb evs)) /\
  state (snd (run cb evs)) = Open /\
  nextAttemptTime (snd (run cb evs)) = Some t.
Proof.
  induction evs as [|ev evs IH]; intros cb t Hen Hst Hn Hall; [by cbn|].
  apply Forall_cons in Hall as [Hev Hall].
  destruct (step_open_early cb ev t Hen Hst Hn Hev) as (Hr & Hen' & Hst' & Hn').
  cbn [run]. destruct (step cb ev) as [r cb1]. cbn in *.
  specialize (IH cb1 t Hen' Hst' Hn' Hall).
  destruct (run cb1 evs) as [rs cb2]. cbn in *.
  destruct IH as (IH1 & IH2 & IH3). split; [|done].
  destruct Hr as [-> | ->]; [done|]. by constructor.
Qed.

(** On an enabled breaker in the Closed state (whose [failureCount]
    is not negative, as in every state the methods produce),
    [failureThreshold >= 1] counted failures with nothing in between
    leave the breaker Open, with [nextAttemptTime] set to the time of the
    failure that tripped it plus the open timeout; from there on, whatever
    happens before [nextAttemptTime] (admission checks, outcomes of
    requests still in flight, the reset timer, the monitoring tick), every
    admission check answers [false] and the breaker stays Open. *)
Lemma failures_back_to_back_open (cb : t) (fs : list (Z * AxiosError)) :
  enabled (config cb) = true ->
  state cb = Closed ->
  0 <= failureCount cb ->
  1 <= failureThreshold (config cb) ->
  Z.of_nat (length fs) = failureThreshold (config cb) ->
  Forall (fun f => counted (config cb) (snd f) = true) fs ->
  state (recordFailures fs cb) = Open /\
  exists f,
    fs !! Z.to_nat
            (Z.max 1 (failureThreshold (config cb) - failureCount cb) - 1)
      = Some f /\
    nextAttemptTime (recordFailures fs cb)
    = Some (fst f + timeout (config cb)) /\
    forall evs,
      Forall (fun ev => eventTime ev < fst f + timeout (config cb)) evs ->
      Forall (fun b => b = false) (fst (run (recordFailures fs cb) evs)) /\
      state (snd (run (recordFailures fs cb) evs)) = Open.
Proof.
  intros Hen Hst Hfc Hth Hlen Hall.
  destruct (recordFailures_trips fs cb Hst Hall) as [Ho (f & Hf & Hn)];
    [lia|].
  split; [done|]. exists f. split; [done|]. split; [done|].
  intros evs Hevs.
  destruct (run_open_early evs (recordFailures fs cb)
              (fst f + timeout (config cb))) as (H1 & H2 & _); try done.
  by rewrite recordFailures_config.
Qed.

(** *** Failures with other events in between *)

(** An event that is not a success, and whose failure, if it is one, is
    counted. *)
Definition noSuccess (cfg : CircuitBreakerConfig) (ev : Event) : bool :=
  match ev with
  | Succeeded _ => false
  | Failed _ error => counted cfg error
  | _ => true
  end.

Definition isFailed (ev : Event) : bool :=
  match ev with Failed _ _ => true | _ => false end.

(** The number of failures in a trace. *)
Definition failedIn (evs : list Event) : Z :=
  Z.of_nat (length (List.filter isFailed evs)).

(** No reset timer is waiting to fire. *)
Definition noLiveTimer (cb : t) : Prop :=
  forall tm, resetTimer cb = Some tm -> live tm = false.

Lemma step_config cb ev : config (snd (step cb ev)) = config cb.
Proof.
  destruct ev as [now|now|now|now e|now|now]; cbn [step].
  - unfold canExecute. destruct (negb _); [done|].
    destruct (state cb); [done| |done]. by destruct (_ && _).
  - destruct (negb _); [done|]. unfold canExecute. cbn.
    destruct (negb _); [done|].
    destruct (state cb); [done| |done]. by destruct (_ && _).
  - destruct (enabled _); [|done]. unfold onSuccess. cbn.
    destruct (state cb); cbn; [done..|]. by destruct (_ <=? _).
  - destruct (enabled _); [|done]. cbn. apply onFailure_config.
  - cbn. unfold resetTimerFires. destruct (resetTimer cb) as [tm|]; [|done].
    by destruct (_ && _).
  - done.
Qed.

(** Without a success, a breaker that has left the Closed state does not
    come back to it. *)
Lemma step_stays_tripped cb ev :
  state cb <> Closed -> noSuccess (config cb) ev = true ->
  state (snd (step cb ev)) <> Closed.
Proof.
  intros Hst Hev. destruct ev as [now|now|now|now e|now|now];
    cbn in Hev; cbn [step]; try done.
  - unfold canExecute. destruct (negb _); [done|].
    destruct (state cb) eqn:E; cbn; [done| |by rewrite E].
    destruct (_ && _); cbn; [done|by rewrite E].
  - destruct (negb _); [done|]. unfold canExecute. cbn.
    destruct (negb _); [done|].
    destruct (state cb) eqn:E; cbn; [done| |by rewrite E].
    destruct (_ && _); cbn; [done|by rewrite E].
  - destruct (enabled _); [|done]. cbn. unfold onFailure.
    destruct (negb _); [done|]. cbn.
    destruct (state cb) eqn:E; cbn; [done|by rewrite E|done].
  - cbn. unfold resetTimerFires. destruct (resetTimer cb) as [tm|]; [|done].
    by destruct (_ && _).
Qed.

(** On a Closed breaker with no live reset timer, an event that is not a
    success either trips the breaker or leaves it Closed, with
    [failureCount] raised by one when the event is a failure. *)
Lemma step_closed_counts cb ev :
  enabled (config cb) = true -> state cb = Closed -> noLiveTimer cb ->
  noSuccess (config cb) ev = true ->
  state (snd (step cb ev)) <> Closed \/
  (state (snd (step cb ev)) = Closed /\ noLiveTimer (snd (step cb ev)) /\
   failureCount (snd (step cb ev))
   = failureCount cb + (if isFailed ev then 1 else 0)).
Proof.
  intros Hen Hst Htm Hev. destruct ev as [now|now|now|now e|now|now];
    cbn in Hev; cbn [step isFailed]; try done.
  - unfold canExecute. rewrite Hen, Hst. cbn. right. split; [done|].
    split; [done|lia].
  - rewrite Hen. cbn. unfold canExecute. cbn. rewrite Hen, Hst. cbn.
    right. split; [done|]. split; [done|lia].
  - rewrite Hen. cbn. unfold onFailure. rewrite Hev. cbn. rewrite Hst.
    destruct (_ <=? _); cbn; [by left|]. right. done.
  - cbn. right. unfold resetTimerFires.
    destruct (resetTimer cb) as [tm|] eqn:Htimer;
      [|split; [done|]; split; [done|lia]].
    rewrite (Htm tm Htimer). cbn. split; [done|]. split; [done|lia].
  - cbn. right. split; [done|]. split; [done|lia].
Qed.

Lemma run_stays_tripped evs : forall cb,
  state cb <> Closed ->
  Forall (fun ev => noSuccess (config cb) ev = true) evs ->
  state (snd (run cb evs)) <> Closed.
Proof.
  induction evs as [|ev evs IH]; intros cb Hst Hall; [done|].
  apply Forall_cons in Hall as [Hev Hall]. cbn [run].
  pose proof (step_stays_tripped cb ev Hst Hev) as Hst1.
  pose proof (step_config cb ev) as Hcfg.
  destruct (step cb ev) as [r cb1]. cbn in *.
  rewrite <- Hcfg in Hall. specialize (IH cb1 Hst1 Hall).
  by destruct (run cb1 evs).
Qed.

Lemma run_closed_counts evs : forall cb,
  enabled (config cb) = true -> state cb = Closed -> noLiveTimer cb ->
  Forall (fun ev => noSuccess (config cb) ev = true) evs ->
  state (snd (run cb evs)) <> Closed \/
  (state (snd (run cb evs)) = Closed /\
   failureCount (snd (run cb evs)) = failureCount cb + failedIn evs).
Proof.
  induction evs as [|ev evs IH]; intros cb Hen Hst Htm Hall.
  { right. cbn. unfold failedIn. cbn. split; [done|lia]. }
  apply Forall_cons in Hall as [Hev Hall]. cbn [run].
  pose proof (step_closed_counts cb ev Hen Hst Htm Hev) as Hstep.
  pose proof (step_config cb ev) as Hcfg.
  pose proof (run_stays_tripped evs (snd (step cb ev))) as Htrip.
  destruct (step cb ev) as [r cb1]. cbn in *.
  rewrite <- Hcfg in Hall, Hen.
  destruct Hstep as [Hne|(Hst1 & Htm1 & Hfc1)].
  - left. specialize (Htrip Hne Hall). by destruct (run cb1 evs).
  - specialize (IH cb1 Hen Hst1 Htm1 Hall).
    destruct (run cb1 evs) as [rs cb2]. cbn in *.
    destruct IH as [?|[Hst2 Hfc2]]; [by left|]. right. split; [done|].
    rewrite Hfc2, Hfc1. unfold failedIn. cbn [List.filter].
    destruct (isFailed ev); cbn [length]; lia.
Qed.

Lemma run_config evs : forall cb, config (snd (run cb evs)) = config cb.
Proof.
  induction evs as [|ev evs IH]; intros cb; [done|]. cbn [run].
  pose proof (step_config cb ev) as Hcfg.
  destruct (step cb ev) as [r cb1]. specialize (IH cb1).
  destruct (run cb1 evs) as [rs cb2]. cbn in *. congruence.
Qed.

Lemma run_app cb evs1 evs2 :
  snd (run cb (evs1 ++ evs2)) = snd (run (snd (run cb evs1)) evs2).
Proof.
  revert cb. induction evs1 as [|ev evs1 IH]; intros cb; [done|].
  cbn [app run]. destruct (step cb ev) as [r cb1]. specialize (IH cb1).
  destruct (run cb1 (evs1 ++ evs2)) as [rs cb2].
  destruct (run cb1 evs1) as [rs1 cb3]. cbn in *. done.
Qed.

(** What holds whenever no reset timer is live, as in every Closed state
    that the constructor, [close()] or [reset()] leave: counted failures
    that bring the count to [failureThreshold] open the breaker, whatever
    other events (admission checks, timer callbacks, monitoring ticks),
    except successes, come in between. *)
Lemma failures_open_when_no_timer_is_live (cb : t) (evs : list Event)
    (now : Z) (error : AxiosError) :
  enabled (config cb) = true ->
  state cb = Closed ->
  noLiveTimer cb ->
  Forall (fun ev => noSuccess (config cb) ev = true) evs ->
  counted (config cb) error = true ->
  failureThreshold (config cb) <= failureCount cb + failedIn evs + 1 ->
  state (snd (run cb (evs ++ [Failed now error]))) = Open.
Proof.
  intros Hen Hst Htm Hall Hc Hth. rewrite run_app.
  pose proof (run_closed_counts evs cb Hen Hst Htm Hall) as Hrun.
  pose proof (run_config evs cb) as Hcfg.
  destruct (run cb evs) as [rs cb1]. cbn in *.
  rewrite Hcfg, Hen. cbn. unfold onFailure. rewrite Hcfg, Hc. cbn.
  destruct Hrun as [Hne|[Hst1 Hfc1]].
  - destruct (state cb1) eqn:E; cbn; [done|by rewrite E|done].
  - rewrite Hst1, Hcfg.
    destruct (Z.leb_spec (failureThreshold (config cb)) (failureCount cb1 + 1));
      [done|lia].
Qed.

(** *** Where a Closed breaker can have a live reset timer *)

Definition notForceClose (op : Op) : bool :=
  match op with ForceClose => false | _ => true end.

(** [open()] alone arms the reset timer, and [close()] and [reset()]
    clear it: as long as [forceClose()] is not called, a breaker in the
    Closed state has no live reset timer. *)
Lemma apply_closed_no_live_timer cb op :
  notForceClose op = true ->
  (state cb = Closed -> noLiveTimer cb) ->
  state (apply cb op) = Closed -> noLiveTimer (apply cb op).
Proof.
  intros Hop Hinv.
  destruct op as [[now|now|now|now e|now|now]| |now| | |];
    cbn [apply step snd] in *; try done.
  - unfold canExecute. destruct (negb _); [done|].
    destruct (state cb) eqn:E; cbn; [by auto| |congruence].
    destruct (_ && _); cbn; congruence.
  - destruct (negb _); [done|]. unfold canExecute. cbn.
    destruct (negb _); cbn; [done|].
    destruct (state cb) eqn:E; cbn; [by auto| |congruence].
    destruct (_ && _); cbn; congruence.
  - destruct (enabled _); [|done]. unfold onSuccess. cbn.
    destruct (state cb) eqn:E; cbn; [by auto|congruence|].
    destruct (_ <=? _); cbn; [|congruence]. intros _ tm. done.
  - destruct (enabled _); [|done]. unfold onFailure.
    destruct (negb _); [done|]. cbn.
    destruct (state cb) eqn:E; cbn; [|congruence|done].
    destruct (_ <=? _); cbn; [done|]. by auto.
  - unfold resetTimerFires. destruct (resetTimer cb) as [tm|] eqn:Htm; [|done].
    destruct (live tm && (due tm <=? now)) eqn:Hl; cbn; [|by rewrite ?Htm].
    intros _ tm' [= <-]. done.
  - unfold destroy. cbn. intros Hst tm. unfold clearTimeout.
    destruct (resetTimer cb) as [tm0|]; [|done]. by intros [= <-].
Qed.

Lemma applyAll_closed_no_live_timer ops : forall cb,
  forallb notForceClose ops = true ->
  (state cb = Closed -> noLiveTimer cb) ->
  state (applyAll cb ops) = Closed -> noLiveTimer (applyAll cb ops).
Proof.
  induction ops as [|op ops IH]; intros cb Hops Hinv; [done|].
  cbn in Hops. apply andb_true_iff in Hops as [Hop Hops].
  cbn [applyAll fold_left]. apply (IH (apply cb op) Hops).
  by apply apply_closed_no_live_timer.
Qed.

Lemma apply_config cb op : config (apply cb op) = config cb.
Proof.
  destruct op as [ev| |now| | |]; cbn [apply]; try done. apply step_config.
Qed.

Lemma applyAll_config ops : forall cb, config (applyAll cb ops) = config cb.
Proof.
  induction ops as [|op ops IH]; intros cb; [done|].
  cbn [applyAll fold_left]. unfold applyAll in IH.
  by rewrite IH, apply_config.
Qed.

(** On every path that does not go through [forceClose()] the breaker
    does what is expected of it: from a new, enabled breaker, after any
    events and overrides other than [forceClose()] that leave it Closed,
    counted failures that bring the count to [failureThreshold], with no
    success in between, open it. *)
Lemma failures_open_without_forceClose (cfg : CircuitBreakerConfig)
    (ops : list Op) (evs : list Event) (now : Z) (error : AxiosError) :
  enabled cfg = true ->
  forallb notForceClose ops = true ->
  let cb := applyAll (new cfg) ops in
  state cb = Closed ->
  Forall (fun ev => noSuccess cfg ev = true) evs ->
  counted cfg error = true ->
  failureThreshold cfg <= failureCount cb + failedIn evs + 1 ->
  state (snd (run cb (evs ++ [Failed now error]))) = Open.
Proof.
  intros Hen Hops cb Hst Hall Hc Hth.
  assert (Hcfg : config cb = cfg) by apply applyAll_config.
  apply failures_open_when_no_timer_is_live; rewrite ?Hcfg; try done.
  by apply applyAll_closed_no_live_timer.
Qed.

(** *** [forceClose()] and the reset timer *)

Definition fiveFailures : list (Z * AxiosError) :=
  [(1, e500); (2, e500); (3, e500); (4, e500); (5, e500)].

(** A breaker that tripped at time 5, which armed the reset timer for
    30005, and was then closed by [forceClose()]. *)
Definition closedByHand : t :=
  forceClose (recordFailures fiveFailures (new cfg5)).

(** The same breaker closed by [reset()], which clears the timer as
    [close()] does. *)
Definition closedByReset : t :=
  reset (recordFailures fiveFailures (new cfg5)).

(** Five counted failures in the Closed state, with no success in
    between; the reset timer is due after the fourth. *)
Definition fiveMore : list Event :=
  [Failed 30001 e500; Failed 30002 e500; Failed 30003 e500;
   Failed 30004 e500; ResetTimerFires 30005; Failed 30006 e500].

(** C2 does not hold after [forceClose()], which closes the breaker but,
    unlike [close()] and [reset()], leaves the reset timer that [open()]
    armed. On a breaker with [failureThreshold = 5] that tripped and was
    closed by hand, five counted failures follow in the Closed state, with
    no success in between; the timer fires after the fourth and clears
    [failureCount]: the breaker is still Closed, with [failureCount = 1],
    and admits the next request. After [reset()] the same events open the
    breaker, and the next request is refused. *)
Theorem C2_forceClose_leaves_reset_timer :
  state closedByHand = Closed /\
  failureCount closedByHand = 0 /\
  resetTimer closedByHand = Some {| due := 30005; live := true |} /\
  Forall (fun ev => noSuccess cfg5 ev = true) fiveMore /\
  failedIn fiveMore = failureThreshold cfg5 /\
  state (snd (run closedByHand fiveMore)) = Closed /\
  failureCount (snd (run closedByHand fiveMore)) = 1 /\
  fst (run closedByHand (fiveMore ++ [CanExecute 30007])) = [true] /\
  resetTimer closedByReset = None /\
  state (snd (run closedByReset fiveMore)) = Open /\
  fst (run closedByReset (fiveMore ++ [CanExecute 30007])) = [false].
Proof.
  split; [reflexivity|]. split; [reflexivity|]. split; [reflexivity|].
  split; [repeat constructor|]. split; [reflexivity|].
  split; [reflexivity|]. split; [reflexivity|]. split; [reflexivity|].
  split; [reflexivity|]. split; reflexivity.
Qed.

(** *** Recovery: Open, HalfOpen, Closed *)

Example recovery_trace :
  let '(rs, cb) :=
    run (new cfg5)
      [Failed 1 e500; Failed 2 e500; Failed 3 e500; Failed 4 e500;
       Failed 5 e500; CanExecute 60005; Succeeded 60010; CanExecute 60011;
       Succeeded 60020; Succeeded 60030] in
  (rs, state cb, failureCount cb, successCount cb, nextAttemptTime cb)
  = ([true; true], Closed, 0, 0, None).
Proof. reflexivity. Qed.

Lemma canExecute_half_open now cb :
  state cb = HalfOpen -> canExecute now cb = (true, cb).
Proof.
  intros Hst. unfold canExecute. rewrite Hst. by destruct (negb _).
Qed.

Lemma onSuccess_config now cb : config (onSuccess now cb) = config cb.
Proof.
  unfold onSuccess. cbn. destruct (state cb); cbn; [done..|].
  by destruct (_ <=? _).
Qed.

Lemma onSuccess_half_open_below now cb :
  state cb = HalfOpen ->
  successCount cb + 1 < successThreshold (config cb) ->
  state (onSuccess now cb) = HalfOpen /\
  successCount (onSuccess now cb) = successCount cb + 1.
Proof.
  intros Hst Hlt. unfold onSuccess. cbn. rewrite Hst.
  destruct (Z.leb_spec (successThreshold (config cb)) (successCount cb + 1));
    [lia | done].
Qed.

Lemma onSuccess_half_open_reached now cb :
  state cb = HalfOpen ->
  successThreshold (config cb) <= successCount cb + 1 ->
  onSuccess now cb
  = close (set_successCount (successCount cb + 1)
             (set_lastSuccessTime (Some now)
                (set_totalSuccesses (totalSuccesses cb + 1) cb))).
Proof.
  intros Hst Hle. unfold onSuccess. cbn. rewrite Hst.
  destruct (Z.leb_spec (successThreshold (config cb)) (successCount cb + 1));
    [done | lia].
Qed.

Lemma recordSuccesses_app xs ys cb :
  recordSuccesses (xs ++ ys) cb = recordSuccesses ys (recordSuccesses xs cb).
Proof. apply fold_left_app. Qed.

(** Fewer successes than the threshold asks for keep the breaker
    HalfOpen. *)
Lemma recordSuccesses_half_open_below nows : forall cb,
  state cb = HalfOpen ->
  successCount cb + Z.of_nat (length nows) < successThreshold (config cb) ->
  state (recordSuccesses nows cb) = HalfOpen /\
  successCount (recordSuccesses nows cb)
  = successCount cb + Z.of_nat (length nows) /\
  config (recordSuccesses nows cb) = config cb.
Proof.
  induction nows as [|now nows IH]; intros cb Hst Hlt.
  { cbn. split; [done|]. split; [lia | done]. }
  rewrite length_cons in Hlt. cbn [recordSuccesses fold_left].
  destruct (onSuccess_half_open_below now cb Hst) as [Hst' Hsc']; [lia|].
  destruct (IH (onSuccess now cb) Hst') as (H1 & H2 & H3).
  { rewrite onSuccess_config, Hsc'. lia. }
  unfold recordSuccesses in *. rewrite H1, H2, H3, Hsc', onSuccess_config.
  rewrite length_cons. split; [done|]. split; [lia | done].
Qed.

(** C3. On an enabled Open breaker whose [nextAttemptTime] is set (and
    truthy), an admission check before that time is refused and changes
    nothing; the first check at or after it is admitted and moves the
    breaker to HalfOpen with [successCount = 0]; later checks in HalfOpen
    are admitted and change nothing. From there, with
    [successThreshold >= 1], the breaker is still HalfOpen after fewer
    than [successThreshold] successes in a row, and the
    [successThreshold]-th one closes it: state Closed, [failureCount] and
    [successCount] 0, [nextAttemptTime] cleared. *)
Theorem C3_half_open_then_closed (cb : t) (t0 now : Z) (nows : list Z) :
  enabled (config cb) = true ->
  state cb = Open ->
  nextAttemptTime cb = Some t0 ->
  t0 <> 0 ->
  t0 <= now ->
  1 <= successThreshold (config cb) ->
  Z.of_nat (length nows) = successThreshold (config cb) ->
  let cb1 := snd (canExecute now cb) in
  (forall early, early < t0 -> canExecute early cb = (false, cb)) /\
  fst (canExecute now cb) = true /\
  state cb1 = HalfOpen /\ successCount cb1 = 0 /\
  (forall k later,
     (k < length nows)%nat ->
     state (recordSuccesses (take k nows) cb1) = HalfOpen /\
     canExecute later (recordSuccesses (take k nows) cb1)
     = (true, recordSuccesses (take k nows) cb1)) /\
  state (recordSuccesses nows cb1) = Closed /\
  failureCount (recordSuccesses nows cb1) = 0 /\
  successCount (recordSuccesses nows cb1) = 0 /\
  nextAttemptTime (recordSuccesses nows cb1) = None.
Proof.
  intros Hen Hst Hn Hnz Hle Hth Hlen cb1.
  assert (Hce : canExecute now cb
                = (true, set_successCount 0 (set_state HalfOpen cb))).
  { unfold canExecute. rewrite Hen, Hst, Hn. cbn.
    destruct (Z.eqb_spec t0 0); [done|].
    destruct (Z.leb_spec t0 now); [done | lia]. }
  subst cb1. rewrite Hce. cbn [fst snd].
  set (cb1 := set_successCount 0 (set_state HalfOpen cb)).
  assert (Hst1 : state cb1 = HalfOpen) by done.
  assert (Hsc1 : successCount cb1 = 0) by done.
  assert (Hcfg1 : config cb1 = config cb) by done.
  split.
  { intros early Hearly. unfold canExecute. rewrite Hen, Hst, Hn. cbn.
    destruct (Z.leb_spec t0 early); [lia|]. by rewrite andb_false_r. }
  do 3 (split; [done|]).
  assert (Hbelow : forall k, (k < length nows)%nat ->
            state (recordSuccesses (take k nows) cb1) = HalfOpen /\
            successCount (recordSuccesses (take k nows) cb1) = Z.of_nat k /\
            config (recordSuccesses (take k nows) cb1) = config cb).
  { intros k Hk.
    destruct (recordSuccesses_half_open_below (take k nows) cb1 Hst1)
      as (H1 & H2 & H3).
    - rewrite length_take, Hsc1, Hcfg1. lia.
    - rewrite H1, H2, H3, length_take, Hsc1, Hcfg1.
      split; [done|]. split; [lia | done]. }
  split.
  { intros k later Hk. destruct (Hbelow k Hk) as (H1 & _ & _).
    split; [done|]. by apply canExecute_half_open. }
  revert Hlen Hbelow.
  induction nows as [|lastNow nows' _] using rev_ind; intros Hlen Hbelow.
  { cbn in Hlen. lia. }
  rewrite length_app in Hlen. cbn in Hlen.
  destruct (Hbelow (length nows')) as (H1 & H2 & H3).
  { rewrite length_app. cbn. lia. }
  rewrite take_app_length in H1, H2, H3.
  rewrite recordSuccesses_app. cbn [recordSuccesses fold_left].
  fold (recordSuccesses nows' cb1).
  rewrite onSuccess_half_open_reached; [done | done |].
  rewrite H2, H3. lia.
Qed.

Definition openCb : t := recordFailures
  [(1, e500); (2, e500); (3, e500); (4, e500); (5, e500)] (new cfg5).

Lemma C3_half_open_then_closed_witness :
  let cb1 := snd (canExecute 60005 openCb) in
  let nows := [60010; 60020; 60030] in
  (forall early, early < 60005 -> canExecute early openCb = (false, openCb)) /\
  fst (canExecute 60005 openCb) = true /\
  state cb1 = HalfOpen /\ successCount cb1 = 0 /\
  (forall k later,
     (k < length nows)%nat ->
     state (recordSuccesses (take k nows) cb1) = HalfOpen /\
     canExecute later (recordSuccesses (take k nows) cb1)
     = (true, recordSuccesses (take k nows) cb1)) /\
  state (recordSuccesses nows cb1) = Closed /\
  failureCount (recordSuccesses nows cb1) = 0 /\
  successCount (recordSuccesses nows cb1) = 0 /\
  nextAttemptTime (recordSuccesses nows cb1) = None.
Proof.
  apply (C3_half_open_then_closed openCb 60005 60005 [60010; 60020; 60030]).
  - reflexivity.
  - reflexivity.
  - reflexivity.
  - lia.
  - lia.
  - vm_compute. discriminate.
  - reflexivity.
Defined.

End CircuitBreakerProps.

Module RetryProps.
Import RetryHandler.

Definition cfg3 : RetryConfig :=
  {| enabled := true; maxRetries := 3; retryDelay := 1000;
     retryCondition := None; retryDelayFunction := None |}.

Definition errStatus (st : Z) : AxiosError :=
  {| code := None;
     response := Some {| status := st; data := ""; headers := ∅ |};
     message := "" |}.

Example retry_599 : retries cfg3 (errStatus 599) 0 = true.
Proof. reflexivity. Qed.
Example retry_404 : retries cfg3 (errStatus 404) 0 = false.
Proof. reflexivity. Qed.
Example retry_429_last : retries cfg3 (errStatus 429) 3 = false.
Proof. reflexivity. Qed.
Example retry_600 : retries cfg3 (errStatus 600) 0 = true.
Proof. reflexivity. Qed.

(** Scenario of the specification: 500, 500, 500, then 200. The world is
    the number of requests sent so far. *)
Definition flaky (sent : nat) : Outcome AxiosError Z * nat :=
  (if (sent <? 3)%nat then Rejected (errStatus 500) else Resolved 200,
   S sent).

Example three_retries_then_success :
  let '(r, delays, sent) :=
    executeWithRetry flaky id (fun _ => 0%Q) cfg3 0%nat in
  (r, map Qred delays, sent) = (Resolved 200, [1000; 2000; 4000]%Q, 4%nat).
Proof. reflexivity. Qed.

(** A server that always answers 600. *)
Definition always600 (sent : nat) : Outcome AxiosError Z * nat :=
  (Rejected (errStatus 600), S sent).

(** C7, as stated, fails at a response status above 599: the rule of the
    specification does not retry it, the handler does, and
    [executeWithRetry] sends the request [maxRetries + 1] times. *)
Lemma C7_status_600_counterexample :
  spec_shouldRetry cfg3 (errStatus 600) 0 = false /\
  retries cfg3 (errStatus 600) 0 = true /\
  snd (executeWithRetry always600 id (fun _ => 0%Q) cfg3 0%nat) = 4%nat.
Proof. repeat split. Qed.

Lemma code_is_true error c : code_is error c = true <-> code error = Some c.
Proof.
  unfold code_is. destruct (code error) as [c'|]; [|done].
  rewrite String.eqb_eq. split; congruence.
Qed.

Lemma shouldRetry_default cfg error :
  retryCondition cfg = None ->
  shouldRetry cfg error = true <->
  code error = Some "ECONNABORTED" \/ code error = Some "ETIMEDOUT" \/
  response error = None \/
  exists r, response error = Some r /\
            (status r = 408 \/ status r = 429 \/ 500 <= status r).
Proof.
  intros Hnone. unfold shouldRetry. rewrite Hnone.
  destruct (code_is error "ECONNABORTED") eqn:Ha.
  { apply code_is_true in Ha. cbn. tauto. }
  destruct (code_is error "ETIMEDOUT") eqn:Hb.
  { apply code_is_true in Hb. cbn. tauto. }
  cbn. destruct (response error) as [r|] eqn:Hr.
  - rewrite !orb_true_iff, Z.leb_le, !Z.eqb_eq. split.
    + intros H. do 3 right. exists r. split; [done|]. tauto.
    + intros [H|[H|[H|(r' & Hr' & H)]]].
      * apply code_is_true in H. congruence.
      * apply code_is_true in H. congruence.
      * done.
      * injection Hr' as <-. tauto.
  - split; [|done]. intros _. right. right. by left.
Qed.

(** C7, amended. At every attempt index the loop reaches
    ([0 <= attempt <= maxRetries]) the handler retries iff
    [attempt < maxRetries] and the custom predicate holds if one is
    supplied, otherwise: the error carries a timeout code, or has no
    response, or its status is 408, 429 or at least 500 (no upper bound).
    That decision is the one the loop of [executeWithRetry] takes after a
    failed attempt. In particular, with no custom predicate, 599 is
    retried and a status below 500 other than 408 and 429 (404, say) is
    not, unless the error carries a timeout code. *)
Theorem C7_retry_decision (cfg : RetryConfig) (error : AxiosError)
    (attempt : Z) :
  0 <= attempt <= maxRetries cfg ->
  (retries cfg error attempt = true <->
   attempt < maxRetries cfg /\
   match retryCondition cfg with
   | Some retryCondition => retryCondition error = true
   | None =>
       code error = Some "ECONNABORTED" \/ code error = Some "ETIMEDOUT" \/
       response error = None \/
       exists r, response error = Some r /\
                 (status r = 408 \/ status r = 429 \/ 500 <= status r)
   end) /\
  (forall (W T : Type) (requestFn : W -> Outcome AxiosError T * W)
          (random : Z -> Q) fuel lastError delays w w',
     requestFn w = (Rejected error, w') ->
     loop requestFn id random cfg (S fuel) attempt lastError delays w
     = if retries cfg error attempt
       then loop requestFn id random cfg fuel (attempt + 1) (Some error)
              (delays ++ [calculateDelay cfg attempt (random attempt)]) w'
       else (Rejected (Some error), delays, w')) /\
  (retryCondition cfg = None -> attempt < maxRetries cfg ->
   forall r, response error = Some r ->
     (status r = 599 -> retries cfg error attempt = true) /\
     (status r < 500 -> status r <> 408 -> status r <> 429 ->
      code error <> Some "ECONNABORTED" -> code error <> Some "ETIMEDOUT" ->
      retries cfg error attempt = false)).
Proof.
  intros Hrange.
  assert (Hdec : retries cfg error attempt = true <->
                 attempt < maxRetries cfg /\ shouldRetry cfg error = true).
  { unfold retries. rewrite negb_true_iff, orb_false_iff, negb_false_iff.
    rewrite Z.eqb_neq. split; intros [H1 H2]; (split; [lia | done]). }
  split; [|split].
  - rewrite Hdec. destruct (retryCondition cfg) as [f|] eqn:Hrc.
    + unfold shouldRetry. by rewrite Hrc.
    + by rewrite (shouldRetry_default cfg error Hrc).
  - intros W T requestFn random fuel lastError delays w w' Hreq.
    cbn [loop]. rewrite Hreq. unfold retries.
    by destruct (_ || _).
  - intros Hrc Hlt r Hr. split.
    + intros H599. apply Hdec. split; [done|].
      apply (shouldRetry_default cfg error Hrc).
      do 3 right. exists r. split; [done|]. lia.
    + intros H1 H2 H3 H4 H5. apply not_true_is_false. intros Hret.
      apply Hdec in Hret as [_ Hret].
      apply (shouldRetry_default cfg error Hrc) in Hret.
      destruct Hret as [H|[H|[H|(r' & Hr' & H)]]]; try congruence.
      assert (r' = r) as -> by congruence. lia.
Qed.

Lemma C7_retry_decision_witness :
  retries cfg3 (errStatus 599) 2 = true /\
  retries cfg3 (errStatus 404) 2 = false.
Proof.
  destruct (C7_retry_decision cfg3 (errStatus 404) 2) as (_ & _ & H404);
    [cbn; lia|].
  destruct (C7_retry_decision cfg3 (errStatus 599) 2) as (_ & _ & H599);
    [cbn; lia|].
  split.
  - apply (H599 eq_refl) with (r := {| status := 599; data := ""; headers := ∅ |});
      [cbn; lia | reflexivity | reflexivity].
  - apply (H404 eq_refl) with (r := {| status := 404; data := ""; headers := ∅ |});
      [cbn; lia | reflexivity | cbn; lia | cbn; lia | cbn; lia
      | discriminate | discriminate].
Defined.

(** *** Delays *)

Example delay_attempt_2 :
  Qred (calculateDelay cfg3 2 (1 # 2)) = 4200%Q.
Proof. reflexivity. Qed.

Example delay_attempt_5_capped :
  Qred (calculateDelay cfg3 5 0) = 30000%Q.
Proof. reflexivity. Qed.

Example delay_custom :
  calculateDelay
    {| enabled := true; maxRetries := 3; retryDelay := 1000;
       retryCondition := None;
       retryDelayFunction := Some (fun n => inject_Z (n * 7)) |} 3 (1 # 2)
  = 21%Q.
Proof. reflexivity. Qed.

Lemma jitter_range (u e : Q) :
  (0 <= u)%Q -> (u < 1)%Q -> (0 < e)%Q ->
  (0 <= u * (1 # 10) * e)%Q /\ (u * (1 # 10) * e < (1 # 10) * e)%Q.
Proof. intros H0 H1 He. split; nra. Qed.

(** C8. With no custom delay function, a positive base delay and
    [Math.random()] returning [u] in [0, 1), the delay of attempt [n] is
    [min(e + r, 30000)] where [e = baseDelay * 2^n] and [r = u * 0.1 * e]
    lies in [0, 0.1 * e); [r] is [u] scaled by the length of that
    interval, so every point of the interval is the jitter of exactly the
    sample [u = r / (0.1 * e)]. With [baseDelay = 1000] the delay lies
    between [2^n * 1000] and [2^n * 1000 * 1.1], both capped at 30000.
    Numbers are rationals: the arithmetic is exact. *)
Theorem C8_delay_formula_and_bounds (cfg : RetryConfig) (n : Z) (u : Q) :
  retryDelayFunction cfg = None ->
  0 <= n ->
  (0 <= u)%Q -> (u < 1)%Q ->
  (0 < retryDelay cfg)%Q ->
  let e := (retryDelay cfg * 2 ^ n)%Q in
  let r := (u * (1 # 10) * e)%Q in
  calculateDelay cfg n u = Qmin (e + r) 30000 /\
  (0 <= r)%Q /\ (r < (1 # 10) * e)%Q /\
  (forall r', (0 <= r')%Q -> (r' < (1 # 10) * e)%Q ->
     exists u', (0 <= u')%Q /\ (u' < 1)%Q /\ (u' * (1 # 10) * e == r')%Q /\
                forall u'', (u'' * (1 # 10) * e == r')%Q -> (u'' == u')%Q) /\
  (retryDelay cfg == 1000 ->
   (Qmin (2 ^ n * 1000) 30000 <= calculateDelay cfg n u)%Q /\
   (calculateDelay cfg n u <= Qmin (2 ^ n * 1000 * (11 # 10)) 30000)%Q)%Q.
Proof.
  intros Hnone Hn Hu0 Hu1 Hbase e r.
  assert (Hp : (0 < 2 ^ n)%Q) by (by apply Qpower_0_lt).
  assert (He : (0 < e)%Q) by (subst e; nra).
  destruct (jitter_range u e Hu0 Hu1 He) as [Hr0 Hr1].
  assert (Hcalc : calculateDelay cfg n u = Qmin (e + r) 30000).
  { unfold calculateDelay. by rewrite Hnone. }
  split; [done|]. split; [done|]. split; [done|]. split.
  - intros r' Hr'0 Hr'1. exists (r' / ((1 # 10) * e))%Q.
    assert (Hd : (0 < (1 # 10) * e)%Q) by lra.
    assert (Hdn : ~ ((1 # 10) * e == 0)%Q) by lra.
    split; [|split; [|split]].
    + apply Qle_shift_div_l; [done | lra].
    + apply Qlt_shift_div_r; [done | lra].
    + field. lra.
    + intros u'' Hu''. apply Qeq_sym. rewrite <- Hu''. field. lra.
  - intros Hb. rewrite Hcalc.
    assert (Heq : (e == 2 ^ n * 1000)%Q).
    { subst e. rewrite Hb. ring. }
    change (0 <= r)%Q in Hr0. change (r < (1 # 10) * e)%Q in Hr1.
    clearbody r e.
    split; apply Q.min_le_compat_r; lra.
Qed.

Lemma C8_delay_formula_and_bounds_witness :
  (Qmin (2 ^ 2 * 1000) 30000 <= calculateDelay cfg3 2 (1 # 2))%Q /\
  (calculateDelay cfg3 2 (1 # 2) <= Qmin (2 ^ 2 * 1000 * (11 # 10)) 30000)%Q.
Proof.
  destruct (C8_delay_formula_and_bounds cfg3 2 (1 # 2)) as (_ & _ & _ & _ & H).
  - reflexivity.
  - lia.
  - vm_compute. discriminate.
  - reflexivity.
  - reflexivity.
  - apply H. reflexivity.
Defined.

End RetryProps.

Module JsMapProps.
Section Lemmas.
Context {V : Type}.
Implicit Types (m : list (string * V)) (k : string) (v : V).

Lemma get_set_eq k v m : JsMap.get k (JsMap.set k v m) = Some v.
Proof.
  induction m as [|[k' v'] m IH]; cbn.
  - by rewrite String.eqb_refl.
  - destruct (String.eqb_spec k' k) as [->|Hne]; cbn.
    + by rewrite String.eqb_refl.
    + by destruct (String.eqb_spec k' k).
Qed.

Lemma get_set_ne k k' v m :
  k <> k' -> JsMap.get k' (JsMap.set k v m) = JsMap.get k' m.
Proof.
  intros Hne. induction m as [|[k0 v0] m IH]; cbn.
  - by destruct (String.eqb_spec k k').
  - destruct (String.eqb_spec k0 k) as [->|Hne0]; cbn.
    + by destruct (String.eqb_spec k k').
    + by rewrite IH.
Qed.

Lemma get_delete_eq k m : JsMap.get k (JsMap.delete k m) = None.
Proof.
  induction m as [|[k' v'] m IH]; cbn; [done|].
  destruct (String.eqb_spec k' k) as [->|Hne]; cbn; [done|].
  by destruct (String.eqb_spec k' k).
Qed.

Lemma get_delete_ne k k' m :
  k <> k' -> JsMap.get k' (JsMap.delete k m) = JsMap.get k' m.
Proof.
  intros Hne. unfold JsMap.delete.
  induction m as [|[k0 v0] m IH]; cbn; [done|].
  destruct (String.eqb_spec k0 k) as [->|Hne0]; cbn.
  - by destruct (String.eqb_spec k k').
  - by rewrite IH.
Qed.
End Lemmas.
End JsMapProps.

Module CacheProps.
Import CacheManager.

Definition memCfg : CacheConfig :=
  {| enabled := true; storage := memory; ttl := 100; maxSize := 2;
     shouldCache := None |}.

Definition r200 (body : string) : AxiosResponse :=
  mkResponse 200 body ∅.

(** A [JSON.parse] for the examples on the memory backend, which never
    calls it. *)
Definition noParse (item : string) : option CacheEntry := None.
Definition noStringify (entry : CacheEntry) : string := "{}".

Example fresh_entry_is_served :
  fst (get noParse 1099 "a"
         (set noStringify 1000 "a" (r200 "A") (new memCfg None)))
  = Resolved (Some (r200 "A")).
Proof. reflexivity. Qed.

Example stale_entry_is_dropped :
  get noParse 1101 "a" (set noStringify 1000 "a" (r200 "A") (new memCfg None))
  = (Resolved None, new memCfg None).
Proof. reflexivity. Qed.

Example error_response_is_not_cached :
  set noStringify 1000 "a" (mkResponse 500 "" ∅) (new memCfg None)
  = new memCfg None.
Proof. reflexivity. Qed.

Example oldest_is_evicted :
  JsMap.keys
    (memoryCache
       (set noStringify 1002 "c" (r200 "C")
          (set noStringify 1001 "b" (r200 "B")
             (set noStringify 1000 "a" (r200 "A") (new memCfg None)))))
  = ["b"; "c"].
Proof. reflexivity. Qed.

(** C4, as stated, fails at the boundary: an entry stored at 1000 with
    [ttl = 100] is still served at 1100. *)
Lemma C4_boundary_counterexample :
  fst (get noParse (1000 + 100) "a"
         (set noStringify 1000 "a" (r200 "A") (new memCfg None)))
  = Resolved (Some (r200 "A")).
Proof. reflexivity. Qed.

Lemma isExpired_spec now entry :
  isExpired now entry = true <-> timestamp entry + entryTtl entry < now.
Proof. unfold isExpired. rewrite Z.ltb_lt. lia. Qed.

Lemma get_of_entry JSON_parse (c : t) (k : string) (entry : CacheEntry)
    (now : Z) :
  enabled (config c) = true ->
  getEntry JSON_parse k c = Resolved (Some entry) ->
  get JSON_parse now k c
  = if isExpired now entry then (Resolved None, delete k c)
    else (Resolved (Some (data entry)), c).
Proof. intros Hen He. unfold get. by rewrite Hen, He. Qed.

Lemma getEntry_delete JSON_parse (c : t) (k : string) :
  getEntry JSON_parse k (delete k c) = Resolved None.
Proof.
  unfold getEntry, delete.
  destruct (storage (config c)) eqn:Hs; cbn; rewrite ?Hs.
  - by rewrite JsMapProps.get_delete_eq.
  - destruct (window c) as [w|] eqn:Hw; cbn; rewrite ?Hs, ?Hw; [|done].
    cbn. by rewrite lookup_delete_eq.
  - destruct (window c) as [w|] eqn:Hw; cbn; rewrite ?Hs, ?Hw; [|done].
    cbn. by rewrite lookup_delete_eq.
Qed.

(** On the memory backend, [set] stores the entry it builds unless the
    size bound makes it evict. *)
Lemma getEntry_set_memory JSON_stringify JSON_parse (c : t) (k : string)
    (response : AxiosResponse) (now : Z) :
  enabled (config c) = true ->
  storage (config c) = memory ->
  shouldCacheResponse (config c) response = true ->
  JsMap.size (JsMap.set k (newEntry now k response (config c)) (memoryCache c))
    <= maxSize (config c) ->
  getEntry JSON_parse k (set JSON_stringify now k response c)
  = Resolved (Some (newEntry now k response (config c))).
Proof.
  intros Hen Hs Hsc Hsize. unfold set. rewrite Hen, Hsc. cbn.
  unfold setEntry. rewrite Hs. unfold enforceMaxSize. cbn.
  destruct (Z.ltb_spec (maxSize (config c))
              (JsMap.size (JsMap.set k (newEntry now k response (config c))
                             (memoryCache c)))); [lia|].
  unfold getEntry. cbn. rewrite Hs. by rewrite JsMapProps.get_set_eq.
Qed.

(** C4, amended. With the cache enabled, for an entry stored under a key
    with timestamp [T] and ttl [D] (on any backend), a [get] at
    [T' <= T + D] returns the stored response and leaves the cache as it
    is, and a [get] at [T' > T + D] returns absent and deletes the entry:
    the entry is still served at exactly [T' = T + D]. On the memory
    backend, a [set] at time [T] of a cacheable response that does not
    push the size above [maxSize] stores such an entry, with
    [D = config.ttl]. *)
Theorem C4_expiry_boundary JSON_stringify JSON_parse (c : t) (k : string)
    (entry : CacheEntry) (now : Z) :
  enabled (config c) = true ->
  getEntry JSON_parse k c = Resolved (Some entry) ->
  (now <= timestamp entry + entryTtl entry ->
   get JSON_parse now k c = (Resolved (Some (data entry)), c)) /\
  (timestamp entry + entryTtl entry < now ->
   get JSON_parse now k c = (Resolved None, delete k c) /\
   getEntry JSON_parse k (delete k c) = Resolved None) /\
  (forall (c0 : t) (T : Z) (response : AxiosResponse),
     enabled (config c0) = true ->
     storage (config c0) = memory ->
     shouldCacheResponse (config c0) response = true ->
     JsMap.size
       (JsMap.set k (newEntry T k response (config c0)) (memoryCache c0))
       <= maxSize (config c0) ->
     let c1 := set JSON_stringify T k response c0 in
     (now <= T + ttl (config c0) ->
      fst (get JSON_parse now k c1) = Resolved (Some response)) /\
     (T + ttl (config c0) < now ->
      fst (get JSON_parse now k c1) = Resolved None)).
Proof.
  intros Hen He. split; [|split].
  - intros Hle. rewrite (get_of_entry _ _ _ _ _ Hen He).
    destruct (isExpired now entry) eqn:Hx; [|done].
    apply isExpired_spec in Hx. lia.
  - intros Hlt. rewrite (get_of_entry _ _ _ _ _ Hen He).
    destruct (isExpired now entry) eqn:Hx.
    + split; [done|]. apply getEntry_delete.
    + apply not_true_iff_false in Hx. rewrite isExpired_spec in Hx. lia.
  - intros c0 T response Hen0 Hs0 Hsc0 Hsize c1.
    pose proof (getEntry_set_memory JSON_stringify JSON_parse c0 k response T
                  Hen0 Hs0 Hsc0 Hsize) as Hget.
    fold c1 in Hget.
    assert (Hen1 : enabled (config c1) = true).
    { subst c1. unfold set. rewrite Hen0, Hsc0. cbn.
      unfold enforceMaxSize, setEntry. rewrite Hs0. cbn.
      by destruct (_ <? _). }
    rewrite (get_of_entry _ _ _ _ now Hen1 Hget).
    split; intros Hcmp.
    + destruct (isExpired now _) eqn:Hx; [|done].
      apply isExpired_spec in Hx. cbn in Hx. lia.
    + destruct (isExpired now _) eqn:Hx; [done|].
      apply not_true_iff_false in Hx. rewrite isExpired_spec in Hx.
      cbn in Hx. lia.
Qed.

Definition cacheWithA : t :=
  set noStringify 1000 "a" (r200 "A") (new memCfg None).

Lemma C4_expiry_boundary_witness :
  get noParse 1100 "a" cacheWithA = (Resolved (Some (r200 "A")), cacheWithA) /\
  fst (get noParse 1101 "a" cacheWithA) = Resolved None.
Proof.
  destruct (C4_expiry_boundary noStringify noParse cacheWithA "a"
              (newEntry 1000 "a" (r200 "A") memCfg) 1100)
    as (Hfresh & _ & _); [reflexivity | reflexivity |].
  destruct (C4_expiry_boundary noStringify noParse cacheWithA "a"
              (newEntry 1000 "a" (r200 "A") memCfg) 1101)
    as (_ & Hstale & _); [reflexivity | reflexivity |].
  split.
  - apply Hfresh. cbn. lia.
  - destruct Hstale as [-> _]; [cbn; lia | reflexivity].
Defined.

(** *** The size bound and the storage backends *)

Definition lsCfg : CacheConfig :=
  {| enabled := true; storage := localStorage; ttl := 100; maxSize := 1;
     shouldCache := None |}.

Definition idbCfg : CacheConfig :=
  {| enabled := true; storage := indexedDB; ttl := 100; maxSize := 1;
     shouldCache := None |}.

Definition mem1Cfg : CacheConfig :=
  {| enabled := true; storage := memory; ttl := 100; maxSize := 1;
     shouldCache := None |}.

Definition emptyBrowser : option Window :=
  Some {| localStorageItems := ∅; objectStore := ∅ |}.

(** Two cacheable responses stored one after the other. *)
Definition twoSets JSON_stringify (cfg : CacheConfig) : t :=
  set JSON_stringify 1001 "b" (r200 "B")
    (set JSON_stringify 1000 "a" (r200 "A") (new cfg emptyBrowser)).

(** What does not depend on the backend: a response that is not
    cacheable is never stored, and neither is anything while the cache is
    disabled. *)
Lemma set_not_cacheable JSON_stringify (c : t) now k response :
  enabled (config c) = false \/
  shouldCacheResponse (config c) response = false ->
  set JSON_stringify now k response c = c.
Proof.
  intros [H|H]; unfold set; rewrite H; [done|].
  cbn [negb]. by rewrite orb_true_r.
Qed.

(** On the persistent backends [set] is [setEntry]: [enforceMaxSize]
    looks at the in-memory map, which those backends never fill. *)
Lemma set_persistent_never_evicts JSON_stringify (c : t) now k response :
  storage (config c) <> memory ->
  memoryCache c = [] ->
  0 <= maxSize (config c) ->
  enabled (config c) = true ->
  shouldCacheResponse (config c) response = true ->
  set JSON_stringify now k response c
  = setEntry JSON_stringify k (newEntry now k response (config c)) c.
Proof.
  intros Hs Hm Hmax Hen Hsc. unfold set. rewrite Hen, Hsc. cbn.
  unfold enforceMaxSize.
  assert (Hm' : memoryCache
                  (setEntry JSON_stringify k
                     (newEntry now k response (config c)) c) = []).
  { unfold setEntry. destruct (storage (config c)); [done|..];
      by destruct (window c). }
  assert (Hc' : config
                  (setEntry JSON_stringify k
                     (newEntry now k response (config c)) c) = config c).
  { unfold setEntry. destruct (storage (config c)); [done|..];
      by destruct (window c). }
  rewrite Hm', Hc'. change (JsMap.size []) with 0.
  destruct (Z.ltb_spec (maxSize (config c)) 0); [lia|done].
Qed.

Lemma twoSets_localStorage JSON_stringify :
  twoSets JSON_stringify lsCfg
  = {| memoryCache := []; config := lsCfg;
       window :=
         Some {| localStorageItems :=
                   <["cache_b" := JSON_stringify (newEntry 1001 "b" (r200 "B") lsCfg)]>
                     (<["cache_a" := JSON_stringify (newEntry 1000 "a" (r200 "A") lsCfg)]> ∅);
                 objectStore := ∅ |} |}.
Proof. reflexivity. Qed.

Lemma twoSets_indexedDB JSON_stringify :
  twoSets JSON_stringify idbCfg
  = {| memoryCache := []; config := idbCfg;
       window :=
         Some {| localStorageItems := ∅;
                 objectStore :=
                   <["b" := newEntry 1001 "b" (r200 "B") idbCfg]>
                     (<["a" := newEntry 1000 "a" (r200 "A") idbCfg]> ∅) |} |}.
Proof. reflexivity. Qed.

Lemma twoSets_memory JSON_stringify :
  twoSets JSON_stringify mem1Cfg
  = {| memoryCache := [("b", newEntry 1001 "b" (r200 "B") mem1Cfg)];
       config := mem1Cfg; window := emptyBrowser |}.
Proof. reflexivity. Qed.

(** With a [JSON.parse] that inverts [JSON.stringify], both entries
    written to localStorage are read back while they are fresh. *)
Lemma twoSets_localStorage_readable JSON_stringify JSON_parse k now :
  (forall entry, JSON_parse (JSON_stringify entry) = Some entry) ->
  (forall entry, JSON_stringify entry <> "") ->
  k = "a" \/ k = "b" -> now <= 1100 ->
  fst (get JSON_parse now k (twoSets JSON_stringify lsCfg))
  = Resolved (Some (r200 (if String.eqb k "a" then "A" else "B"))).
Proof.
  intros Hround Hne Hk Hnow.
  assert (Hfresh : forall T b, (T = 1000 \/ T = 1001) ->
            isExpired now (newEntry T k (r200 b) lsCfg) = false).
  { intros T b HT. apply not_true_iff_false. rewrite isExpired_spec.
    cbn. lia. }
  rewrite twoSets_localStorage.
  destruct Hk as [-> | ->]; cbn [String.eqb Ascii.eqb Bool.eqb].
  - unfold get, getEntry. cbn.
    rewrite lookup_insert_ne by done. rewrite lookup_insert_eq. cbn.
    destruct (String.eqb_spec
                (JSON_stringify (newEntry 1000 "a" (r200 "A") lsCfg)) "")
      as [He|_]; [by apply Hne in He|].
    cbn. rewrite Hround. by rewrite (Hfresh 1000 "A") by (by left).
  - unfold get, getEntry. cbn. rewrite lookup_insert_eq. cbn.
    destruct (String.eqb_spec
                (JSON_stringify (newEntry 1001 "b" (r200 "B") lsCfg)) "")
      as [He|_]; [by apply Hne in He|].
    cbn. rewrite Hround. by rewrite (Hfresh 1001 "B") by (by right).
Qed.

(** C9: evaluation at the failing input. With [maxSize = 1], two writes
    under different keys leave one entry on the memory backend (the older
    one is evicted and no longer served) and two on the localStorage and
    IndexedDB backends, where the older one is still stored and, on
    IndexedDB, served. *)
Theorem C9_size_bound_only_on_memory_backend JSON_stringify JSON_parse :
  getKeys (twoSets JSON_stringify mem1Cfg) = ["b"] /\
  getKeys (twoSets JSON_stringify lsCfg) = ["a"; "b"] /\
  getKeys (twoSets JSON_stringify idbCfg) = ["a"; "b"] /\
  fst (get JSON_parse 1002 "a" (twoSets JSON_stringify mem1Cfg))
  = Resolved None /\
  fst (get JSON_parse 1002 "a" (twoSets JSON_stringify idbCfg))
  = Resolved (Some (r200 "A")) /\
  (w ← window (twoSets JSON_stringify lsCfg);
   localStorageItems w !! "cache_a")
  = Some (JSON_stringify (newEntry 1000 "a" (r200 "A") lsCfg)).
Proof.
  split; [reflexivity|]. split; [vm_compute; reflexivity|].
  split; [vm_compute; reflexivity|]. split; [reflexivity|].
  split; [reflexivity|]. rewrite twoSets_localStorage. cbn.
  rewrite lookup_insert_ne by done. by rewrite lookup_insert_eq.
Qed.

End CacheProps.

(** ** What an asynchronous step leaves alone *)

Module Frame.
Import Runtime.

Section Keeps.
Context {A B : Type}.
Variable f : World A -> B.

(** [m] does not change the part [f] of the world. *)
Definition keeps {X} (m : Async.M (S := World A) X) : Prop :=
  forall w, f (snd (m w)) = f w.

Lemma keeps_ret {X} (x : X) : keeps (Async.ret x).
Proof. by intros w. Qed.

Lemma keeps_throw {X} e : keeps (Async.throw (X := X) e).
Proof. by intros w. Qed.

Lemma keeps_settled {X} (o : Outcome Thrown X) : keeps (Async.settled o).
Proof. by intros w. Qed.

Lemma keeps_bind {X Y} (m : Async.M X) (k : X -> Async.M Y) :
  keeps m -> (forall x, keeps (k x)) -> keeps (Async.bind m k).
Proof.
  intros Hm Hk w. unfold Async.bind. specialize (Hm w).
  destruct (m w) as [[x|e] w1]; cbn in *; [|done].
  by rewrite Hk.
Qed.

Lemma keeps_try_catch {X} (m : Async.M X) (h : Thrown -> Async.M X) :
  keeps m -> (forall e, keeps (h e)) -> keeps (Async.try_catch m h).
Proof.
  intros Hm Hh w. unfold Async.try_catch. specialize (Hm w).
  destruct (m w) as [[x|e] w1]; cbn in *; [done|].
  by rewrite Hh.
Qed.

(** [f] reads only the two records of what was done. *)
Hypothesis f_reads_logs : forall w1 w2 : World A,
  fetchCalls w1 = fetchCalls w2 -> sent w1 = sent w2 -> f w1 = f w2.

Lemma keeps_lift {X} (cb : Callback X) : keeps (lift cb).
Proof.
  intros w. unfold lift. destruct (cb (app w)) as [r a]. cbn.
  by apply f_reads_logs.
Qed.

Lemma keeps_call cb : keeps (call cb).
Proof. destruct cb; [apply keeps_lift | apply keeps_ret]. Qed.

Lemma keeps_warn : keeps warn.
Proof. intros w. by apply f_reads_logs. Qed.

Lemma keeps_getItem k : keeps (getItem k).
Proof. by intros w. Qed.

Lemma keeps_setItem k v : keeps (setItem k v).
Proof. intros w. by apply f_reads_logs. Qed.

Lemma keeps_removeItem k : keeps (removeItem k).
Proof. intros w. by apply f_reads_logs. Qed.
End Keeps.

Lemma sent_reads_logs {A} (w1 w2 : World A) :
  fetchCalls w1 = fetchCalls w2 -> sent w1 = sent w2 -> sent w1 = sent w2.
Proof. done. Qed.

Lemma fetchCalls_reads_logs {A} (w1 w2 : World A) :
  fetchCalls w1 = fetchCalls w2 -> sent w1 = sent w2 ->
  fetchCalls w1 = fetchCalls w2.
Proof. done. Qed.

End Frame.

Module AuthProps.
Import Runtime Frame.

Section Generic.
Context {A : Type}.
Variable fetch : string -> string -> Callback (A := A) AuthConfig.FetchResponse.
Implicit Types (cfg : AuthConfig.t A) (w : World A).

Lemma getToken_keeps {B} (f : World A -> B) cfg :
  (forall w1 w2 : World A,
     fetchCalls w1 = fetchCalls w2 -> sent w1 = sent w2 -> f w1 = f w2) ->
  keeps f (AuthHandler.getToken cfg).
Proof.
  intros Hf. unfold AuthHandler.getToken.
  destruct (AuthConfig.getToken cfg); [by apply keeps_lift|].
  apply keeps_getItem.
Qed.

Lemma setToken_keeps {B} (f : World A -> B) cfg tok :
  (forall w1 w2 : World A,
     fetchCalls w1 = fetchCalls w2 -> sent w1 = sent w2 -> f w1 = f w2) ->
  keeps f (AuthHandler.setToken cfg tok).
Proof.
  intros Hf. unfold AuthHandler.setToken.
  destruct (AuthConfig.setToken cfg); [by apply keeps_lift|].
  by apply keeps_setItem.
Qed.

Lemma handleTokenExpiration_keeps {B} (f : World A -> B) cfg :
  (forall w1 w2 : World A,
     fetchCalls w1 = fetchCalls w2 -> sent w1 = sent w2 -> f w1 = f w2) ->
  keeps f (AuthHandler.handleTokenExpiration cfg).
Proof.
  intros Hf. unfold AuthHandler.handleTokenExpiration.
  destruct (AuthConfig.onTokenExpired cfg); [by apply keeps_lift|].
  unfold AuthHandler.removeToken.
  destruct (AuthConfig.removeToken cfg); [by apply keeps_lift|].
  by apply keeps_removeItem.
Qed.

(** The refresh never touches the transport. *)
Lemma performTokenRefresh_keeps_sent cfg :
  keeps sent (AuthHandler.performTokenRefresh fetch cfg).
Proof.
  unfold AuthHandler.performTokenRefresh.
  destruct (AuthConfig.refreshToken cfg) as [rc|]; [|apply keeps_ret].
  apply keeps_try_catch.
  - apply keeps_bind.
    { unfold AuthHandler.getRefreshToken.
      destruct (AuthConfig.refreshToken cfg) as [rc'|];
        [|apply keeps_getItem].
      destruct (AuthConfig.getRefreshToken rc');
        [by apply keeps_lift | apply keeps_getItem]. }
    intros rt. destruct (negb _); [apply keeps_throw|].
    apply keeps_bind.
    { intros w. unfold AuthHandler.doFetch.
      by destruct (fetch _ _ (app w)). }
    intros resp. destruct (negb _); [apply keeps_throw|].
    apply keeps_bind; [|intros _; apply keeps_ret].
    destruct (AuthConfig.onRefreshSuccess rc);
      [by apply keeps_lift | apply keeps_ret].
  - intros e. apply keeps_bind; [by apply keeps_call|].
    intros _. apply keeps_throw.
Qed.

(** *** Attaching the credentials *)

Definition withAuthorization cfg (config : AxiosRequestConfig)
    (token : string) : AxiosRequestConfig :=
  mkConfig (method config) (url config) (params config) (reqData config)
    (<["Authorization" := AuthConfig.tokenPrefix cfg +:+ " " +:+ token]>
       (reqHeaders config))
    (signal config).

(** C10. [AuthHandler.addAuthHeader] always resolves, and sends
    nothing. It resolves with the request config unchanged when auth is
    disabled (the token is then not even looked up), when the token
    lookup throws, and when the lookup yields no token ([null] or the
    empty string); only a non-empty token adds the [Authorization]
    header. [TokenManager.addAuthHeader], a synchronous function,
    returns the config unchanged when no valid token is found. *)
Theorem C10_addAuthHeader_never_blocks cfg (config : AxiosRequestConfig) w :
  exists config' w',
    AuthHandler.addAuthHeader cfg config w = (Resolved config', w') /\
    sent w' = sent w /\
    (AuthConfig.enabled cfg = false -> config' = config /\ w' = w) /\
    (forall e w1,
       AuthHandler.getToken cfg w = (Rejected e, w1) -> config' = config) /\
    (forall tok w1,
       AuthHandler.getToken cfg w = (Resolved tok, w1) ->
       truthy_string tok = false -> config' = config) /\
    (forall tok w1,
       AuthConfig.enabled cfg = true ->
       AuthHandler.getToken cfg w = (Resolved (Some tok), w1) ->
       tok <> "" -> config' = withAuthorization cfg config tok) /\
    (forall now tm,
       fst (TokenManager.getValidToken now tm) = None ->
       fst (TokenManager.addAuthHeader now config tm) = config).
Proof.
  assert (Htm : forall now tm,
            fst (TokenManager.getValidToken now tm) = None ->
            fst (TokenManager.addAuthHeader now config tm) = config).
  { intros now tm Hnone. unfold TokenManager.addAuthHeader.
    destruct (TokenManager.getValidToken now tm) as [[tok|] tm']; by cbn in *. }
  unfold AuthHandler.addAuthHeader.
  destruct (AuthConfig.enabled cfg) eqn:Hen; cbn [negb].
  2: { exists config, w. repeat split; done. }
  unfold Async.try_catch, Async.bind.
  pose proof (getToken_keeps sent cfg sent_reads_logs w) as Hsent.
  destruct (AuthHandler.getToken cfg w) as [[tok|e] w1] eqn:Hget;
    cbn in Hsent.
  - destruct (truthy_string tok) eqn:Htok.
    + eexists _, w1. split; [reflexivity|]. split; [done|].
      split; [done|]. split; [done|]. split; [|split; [|done]].
      * intros tok' w1' Heq Hfalse. congruence.
      * intros tok' w1' _ Heq _. by injection Heq as -> ->.
    + exists config, w1. split; [reflexivity|]. split; [done|].
      split; [done|]. split; [done|]. split; [done|]. split; [|done].
      intros tok' w1' _ Heq Hne. injection Heq as -> ->.
      cbn in Htok. apply negb_false_iff, String.eqb_eq in Htok. done.
  - cbn. exists config. eexists. split; [reflexivity|]. cbn.
    split; [done|]. split; [done|]. split; [done|].
    split; [|split; [|done]]; intros; congruence.
Qed.

(** *** A 401 answered by a successful refresh *)

Variable notificationMessage : AxiosError -> string.
Variable adapter : AxiosRequestConfig -> Callback (A := A) AxiosResponse.

Lemma addAuthHeader_keeps_sent cfg config :
  keeps sent (AuthHandler.addAuthHeader cfg config).
Proof.
  unfold AuthHandler.addAuthHeader.
  destruct (negb _); [apply keeps_ret|].
  apply keeps_try_catch.
  - apply keeps_bind; [apply getToken_keeps, sent_reads_logs|].
    intros tok. destruct (truthy_string tok); apply keeps_ret.
  - intros e. apply keeps_bind; [apply keeps_warn, sent_reads_logs|].
    intros _. apply keeps_ret.
Qed.

Lemma callWith_keeps_sent cb error :
  keeps sent (ErrorHandler.callWith (A := A) cb error).
Proof.
  destruct cb; cbn; [apply keeps_lift, sent_reads_logs | apply keeps_ret].
Qed.

Lemma handleError_keeps_sent errorConfig error :
  keeps sent
    (ErrorHandler.handleError (A := A) notificationMessage errorConfig error).
Proof.
  unfold ErrorHandler.handleError. apply keeps_bind.
  { unfold ErrorHandler.handleSpecificError.
    destruct (response error) as [r|]; [|apply callWith_keeps_sent].
    apply keeps_bind.
    - destruct (500 <=? status r); [apply callWith_keeps_sent|].
      destruct (400 <=? status r);
        [apply callWith_keeps_sent | apply keeps_ret].
    - intros _. destruct (_ || _);
        [apply callWith_keeps_sent | apply keeps_ret]. }
  intros _. apply keeps_bind; [apply callWith_keeps_sent|]. intros _.
  destruct (ErrorHandler.transformError errorConfig);
    [apply keeps_settled|].
  apply keeps_bind; [|intros _; apply keeps_throw].
  destruct (ErrorHandler.showErrorNotifications errorConfig);
    [|apply keeps_ret].
  unfold ErrorHandler.showErrorNotification.
  destruct (ErrorHandler.errorNotificationHandler errorConfig);
    [apply keeps_lift, sent_reads_logs | apply keeps_ret].
Qed.

Lemma dispatchRequest_sent config w :
  sent (snd (AxiosInterceptor.dispatchRequest adapter config w))
  = sent w ++ [config].
Proof.
  unfold AxiosInterceptor.dispatchRequest.
  by destruct (adapter config (app w)).
Qed.

(** A handler that is not refreshing, given a 401 whose refresh yields a
    non-empty token that [setToken] accepts: the refresh runs once, the
    token is stored, the flag is back to [false], and the call returns
    the error it was given. *)
Lemma handleAuthError_refresh_success (s : AuthHandler.State)
    (error : AxiosError) r newToken w3 w4 :
  let cfg := AuthHandler.config (AuthHandler.handler s) in
  AuthConfig.enabled cfg = true ->
  AuthHandler.refreshEnabled cfg = true ->
  AuthHandler.isRefreshing (AuthHandler.handler s) = false ->
  AuthHandler.waiting s = [] ->
  response error = Some r -> status r = 401 ->
  AuthHandler.performTokenRefresh fetch cfg (AuthHandler.world s)
  = (Resolved (Some newToken), w3) ->
  newToken <> "" ->
  AuthHandler.setToken cfg newToken w3 = (Resolved tt, w4) ->
  AuthHandler.handleAuthError fetch error s
  = (Resolved error,
     AuthHandler.mkState
       (AuthHandler.mk cfg false None
          (S (AuthHandler.refreshes (AuthHandler.handler s))))
       w4 []).
Proof.
  intros cfg Hen Hren Hnot Hwait Hresp H401 Hrefresh Hne Hset.
  unfold AuthHandler.handleAuthError, AuthHandler.handleAuthError_begin.
  fold cfg. rewrite Hen, Hresp. cbn [negb].
  rewrite H401. cbn [Z.eqb Pos.eqb].
  unfold AuthHandler.handleUnauthorized_begin. fold cfg.
  rewrite Hren, Hnot. cbn [negb andb].
  unfold AuthHandler.refreshToken_begin. rewrite Hnot, Hwait.
  cbn [andb app].
  unfold AuthHandler.refreshSettles.
  cbn [AuthHandler.handler AuthHandler.refreshPromise AuthHandler.world
       AuthHandler.config AuthHandler.waiting].
  fold cfg. rewrite Hrefresh.
  rewrite app_nil_l.
  cbn [AuthHandler.resume AuthHandler.owns
       AuthHandler.refreshToken_finally AuthHandler.config AuthHandler.task
       AuthHandler.authError AuthHandler.refreshes].
  unfold AuthHandler.handleUnauthorized_resume, Async.bind, Async.try_catch,
    Async.settled, Async.ret.
  assert (Htruthy : truthy_string (Some newToken) = true).
  { cbn. apply negb_true_iff. by apply String.eqb_neq. }
  rewrite Htruthy. cbn [default]. fold cfg.
  change (id newToken) with newToken. rewrite Hset. done.
Qed.

(** The same through the interceptors: the request fails with the
    401 it received, unless [handleError] turns it into something
    else. *)
Lemma request_401_refresh_success errorConfig (config : AxiosRequestConfig)
    (s : AuthHandler.State) config1 w1 w2 error r newToken w3 w4 o w5 :
  let cfg := AuthHandler.config (AuthHandler.handler s) in
  AuthConfig.enabled cfg = true ->
  AuthHandler.refreshEnabled cfg = true ->
  AuthHandler.isRefreshing (AuthHandler.handler s) = false ->
  AuthHandler.waiting s = [] ->
  AuthHandler.addAuthHeader cfg config (AuthHandler.world s)
  = (Resolved config1, w1) ->
  AxiosInterceptor.dispatchRequest adapter config1 w1
  = (Rejected (AxiosFailure error), w2) ->
  response error = Some r -> status r = 401 ->
  AuthHandler.performTokenRefresh fetch cfg w2
  = (Resolved (Some newToken), w3) ->
  newToken <> "" ->
  AuthHandler.setToken cfg newToken w3 = (Resolved tt, w4) ->
  ErrorHandler.handleError notificationMessage errorConfig error w4
  = (o, w5) ->
  AxiosInterceptor.request fetch notificationMessage adapter errorConfig
    config s
  = (o,
     AuthHandler.mkState
       (AuthHandler.mk cfg false None
          (S (AuthHandler.refreshes (AuthHandler.handler s))))
       w5 []) /\
  sent w5 = sent (AuthHandler.world s) ++ [config1].
Proof.
  intros cfg Hen Hren Hnot Hwait Hadd Hdisp Hresp H401 Href Hne Hset Hhe.
  split.
  - unfold AxiosInterceptor.request. fold cfg. rewrite Hadd, Hdisp.
    cbn [asAxiosError].
    rewrite (handleAuthError_refresh_success
               (AxiosInterceptor.withWorld s w2) error r newToken w3 w4);
      try done.
    cbn [AuthHandler.world]. by rewrite Hhe.
  - pose proof (handleError_keeps_sent errorConfig error w4) as H5.
    rewrite Hhe in H5. cbn in H5.
    pose proof (setToken_keeps sent cfg newToken sent_reads_logs w3) as H4.
    rewrite Hset in H4. cbn in H4.
    pose proof (performTokenRefresh_keeps_sent cfg w2) as H3.
    rewrite Href in H3. cbn in H3.
    pose proof (dispatchRequest_sent config1 w1) as H2.
    rewrite Hdisp in H2. cbn in H2.
    pose proof (addAuthHeader_keeps_sent cfg config (AuthHandler.world s))
      as H1.
    rewrite Hadd in H1. cbn in H1. congruence.
Qed.

(** *** The error handler on an error it only reports *)

(** A callback of the application that does not throw. *)
Definition resolves (cb : Callback (A := A) unit) : Prop :=
  forall a, fst (cb a) = Resolved tt.

(** None of the configured error callbacks throws when it is called
    with [error]. *)
Definition callbacksResolve (errorConfig : ErrorHandler.ErrorConfig A)
    (error : AxiosError) : Prop :=
  (forall cb, ErrorHandler.onError errorConfig = Some cb ->
              resolves (cb error)) /\
  (forall cb, ErrorHandler.onNetworkError errorConfig = Some cb ->
              resolves (cb error)) /\
  (forall cb, ErrorHandler.onTimeoutError errorConfig = Some cb ->
              resolves (cb error)) /\
  (forall cb, ErrorHandler.onServerError errorConfig = Some cb ->
              resolves (cb error)) /\
  (forall cb, ErrorHandler.onClientError errorConfig = Some cb ->
              resolves (cb error)) /\
  (forall cb, ErrorHandler.errorNotificationHandler errorConfig = Some cb ->
              resolves (cb (notificationMessage error) error)).

(** The world after callbacks have run: only the state of the
    application may differ. *)
Definition sameButApp (w w' : World A) : Prop :=
  localStorage w' = localStorage w /\ fetchCalls w' = fetchCalls w /\
  sent w' = sent w /\ warnings w' = warnings w.

Lemma sameButApp_refl w : sameButApp w w.
Proof. done. Qed.

Lemma sameButApp_trans w1 w2 w3 :
  sameButApp w1 w2 -> sameButApp w2 w3 -> sameButApp w1 w3.
Proof. unfold sameButApp. intros (?&?&?&?) (?&?&?&?). repeat split; congruence. Qed.

Lemma lift_resolves (cb : Callback (A := A) unit) w :
  resolves cb ->
  exists w', lift cb w = (Resolved tt, w') /\ sameButApp w w'.
Proof.
  intros Hcb. unfold lift. specialize (Hcb (app w)).
  destruct (cb (app w)) as [r a]. cbn in Hcb. subst r.
  eexists. split; [reflexivity|]. done.
Qed.

Lemma callWith_resolves cb error w :
  (forall f, cb = Some f -> resolves (f error)) ->
  exists w', ErrorHandler.callWith (A := A) cb error w = (Resolved tt, w') /\
             sameButApp w w'.
Proof.
  intros Hcb. destruct cb as [f|]; cbn.
  - by apply lift_resolves, Hcb.
  - exists w. done.
Qed.

(** Without [transformError], and with callbacks that do not throw,
    [handleError] rejects with the error it was given. *)
Lemma handleError_rethrows errorConfig error w :
  ErrorHandler.transformError errorConfig = None ->
  callbacksResolve errorConfig error ->
  exists w',
    ErrorHandler.handleError notificationMessage errorConfig error w
    = (Rejected (AxiosFailure error), w') /\
    sameButApp w w'.
Proof.
  intros Hnone (Hon & Hnet & Htime & Hsrv & Hcli & Hnote).
  assert (Hspec : exists w1,
            ErrorHandler.handleSpecificError errorConfig error w
            = (Resolved tt, w1) /\ sameButApp w w1).
  { unfold ErrorHandler.handleSpecificError.
    destruct (response error) as [r|]; [|by apply callWith_resolves].
    unfold Async.bind.
    assert (Hcls : exists w0,
              (if 500 <=? status r
               then ErrorHandler.callWith
                      (ErrorHandler.onServerError errorConfig) error
               else if 400 <=? status r
                    then ErrorHandler.callWith
                           (ErrorHandler.onClientError errorConfig) error
                    else Async.ret tt) w
              = (Resolved tt, w0) /\ sameButApp w w0).
    { destruct (500 <=? status r); [by apply callWith_resolves|].
      destruct (400 <=? status r); [by apply callWith_resolves|].
      by exists w. }
    destruct Hcls as (w0 & -> & Hw0).
    destruct (_ || _).
    - destruct (callWith_resolves (ErrorHandler.onTimeoutError errorConfig)
                  error w0 Htime) as (w1 & -> & Hw1).
      exists w1. split; [done|]. by eapply sameButApp_trans.
    - by exists w0. }
  destruct Hspec as (w1 & Hs & Hw1).
  destruct (callWith_resolves (ErrorHandler.onError errorConfig) error w1 Hon)
    as (w2 & Hc & Hw2).
  assert (Hshow : exists w3,
            (if ErrorHandler.showErrorNotifications errorConfig
             then ErrorHandler.showErrorNotification notificationMessage
                    errorConfig error
             else Async.ret tt) w2
            = (Resolved tt, w3) /\ sameButApp w2 w3).
  { destruct (ErrorHandler.showErrorNotifications errorConfig);
      [|by exists w2].
    unfold ErrorHandler.showErrorNotification.
    destruct (ErrorHandler.errorNotificationHandler errorConfig) as [h|]
      eqn:Hh; [|by exists w2].
    by apply lift_resolves, Hnote. }
  destruct Hshow as (w3 & Hn & Hw3).
  exists w3. split.
  - unfold ErrorHandler.handleError, Async.bind. rewrite Hs, Hc, Hnone.
    by rewrite Hn.
  - eapply sameButApp_trans; [|exact Hw3].
    by eapply sameButApp_trans.
Qed.

(** C1, amended. A request that receives a 401 while auth and refresh
    are enabled and no refresh is pending, whose refresh yields a
    non-empty token that [setToken] accepts: the refresh runs once and
    the new token is stored, but the request is not replayed. With the
    default retry condition the transport is invoked exactly once, and
    the caller receives the 401 error itself, rethrown by the error
    handler (no [transformError] is configured and no error callback
    throws), with the world the refresh left, the state of the application
    apart. The error may carry any code but the two timeout codes, which
    the default retry condition retries whatever the response is. *)
Theorem C1_refresh_stores_token_without_replay
    (retryConfig : RetryHandler.RetryConfig) (random : Z -> Q)
    errorConfig (config : AxiosRequestConfig) (s : AuthHandler.State)
    config1 w1 w2 error r newToken w3 w4 :
  let cfg := AuthHandler.config (AuthHandler.handler s) in
  AuthConfig.enabled cfg = true ->
  AuthHandler.refreshEnabled cfg = true ->
  AuthHandler.isRefreshing (AuthHandler.handler s) = false ->
  AuthHandler.waiting s = [] ->
  AuthHandler.addAuthHeader cfg config (AuthHandler.world s)
  = (Resolved config1, w1) ->
  AxiosInterceptor.dispatchRequest adapter config1 w1
  = (Rejected (AxiosFailure error), w2) ->
  response error = Some r -> status r = 401 ->
  RetryHandler.code_is error "ECONNABORTED" = false ->
  RetryHandler.code_is error "ETIMEDOUT" = false ->
  AuthHandler.performTokenRefresh fetch cfg w2
  = (Resolved (Some newToken), w3) ->
  newToken <> "" ->
  AuthHandler.setToken cfg newToken w3 = (Resolved tt, w4) ->
  ErrorHandler.transformError errorConfig = None ->
  callbacksResolve errorConfig error ->
  RetryHandler.retryCondition retryConfig = None ->
  (RetryHandler.enabled retryConfig = false
   \/ 0 <= RetryHandler.maxRetries retryConfig) ->
  exists w5,
    AxiosInterceptor.executeRequest fetch notificationMessage adapter
      retryConfig random errorConfig config s
    = (Rejected (Some (AxiosFailure error)),
       AuthHandler.mkState
         (AuthHandler.mk cfg false None
            (S (AuthHandler.refreshes (AuthHandler.handler s))))
         w5 []) /\
    sent w5 = sent (AuthHandler.world s) ++ [config1] /\
    localStorage w5 = localStorage w4 /\
    fetchCalls w5 = fetchCalls w4 /\
    warnings w5 = warnings w4.
Proof.
  intros cfg Hen Hren Hnot Hwait Hadd Hdisp Hresp H401 Hc1 Hc2 Href Hne Hset
    Htr Hquiet Hrc Hretry.
  destruct (handleError_rethrows errorConfig error w4 Htr Hquiet)
    as (w5 & Hhe & Hls & Hfc & _ & Hwarn).
  exists w5.
  destruct (request_401_refresh_success errorConfig config s config1 w1 w2
              error r newToken w3 w4 _ w5
              Hen Hren Hnot Hwait Hadd Hdisp Hresp H401 Href Hne Hset Hhe)
    as [Hreq Hsent].
  split; [|done].
  assert (Hno : RetryHandler.shouldRetry retryConfig error = false).
  { unfold RetryHandler.shouldRetry.
    rewrite Hrc, Hc1, Hc2, Hresp, H401. done. }
  unfold AxiosInterceptor.executeRequest, RetryHandler.executeWithRetry.
  destruct (RetryHandler.enabled retryConfig) eqn:Hre; cbn [negb].
  - destruct Hretry as [?|Hmax]; [done|].
    replace (Z.to_nat (RetryHandler.maxRetries retryConfig + 1))
      with (S (Z.to_nat (RetryHandler.maxRetries retryConfig))) by lia.
    cbn [RetryHandler.loop]. fold cfg in Hreq. rewrite Hreq.
    cbn [asAxiosError]. rewrite Hno. cbn [negb]. by rewrite orb_true_r.
  - fold cfg in Hreq. by rewrite Hreq.
Qed.

End Generic.
(** *** A browser session whose access token has expired *)

(** Tokens in [localStorage], no callbacks, refresh enabled. *)
Definition browserAuth : AuthConfig.t unit :=
  {| AuthConfig.enabled := true;
     AuthConfig.tokenKey := "token";
     AuthConfig.tokenPrefix := "Bearer";
     AuthConfig.getToken := None;
     AuthConfig.setToken := None;
     AuthConfig.removeToken := None;
     AuthConfig.onTokenExpired := None;
     AuthConfig.onUnauthorized := None;
     AuthConfig.refreshToken :=
       Some {| AuthConfig.refreshEnabled := true;
               AuthConfig.getRefreshToken := None;
               AuthConfig.refreshEndpoint := None;
               AuthConfig.onRefreshSuccess := None;
               AuthConfig.onRefreshFailed := None |} |}.

Definition session : AuthHandler.State :=
  AuthHandler.mkState (AuthHandler.new browserAuth)
    (mkWorld (Some (<["token" := "old"]> (<["token_refresh" := "r1"]> ∅)))
       tt [] [] 0%nat)
    [].

(** The refresh endpoint hands out the token ["new"]. *)
Definition fetchNew (endpoint refreshToken : string)
  : Callback (A := unit) AuthConfig.FetchResponse :=
  fun a => (Resolved (AuthConfig.mkFetch true (Some "new") None), a).

(** The refresh endpoint is down. *)
Definition fetchDown (endpoint refreshToken : string)
  : Callback (A := unit) AuthConfig.FetchResponse :=
  fun a => (Rejected (JsError "Failed to fetch"), a).

Definition e401 : AxiosError :=
  {| code := None;
     response := Some (mkResponse 401 "" ∅);
     message := "Request failed with status code 401" |}.

(** The server accepts the token ["new"] only. *)
Definition server (config : AxiosRequestConfig)
  : Callback (A := unit) AxiosResponse :=
  fun a =>
    (if bool_decide (reqHeaders config !! "Authorization" = Some "Bearer new")
     then Resolved (mkResponse 200 "payload" ∅)
     else Rejected (AxiosFailure e401), a).

Definition noErrorHooks : ErrorHandler.ErrorConfig unit :=
  ErrorHandler.mkCfg unit None None None None None None false None.

Definition getUsers : AxiosRequestConfig :=
  mkConfig (Some "GET") (Some "/users") None None ∅ None.

Definition retry3 : RetryHandler.RetryConfig :=
  RetryHandler.mkCfg true 3 1000 None None.

Definition theCall : Outcome (option Thrown) string * AuthHandler.State :=
  AxiosInterceptor.executeRequest fetchNew message server retry3
    (fun _ => 0%Q) noErrorHooks getUsers session.

(** C1, as stated, fails: the server would accept the refreshed token,
    the refresh succeeds and the new token is stored, yet the caller
    receives the 401 and the transport was invoked once, with the old
    token: there is no replay. *)
Lemma C1_no_replay_counterexample :
  fst theCall = Rejected (Some (AxiosFailure e401)) /\
  map (fun c => reqHeaders c !! "Authorization")
    (sent (AuthHandler.world (snd theCall)))
  = [Some "Bearer old"] /\
  fetchCalls (AuthHandler.world (snd theCall)) = [("/auth/refresh", "r1")] /\
  (items ← localStorage (AuthHandler.world (snd theCall)); items !! "token")
  = Some "new".
Proof. vm_compute. repeat split. Qed.

(** The 401 as axios 1.x builds it, with the code [ERR_BAD_REQUEST]. *)
Definition e401bad : AxiosError :=
  {| code := Some "ERR_BAD_REQUEST";
     response := Some (mkResponse 401 "" ∅);
     message := "Request failed with status code 401" |}.

Definition serverBad (config : AxiosRequestConfig)
  : Callback (A := unit) AxiosResponse :=
  fun a =>
    (if bool_decide (reqHeaders config !! "Authorization" = Some "Bearer new")
     then Resolved (mkResponse 200 "payload" ∅)
     else Rejected (AxiosFailure e401bad), a).

Definition theCallBad : Outcome (option Thrown) string * AuthHandler.State :=
  AxiosInterceptor.executeRequest fetchNew message serverBad retry3
    (fun _ => 0%Q) noErrorHooks getUsers session.

Lemma C1_refresh_stores_token_without_replay_witness :
  fst theCallBad = Rejected (Some (AxiosFailure e401bad)) /\
  length (sent (AuthHandler.world (snd theCallBad))) = 1%nat.
Proof.
  edestruct (C1_refresh_stores_token_without_replay fetchNew message
               serverBad retry3 (fun _ => 0%Q) noErrorHooks getUsers session)
    as (w5 & Hcall & Hsent & _).
  - reflexivity.
  - reflexivity.
  - reflexivity.
  - reflexivity.
  - reflexivity.
  - reflexivity.
  - reflexivity.
  - reflexivity.
  - reflexivity.
  - reflexivity.
  - reflexivity.
  - discriminate.
  - reflexivity.
  - reflexivity.
  - repeat split; intros cb Hcb; discriminate.
  - reflexivity.
  - right. cbn. lia.
  - unfold theCallBad. rewrite Hcall. cbn [fst snd AuthHandler.world].
    rewrite Hsent. split; reflexivity.
Defined.

(** *** Several 401s and one refresh *)

Section Concurrent.
Context {A : Type}.
Variable fetch : string -> string -> Callback (A := A) AuthConfig.FetchResponse.

Definition is401 (error : AxiosError) : Prop :=
  exists r, response error = Some r /\ status r = 401.

(** While a refresh is pending, a further 401 neither starts a refresh
    nor waits for the pending one: [handleAuthError] finishes at once,
    through the token-expiration path, with the handler and the list of
    refresh requests as they were. *)
Lemma unauthorized_while_refreshing (s : AuthHandler.State (A := A)) tk error :
  AuthHandler.isRefreshing (AuthHandler.handler s) = true ->
  AuthConfig.enabled (AuthHandler.config (AuthHandler.handler s)) = true ->
  is401 error ->
  exists r (w : World A),
    AuthHandler.handleTokenExpiration
      (AuthHandler.config (AuthHandler.handler s)) (AuthHandler.world s)
    = (r, w) /\
    AuthHandler.handleAuthError_begin tk error s
    = (Some match r with
            | Resolved _ => Resolved error
            | Rejected e => Rejected e
            end,
       AuthHandler.mkState (AuthHandler.handler s) w (AuthHandler.waiting s)) /\
    fetchCalls w = fetchCalls (AuthHandler.world s).
Proof.
  intros Hr Hen (r0 & Hresp & H401).
  destruct (AuthHandler.handleTokenExpiration
              (AuthHandler.config (AuthHandler.handler s))
              (AuthHandler.world s)) as [r w] eqn:Hexp.
  exists r, w. split; [done|]. split.
  - unfold AuthHandler.handleAuthError_begin,
      AuthHandler.handleUnauthorized_begin.
    rewrite Hen, Hresp, H401, Hr, Hexp. cbn [negb Z.eqb Pos.eqb].
    rewrite andb_false_r. by destruct r.
  - pose proof (handleTokenExpiration_keeps (@fetchCalls A)
                  (AuthHandler.config (AuthHandler.handler s))
                  fetchCalls_reads_logs (AuthHandler.world s)) as Hk.
    by rewrite Hexp in Hk.
Qed.

(** The first 401 on an idle handler starts the refresh and waits. *)
Lemma unauthorized_starts_refresh (s : AuthHandler.State (A := A)) tk error :
  AuthHandler.isRefreshing (AuthHandler.handler s) = false ->
  AuthConfig.enabled (AuthHandler.config (AuthHandler.handler s)) = true ->
  AuthHandler.refreshEnabled (AuthHandler.config (AuthHandler.handler s))
  = true ->
  is401 error ->
  AuthHandler.handleAuthError_begin tk error s
  = (None,
     AuthHandler.mkState
       (AuthHandler.mk (AuthHandler.config (AuthHandler.handler s)) true
          (Some (AuthHandler.refreshes (AuthHandler.handler s)))
          (S (AuthHandler.refreshes (AuthHandler.handler s))))
       (AuthHandler.world s)
       (AuthHandler.waiting s ++ [AuthHandler.mkWaiter tk true error])).
Proof.
  intros Hr Hen Hren (r0 & Hresp & H401).
  unfold AuthHandler.handleAuthError_begin,
    AuthHandler.handleUnauthorized_begin, AuthHandler.refreshToken_begin.
  rewrite Hen, Hresp, H401, Hren, Hr. done.
Qed.

(** Any number of 401s arriving while nothing settles: the refresh is
    started exactly once. *)
Lemma refresh_started_once (errors : list (nat * AxiosError)) :
  forall s : AuthHandler.State (A := A),
    AuthConfig.enabled (AuthHandler.config (AuthHandler.handler s)) = true ->
    AuthHandler.refreshEnabled (AuthHandler.config (AuthHandler.handler s))
    = true ->
    Forall (fun e => is401 (snd e)) errors ->
    errors <> [] ->
    let s' :=
      snd (AuthHandler.run fetch s
             (map (fun e => AuthHandler.Unauthorized (fst e) (snd e)) errors)) in
    AuthHandler.isRefreshing (AuthHandler.handler s') = true /\
    AuthHandler.refreshes (AuthHandler.handler s')
    = if AuthHandler.isRefreshing (AuthHandler.handler s)
      then AuthHandler.refreshes (AuthHandler.handler s)
      else S (AuthHandler.refreshes (AuthHandler.handler s)).
Proof.
  induction errors as [|[tk error] errors IH]; intros s Hen Hren Hall Hne;
    [done|].
  apply Forall_cons in Hall as [H401 Hall]. cbn [map fst snd AuthHandler.run].
  cbn in H401.
  assert (Hstep : exists rs s1,
            AuthHandler.step fetch s (AuthHandler.Unauthorized tk error)
            = (rs, s1) /\
            AuthHandler.config (AuthHandler.handler s1)
            = AuthHandler.config (AuthHandler.handler s) /\
            AuthHandler.isRefreshing (AuthHandler.handler s1) = true /\
            AuthHandler.refreshes (AuthHandler.handler s1)
            = if AuthHandler.isRefreshing (AuthHandler.handler s)
              then AuthHandler.refreshes (AuthHandler.handler s)
              else S (AuthHandler.refreshes (AuthHandler.handler s))).
  { cbn [AuthHandler.step].
    destruct (AuthHandler.isRefreshing (AuthHandler.handler s)) eqn:Hr.
    - destruct (unauthorized_while_refreshing s tk error Hr Hen H401)
        as (r & w & _ & -> & _).
      eexists _, _. split; [reflexivity|]. done.
    - rewrite (unauthorized_starts_refresh s tk error Hr Hen Hren H401).
      eexists _, _. split; [reflexivity|]. done. }
  destruct Hstep as (rs & s1 & -> & Hcfg & Hr1 & Hn1).
  destruct errors as [|e2 errors].
  { cbn. done. }
  specialize (IH s1). rewrite Hcfg in IH.
  specialize (IH Hen Hren Hall ltac:(done)). cbn zeta in IH.
  destruct (AuthHandler.run fetch s1 _) as [rs2 s2]. cbn [snd] in *.
  rewrite Hr1 in IH. destruct IH as [IH1 IH2]. split; [done|].
  by rewrite IH2.
Qed.

(** When the pending refresh settles, resolved or rejected, the call
    that started it clears the flag. *)
Lemma refreshSettles_clears_flag (s : AuthHandler.State (A := A)) :
  is_Some (AuthHandler.refreshPromise (AuthHandler.handler s)) ->
  Exists (fun x => AuthHandler.owns x = true) (AuthHandler.waiting s) ->
  let s' := snd (AuthHandler.refreshSettles fetch s) in
  AuthHandler.isRefreshing (AuthHandler.handler s') = false /\
  AuthHandler.refreshPromise (AuthHandler.handler s') = None /\
  AuthHandler.waiting s' = [].
Proof.
  intros [p Hp] Hown. unfold AuthHandler.refreshSettles. rewrite Hp.
  destruct (AuthHandler.performTokenRefresh fetch _ _) as [refreshed w1].
  assert (Hres : forall ws (h : AuthHandler.t (A := A)) (w : World A),
            Exists (fun x => AuthHandler.owns x = true) ws \/
            (AuthHandler.isRefreshing h = false /\
             AuthHandler.refreshPromise h = None) ->
            let h' := snd (fst (AuthHandler.resume refreshed ws h w)) in
            AuthHandler.isRefreshing h' = false /\
            AuthHandler.refreshPromise h' = None).
  { induction ws as [|x ws IH]; intros h w Hcase.
    - destruct Hcase as [Hex|Hclear]; [by apply Exists_nil in Hex | done].
    - cbn [AuthHandler.resume].
      destruct (AuthHandler.handleUnauthorized_resume _ refreshed w)
        as [r w'].
      specialize (IH (if AuthHandler.owns x
                      then AuthHandler.refreshToken_finally h else h) w').
      destruct (AuthHandler.resume refreshed ws _ w') as [[rs h2] w2].
      cbn in *. apply IH.
      destruct (AuthHandler.owns x) eqn:Hox; [by right|].
      destruct Hcase as [Hex|Hclear]; [|by right].
      apply Exists_cons in Hex as [Hx|Hex]; [congruence | by left]. }
  specialize (Hres (AuthHandler.waiting s) (AuthHandler.handler s) w1
                (or_introl Hown)).
  destruct (AuthHandler.resume refreshed _ _ w1) as [[rs h2] w2].
  cbn in *. by destruct Hres.
Qed.
End Concurrent.

(** Two 401s in a row, before the refresh settles. *)
Definition twoUnauthorized fetch
  : list (nat * Outcome Thrown AxiosError) * AuthHandler.State :=
  AuthHandler.run fetch session
    [AuthHandler.Unauthorized 1 e401; AuthHandler.Unauthorized 2 e401].

Definition tokenIn (s : AuthHandler.State (A := unit)) : option string :=
  items ← localStorage (AuthHandler.world s); items !! "token".

(** C5: evaluation at the failing input. Two 401s arrive before the
    refresh settles. The second call of [handleAuthError] has already
    returned when the refresh is still pending: it did not wait for the
    pending refresh but took the token-expiration path and removed the
    stored token. The refresh itself is single: it is started once, one
    request reaches the refresh endpoint, and the flag is cleared when it
    settles, also when the endpoint fails. *)
Theorem C5_second_401_does_not_wait :
  fst (twoUnauthorized fetchNew) = [(2%nat, Resolved e401)] /\
  map AuthHandler.task (AuthHandler.waiting (snd (twoUnauthorized fetchNew)))
  = [1%nat] /\
  AuthHandler.isRefreshing (AuthHandler.handler (snd (twoUnauthorized fetchNew)))
  = true /\
  AuthHandler.refreshes (AuthHandler.handler (snd (twoUnauthorized fetchNew)))
  = 1%nat /\
  tokenIn session = Some "old" /\
  tokenIn (snd (twoUnauthorized fetchNew)) = None /\
  (let '(rs, s) :=
     AuthHandler.run fetchNew (snd (twoUnauthorized fetchNew))
       [AuthHandler.RefreshSettles] in
   rs = [(1%nat, Resolved e401)] /\
   AuthHandler.isRefreshing (AuthHandler.handler s) = false /\
   AuthHandler.refreshPromise (AuthHandler.handler s) = None /\
   AuthHandler.refreshes (AuthHandler.handler s) = 1%nat /\
   fetchCalls (AuthHandler.world s) = [("/auth/refresh", "r1")] /\
   tokenIn s = Some "new") /\
  (let '(rs, s) :=
     AuthHandler.run fetchDown (snd (twoUnauthorized fetchDown))
       [AuthHandler.RefreshSettles] in
   rs = [(1%nat, Resolved e401)] /\
   AuthHandler.isRefreshing (AuthHandler.handler s) = false /\
   AuthHandler.refreshPromise (AuthHandler.handler s) = None /\
   fetchCalls (AuthHandler.world s) = [("/auth/refresh", "r1")] /\
   tokenIn s = None).
Proof. vm_compute. repeat split. Qed.

End AuthProps.

Module RequestProps.
Import RequestManager.

Definition dedupCfg : RequestManagerConfig :=
  {| enabled := true; deduplication := true; cancellation := true;
     maxConcurrentRequests := 100; requestTimeout := 30000;
     deduplicationWindow := 5000 |}.

Definition getUsers : AxiosRequestConfig :=
  mkConfig (Some "GET") (Some "/users") None None ∅ None.

Example key_of_getUsers : getRequestKey getUsers = "GET:/users:{}:{}".
Proof. reflexivity. Qed.

Example two_identical_calls :
  let '(r1, rm1) := executeRequest 10 "req_1" getUsers (new dedupCfg) in
  let '(r2, rm2) := executeRequest 11 "req_2" getUsers rm1 in
  (r1, r2, map fst (transportCalls rm2), deduplicatedRequests (stats rm2))
  = (Promise 1, Promise 1, ["req_1"], 1).
Proof. vm_compute. reflexivity. Qed.

Example second_call_after_settlement :
  let rm :=
    run (new dedupCfg)
      [Execute 10 "req_1" getUsers;
       TransportSettles 20 "req_1" (Resolved (mkResponse 200 "[]" ∅));
       Execute 21 "req_2" getUsers] in
  (map fst (transportCalls rm), promises rm !! 1%nat)
  = (["req_1"; "req_2"], Some (Fulfilled (mkResponse 200 "[]" ∅))).
Proof. vm_compute. reflexivity. Qed.

(** *** The invariant of a manager that deduplicates *)

Record Inv (rm : t) : Prop := mkInv {
  inv_enabled : enabled (managerConfig rm) = true;
  inv_deduplication : deduplication (managerConfig rm) = true;
  (** every pending request is an object that carries its id, whose
      [promise] field is the promise it settles, which is pending, and
      which the deduplication map lists under its key *)
  inv_pending : forall rid ref,
    pendingRequests rm !! rid = Some ref ->
    exists o, objects rm !! ref = Some o /\ id o = rid /\
              promise o = settles o /\
              deduplicationMap rm !! getRequestKey (config o) = Some ref /\
              promises rm !! settles o = Some Pending;
  (** every entry of the deduplication map is a pending request *)
  inv_dedup : forall key ref,
    deduplicationMap rm !! key = Some ref ->
    exists o, objects rm !! ref = Some o /\
              getRequestKey (config o) = key /\
              pendingRequests rm !! id o = Some ref;
  (** references are allocated in order, an object two places after the
      promise it settles *)
  inv_objects : forall ref o,
    objects rm !! ref = Some o ->
    (ref < fresh rm)%nat /\ ref = S (S (settles o));
}.

Lemma inv_new cfg :
  enabled cfg = true -> deduplication cfg = true -> Inv (new cfg).
Proof. intros He Hd. split; try done. Qed.

Lemma settle_other p q out ps : p <> q -> settle p out ps !! q = ps !! q.
Proof.
  intros Hne. unfold settle. destruct (ps !! p) as [[]|]; try done.
  by rewrite lookup_insert_ne.
Qed.

(** A call that finds its key in the deduplication map. *)
Lemma executeRequest_hit now rid cfg rm ref o :
  enabled (managerConfig rm) = true ->
  deduplication (managerConfig rm) = true ->
  deduplicationMap rm !! getRequestKey cfg = Some ref ->
  objects rm !! ref = Some o ->
  fst (executeRequest now rid cfg rm) = Promise (promise o) /\
  let rm' := snd (executeRequest now rid cfg rm) in
  transportCalls rm' = transportCalls rm /\
  promises rm' = promises rm /\
  pendingRequests rm' = pendingRequests rm /\
  deduplicationMap rm' = deduplicationMap rm /\
  objects rm' = objects rm /\
  fresh rm' = fresh rm /\
  managerConfig rm' = managerConfig rm /\
  deduplicatedRequests (stats rm') = deduplicatedRequests (stats rm) + 1.
Proof.
  intros He Hd Hk Ho. unfold executeRequest. rewrite He, Hd, Hk. cbn.
  rewrite Ho. done.
Qed.

(** What a call does when it is admitted. *)
Definition admitted (now : Z) (rid : string) (cfg : AxiosRequestConfig)
    (rm : t) : t :=
  let f := fresh rm in
  let st := stats rm in
  mk (<[rid := S (S (S f))]> (pendingRequests rm))
     (<[getRequestKey cfg := S (S (S f))]> (deduplicationMap rm))
     (requestHistory rm ++ [mkEntry rid now None None pending None])
     (managerConfig rm)
     (mkStats (totalRequests st + 1) (activeRequests st + 1)
        (completedRequests st) (cancelledRequests st)
        (deduplicatedRequests st) (averageResponseTime st) (errorRate st))
     (<[S (S (S f)) := mkPending rid cfg f (S f) now (S f)]> (objects rm))
     (<[S (S f) := Fulfilled emptyResponse]>
        (<[S f := Pending]> (promises rm)))
     (aborted rm)
     (transportCalls rm
      ++ [(rid, mkConfig (method cfg) (url cfg) (params cfg) (reqData cfg)
                  (reqHeaders cfg) (Some f))])
     (S (S (S (S f)))).

(** The three ways a call can go on a manager that deduplicates. *)
Lemma executeRequest_cases now rid cfg rm :
  Inv rm ->
  (exists ref o,
     deduplicationMap rm !! getRequestKey cfg = Some ref /\
     objects rm !! ref = Some o /\
     fst (executeRequest now rid cfg rm) = Promise (promise o) /\
     pendingRequests (snd (executeRequest now rid cfg rm))
     = pendingRequests rm) \/
  (deduplicationMap rm !! getRequestKey cfg = None /\
   executeRequest now rid cfg rm
   = (Throws "Maximum concurrent requests exceeded", rm)) \/
  (deduplicationMap rm !! getRequestKey cfg = None /\
   executeRequest now rid cfg rm
   = (Promise (S (fresh rm)), admitted now rid cfg rm)).
Proof.
  intros HI. destruct HI as [He Hd Hp Hdd Hobj].
  destruct (deduplicationMap rm !! getRequestKey cfg) as [ref|] eqn:Hk.
  - left. destruct (Hdd _ _ Hk) as (o & Ho & _ & _).
    destruct (executeRequest_hit now rid cfg rm ref o He Hd Hk Ho)
      as (H1 & _ & _ & H4 & _).
    by exists ref, o.
  - right. unfold executeRequest. rewrite He, Hd, Hk. cbn.
    destruct (_ <=? _); [by left|]. right. split; [done|].
    rewrite lookup_insert_eq. unfold admitted. f_equal. f_equal.
    apply map_eq. intros i. rewrite lookup_alter.
    destruct (decide (S (S (S (fresh rm))) = i)) as [<-|Hne].
    + rewrite lookup_insert_eq. cbn. by rewrite lookup_insert_eq.
    + by rewrite !lookup_insert_ne.
Qed.

Lemma inv_admitted now rid cfg rm :
  Inv rm ->
  pendingRequests rm !! rid = None ->
  deduplicationMap rm !! getRequestKey cfg = None ->
  Inv (admitted now rid cfg rm).
Proof.
  intros [He Hd Hp Hdd Hobj] Hfresh Hk. split; cbn; try done.
  - intros rid' ref Hl.
    destruct (decide (rid = rid')) as [<-|Hne].
    + rewrite lookup_insert_eq in Hl. injection Hl as <-.
      eexists. rewrite !lookup_insert_eq. split; [done|]. cbn.
      do 2 (split; [done|]). split; [by rewrite lookup_insert_eq|].
      rewrite lookup_insert_ne by lia. by rewrite lookup_insert_eq.
    + rewrite lookup_insert_ne in Hl by done.
      destruct (Hp _ _ Hl) as (o & Ho & Hid & Hpr & Hdk & Hps).
      destruct (Hobj _ _ Ho) as [Hlt Hrf].
      exists o. rewrite lookup_insert_ne by lia. split; [done|].
      do 2 (split; [done|]). split.
      * rewrite lookup_insert_ne; [done|]. intros Heq.
        rewrite Heq in Hk. congruence.
      * rewrite !lookup_insert_ne by lia. done.
  - intros key ref Hl.
    destruct (decide (getRequestKey cfg = key)) as [<-|Hne].
    + rewrite lookup_insert_eq in Hl. injection Hl as <-.
      eexists. rewrite lookup_insert_eq. split; [done|]. cbn.
      split; [done|]. by rewrite lookup_insert_eq.
    + rewrite lookup_insert_ne in Hl by done.
      destruct (Hdd _ _ Hl) as (o & Ho & Hkey & Hpn).
      destruct (Hobj _ _ Ho) as [Hlt Hrf].
      exists o. rewrite lookup_insert_ne by lia. split; [done|].
      split; [done|]. rewrite lookup_insert_ne; [done|].
      intros Heq. rewrite Heq in Hfresh. congruence.
  - intros ref o Hl.
    destruct (decide (S (S (S (fresh rm))) = ref)) as [<-|Hne].
    + rewrite lookup_insert_eq in Hl. injection Hl as <-. cbn. lia.
    + rewrite lookup_insert_ne in Hl by done.
      destruct (Hobj _ _ Hl). lia.
Qed.

Lemma inv_executeRequest now rid cfg rm :
  Inv rm -> pendingRequests rm !! rid = None ->
  Inv (snd (executeRequest now rid cfg rm)).
Proof.
  intros HI Hfresh.
  destruct (executeRequest_cases now rid cfg rm HI)
    as [(ref & o & Hk & Ho & _ & _) | [[Hk ->] | [Hk ->]]].
  - destruct HI as [He Hd Hp Hdd Hobj].
    destruct (executeRequest_hit now rid cfg rm ref o He Hd Hk Ho)
      as (_ & H1 & H2 & H3 & H4 & H5 & H6 & H7 & _).
    split; rewrite ?H2, ?H3, ?H4, ?H5, ?H6, ?H7; done.
  - done.
  - by apply inv_admitted.
Qed.

Lemma inv_finish rid rm newStats newEntry after outcome :
  Inv rm -> Inv (finish rid rm newStats newEntry after outcome).
Proof.
  intros HI. unfold finish.
  destruct (pendingRequests rm !! rid) as [ref|] eqn:Hrid; cbn; [|done].
  destruct (objects rm !! ref) as [o|] eqn:Ho; cbn; [|done].
  destruct HI as [He Hd Hp Hdd Hobj].
  destruct (Hp _ _ Hrid) as (o0 & Ho0 & Hid & Hpr & Hdk & Hps).
  assert (o0 = o) as -> by congruence.
  destruct (Hobj _ _ Ho) as [Hlt Hrf].
  split; cbn; try done.
  - intros rid' ref' Hl.
    destruct (decide (rid = rid')) as [<-|Hne];
      [by rewrite lookup_delete_eq in Hl|].
    rewrite lookup_delete_ne in Hl by done.
    destruct (Hp _ _ Hl) as (o' & Ho' & Hid' & Hpr' & Hdk' & Hps').
    destruct (Hobj _ _ Ho') as [Hlt' Hrf'].
    assert (Hrefs : ref <> ref').
    { intros <-. assert (o' = o) as -> by congruence. congruence. }
    exists o'. split; [done|]. do 2 (split; [done|]). split.
    + rewrite lookup_delete_ne; [done|]. intros Heq.
      rewrite Heq in Hdk. congruence.
    + rewrite settle_other; [done|]. lia.
  - intros key ref' Hl.
    destruct (decide (getRequestKey (config o) = key)) as [<-|Hne];
      [by rewrite lookup_delete_eq in Hl|].
    rewrite lookup_delete_ne in Hl by done.
    destruct (Hdd _ _ Hl) as (o' & Ho' & Hkey' & Hpn').
    exists o'. split; [done|]. split; [done|].
    rewrite lookup_delete_ne; [done|]. intros Heq. rewrite <- Heq in Hpn'.
    assert (ref' = ref) as -> by congruence.
    assert (o' = o) as -> by congruence. done.
Qed.

Lemma inv_abort c rm : Inv rm -> Inv (abort c rm).
Proof. intros [He Hd Hp Hdd Hobj]. by split. Qed.

Lemma cancelRequest_finish now rid rm :
  snd (cancelRequest now rid rm) = rm \/
  exists c, snd (cancelRequest now rid rm)
            = handleRequestCancellation now rid (abort c rm).
Proof.
  unfold cancelRequest.
  destruct (_ ≫= _) as [request|]; [right; by eexists | by left].
Qed.

(** Every event keeps the invariant, provided a call of [executeRequest]
    comes with an id that no pending request has. *)
Lemma inv_step rm ev :
  Inv rm ->
  (forall now rid cfg, ev = Execute now rid cfg ->
     pendingRequests rm !! rid = None) ->
  Inv (step rm ev).
Proof.
  intros HI Hfresh. destruct ev as [now rid cfg|now rid [resp|err]|now rid|c];
    cbn [step].
  - apply inv_executeRequest; [done|]. by eapply Hfresh.
  - by apply inv_finish.
  - by apply inv_finish.
  - destruct (cancelRequest_finish now rid rm) as [->|[c ->]]; [done|].
    by apply inv_finish, inv_abort.
  - by apply inv_abort.
Qed.

Lemma finish_pending rid rm newStats newEntry after outcome rid' ref :
  pendingRequests (finish rid rm newStats newEntry after outcome) !! rid'
  = Some ref ->
  pendingRequests rm !! rid' = Some ref.
Proof.
  unfold finish. destruct (_ ≫= _) as [request|]; cbn; [|done].
  intros Hl. apply lookup_delete_Some in Hl. by destruct Hl.
Qed.

(** A pending request was handed to [executeRequest] at some point. *)
Lemma step_pending_ids rm ev rid ref :
  pendingRequests (step rm ev) !! rid = Some ref ->
  is_Some (pendingRequests rm !! rid) \/ rid ∈ executeIds [ev].
Proof.
  destruct ev as [now rid' cfg|now rid' [resp|err]|now rid'|c]; cbn [step].
  - unfold executeRequest. destruct (negb _); cbn; [eauto|].
    destruct (if deduplication _ then _ else _) as [existing|]; cbn; [eauto|].
    destruct (_ <=? _); cbn; [eauto|].
    destruct (decide (rid' = rid)) as [->|Hne].
    + intros _. right. cbn. set_solver.
    + rewrite lookup_insert_ne by done. eauto.
  - intros Hl. apply finish_pending in Hl. eauto.
  - intros Hl. apply finish_pending in Hl. eauto.
  - destruct (cancelRequest_finish now rid' rm) as [->|[c ->]]; [eauto|].
    intros Hl. apply finish_pending in Hl. eauto.
  - cbn. eauto.
Qed.

(** A pending request stays pending, and its object stays what it is,
    through every event that does not settle it. *)
Lemma step_keeps_pending rm ev rid1 ref1 o1 :
  Inv rm ->
  pendingRequests rm !! rid1 = Some ref1 ->
  objects rm !! ref1 = Some o1 ->
  finishes rid1 ev = false ->
  rid1 ∉ executeIds [ev] ->
  pendingRequests (step rm ev) !! rid1 = Some ref1 /\
  objects (step rm ev) !! ref1 = Some o1.
Proof.
  intros HI Hp1 Ho1 Hfin Hnot.
  assert (Hfinish : forall rid rm0 newStats newEntry after outcome,
            rid <> rid1 ->
            pendingRequests rm0 !! rid1 = Some ref1 ->
            objects rm0 !! ref1 = Some o1 ->
            pendingRequests (finish rid rm0 newStats newEntry after outcome)
              !! rid1 = Some ref1 /\
            objects (finish rid rm0 newStats newEntry after outcome) !! ref1
            = Some o1).
  { intros rid rm0 ns ne af out Hne Hp Ho. unfold finish.
    destruct (_ ≫= _) as [request|]; cbn; [|done].
    by rewrite lookup_delete_ne. }
  destruct ev as [now rid cfg|now rid [resp|err]|now rid|c]; cbn [step].
  - assert (rid <> rid1) by (cbn in Hnot; set_solver).
    destruct (executeRequest_cases now rid cfg rm HI)
      as [(ref & o & Hk & Ho & _ & Hsame) | [[Hk ->] | [Hk ->]]].
    + destruct HI as [He Hd _ _ _].
      destruct (executeRequest_hit now rid cfg rm ref o He Hd Hk Ho)
        as (_ & _ & _ & -> & _ & -> & _). done.
    + done.
    + cbn. destruct (inv_objects _ HI _ _ Ho1) as [Hlt _].
      rewrite !lookup_insert_ne by (done || lia). done.
  - cbn in Hfin. apply String.eqb_neq in Hfin. by apply Hfinish.
  - cbn in Hfin. apply String.eqb_neq in Hfin. by apply Hfinish.
  - cbn in Hfin. apply String.eqb_neq in Hfin.
    destruct (cancelRequest_finish now rid rm) as [->|[c ->]]; [done|].
    by apply Hfinish.
  - done.
Qed.

Lemma executeIds_cons ev evs :
  executeIds (ev :: evs) = executeIds [ev] ++ executeIds evs.
Proof. unfold executeIds. cbn. by destruct ev. Qed.

Lemma executeIds_app evs1 evs2 :
  executeIds (evs1 ++ evs2) = executeIds evs1 ++ executeIds evs2.
Proof. unfold executeIds. apply omap_app. Qed.

(** A trace whose calls come with ids that are new keeps the invariant;
    [used] bounds the ids of the pending requests. *)
Lemma run_inv evs : forall rm used,
  Inv rm ->
  (forall rid, is_Some (pendingRequests rm !! rid) -> rid ∈ used) ->
  NoDup (used ++ executeIds evs) ->
  Inv (run rm evs) /\
  (forall rid, is_Some (pendingRequests (run rm evs) !! rid) ->
               rid ∈ used ++ executeIds evs).
Proof.
  induction evs as [|ev evs IH]; intros rm used HI Hused Hnd.
  { cbn. split; [done|]. intros rid H. rewrite app_nil_r. by apply Hused. }
  rewrite executeIds_cons, app_assoc in Hnd. cbn [run fold_left].
  destruct (IH (step rm ev) (used ++ executeIds [ev])) as [HI' Hused'];
    [| |done|].
  - apply inv_step; [done|]. intros now rid cfg ->.
    apply eq_None_not_Some. intros Hsome. apply Hused in Hsome.
    apply NoDup_app in Hnd as [Hnd _]. apply NoDup_app in Hnd as (_ & Hd & _).
    apply (Hd rid Hsome). cbn. set_solver.
  - intros rid [ref Hl]. apply step_pending_ids in Hl as [Hl|Hl].
    + apply elem_of_app. left. by apply Hused.
    + apply elem_of_app. by right.
  - split; [done|]. rewrite executeIds_cons, app_assoc. done.
Qed.

(** The same trace does not settle a pending request it never names. *)
Lemma run_keeps_pending evs : forall rm used rid1 ref1 o1,
  Inv rm ->
  (forall rid, is_Some (pendingRequests rm !! rid) -> rid ∈ used) ->
  NoDup (used ++ executeIds evs) ->
  pendingRequests rm !! rid1 = Some ref1 ->
  objects rm !! ref1 = Some o1 ->
  Forall (fun ev => finishes rid1 ev = false) evs ->
  pendingRequests (run rm evs) !! rid1 = Some ref1 /\
  objects (run rm evs) !! ref1 = Some o1.
Proof.
  induction evs as [|ev evs IH]; intros rm used rid1 ref1 o1 HI Hused Hnd
    Hp1 Ho1 Hall; [done|].
  apply Forall_cons in Hall as [Hfin Hall].
  rewrite executeIds_cons, app_assoc in Hnd. cbn [run fold_left].
  assert (Hnot : rid1 ∉ executeIds [ev]).
  { intros Hin. apply NoDup_app in Hnd as [Hnd _].
    apply NoDup_app in Hnd as (_ & Hd & _).
    apply (Hd rid1); [apply Hused; by eexists | done]. }
  destruct (step_keeps_pending rm ev rid1 ref1 o1 HI Hp1 Ho1 Hfin Hnot)
    as [Hp1' Ho1'].
  apply (IH (step rm ev) (used ++ executeIds [ev])); try done.
  - apply inv_step; [done|]. intros now rid cfg ->.
    apply eq_None_not_Some. intros Hsome. apply Hused in Hsome.
    apply NoDup_app in Hnd as [Hnd _]. apply NoDup_app in Hnd as (_ & Hd & _).
    apply (Hd rid Hsome). cbn. set_solver.
  - intros rid [ref Hl]. apply step_pending_ids in Hl as [Hl|Hl].
    + apply elem_of_app. left. by apply Hused.
    + apply elem_of_app. by right.
Qed.



End RequestProps.

(* ================================================================== *)
(** * Further properties of the code *)
(* ================================================================== *)

Module CircuitBreakerMore.
Import CircuitBreaker.

(** What every state of a breaker satisfies. *)
Definition sound (cb : t) : Prop :=
  0 <= failureCount cb /\ 0 <= successCount cb /\
  (state cb = Open -> is_Some (nextAttemptTime cb)) /\
  (state cb = Closed -> nextAttemptTime cb = None /\ successCount cb = 0).

Ltac sound_tac :=
  cbn; repeat split; intros; try done; try lia; try congruence;
  try (by eauto); naive_solver.

Lemma sound_step cb ev : sound cb -> sound (snd (step cb ev)).
Proof.
  intros (Hf & Hs & Ho & Hc). unfold sound.
  destruct ev as [now|now|now|now e|now|now]; cbn [step].
  - unfold canExecute. destruct (negb _); [sound_tac|].
    destruct (state cb) eqn:Hst; [sound_tac| |sound_tac].
    destruct (_ && _); sound_tac.
  - destruct (negb _); [sound_tac|]. unfold canExecute. cbn.
    destruct (negb _); [sound_tac|].
    destruct (state cb) eqn:Hst; cbn; [sound_tac| |sound_tac].
    destruct (_ && _); sound_tac.
  - destruct (enabled _); [|sound_tac]. unfold onSuccess. cbn.
    destruct (state cb) eqn:Hst; cbn.
    + rewrite Hst. sound_tac; by apply Hc.
    + rewrite Hst. sound_tac.
    + destruct (_ <=? _); [sound_tac|]. cbn. rewrite Hst. sound_tac.
  - destruct (enabled _); [|sound_tac]. unfold onFailure.
    destruct (negb _); [sound_tac|]. cbn.
    destruct (state cb) eqn:Hst; cbn.
    + destruct (_ <=? _); [sound_tac|]. cbn. rewrite Hst.
      sound_tac; by apply Hc.
    + rewrite Hst. sound_tac.
    + sound_tac.
  - cbn. unfold resetTimerFires.
    destruct (resetTimer cb) as [tm|]; [|sound_tac].
    destruct (_ && _); sound_tac.
  - sound_tac.
Qed.

Lemma sound_apply cb op : sound cb -> sound (apply cb op).
Proof.
  intros Hs. destruct op as [ev| |now| | |]; cbn [apply].
  - by apply sound_step.
  - unfold sound. sound_tac.
  - destruct Hs as (Hf & Hsc & _ & _). unfold sound. sound_tac.
  - unfold sound. sound_tac.
  - destruct Hs as (Hf & _ & _ & _). unfold sound. sound_tac.
  - destruct Hs as (Hf & Hsc & Ho & Hc). unfold sound. sound_tac.
Qed.

(** X1. Whatever is done to a breaker after its construction (admission
    checks, outcomes, timers, [reset], the [force...] overrides,
    [destroy]), its counters are never negative, it has a
    [nextAttemptTime] whenever it is Open, and whenever it is Closed
    [nextAttemptTime] is cleared and [successCount] is 0. *)
Theorem breaker_always_sound (cfg : CircuitBreakerConfig) (ops : list Op) :
  let cb := applyAll (new cfg) ops in
  0 <= failureCount cb /\ 0 <= successCount cb /\
  (state cb = Open -> is_Some (nextAttemptTime cb)) /\
  (state cb = Closed -> nextAttemptTime cb = None /\ successCount cb = 0).
Proof.
  cbn zeta. change (sound (applyAll (new cfg) ops)).
  assert (Hnew : sound (new cfg)) by (unfold sound; cbn; done).
  revert Hnew. generalize (new cfg) as cb.
  induction ops as [|op ops IH]; intros cb Hs; [done|].
  cbn. apply IH. by apply sound_apply.
Qed.

(** X2. A counted failure of a probe, on an enabled HalfOpen breaker,
    reopens it with a new deadline [now + timeout]; until that deadline
    every admission check is refused. *)
Theorem half_open_failure_reopens (cb : t) (now : Z) (error : AxiosError)
    (evs : list Event) :
  enabled (config cb) = true ->
  state cb = HalfOpen ->
  counted (config cb) error = true ->
  Forall (fun ev => eventTime ev < now + timeout (config cb)) evs ->
  let cb' := snd (step cb (Failed now error)) in
  state cb' = Open /\
  nextAttemptTime cb' = Some (now + timeout (config cb)) /\
  failureCount cb' = failureCount cb + 1 /\
  Forall (fun b => b = false) (fst (run cb' evs)) /\
  state (snd (run cb' evs)) = Open.
Proof.
  intros Hen Hst Hc Hevs. cbn [step snd]. rewrite Hen.
  assert (Hf : onFailure now error cb
               = open now
                   (set_failureHistory (failureHistory cb ++ [now])
                      (set_failureCount (failureCount cb + 1)
                         (set_lastFailureTime (Some now)
                            (set_totalFailures (totalFailures cb + 1) cb))))).
  { unfold onFailure. rewrite Hc. cbn. by rewrite Hst. }
  rewrite Hf. cbn zeta. split; [done|]. split; [done|]. split; [done|].
  destruct (CircuitBreakerProps.run_open_early evs
              (open now
                 (set_failureHistory (failureHistory cb ++ [now])
                    (set_failureCount (failureCount cb + 1)
                       (set_lastFailureTime (Some now)
                          (set_totalFailures (totalFailures cb + 1) cb)))))
              (now + timeout (config cb))) as (H1 & H2 & _); done.
Qed.

Definition halfOpenCb : t :=
  snd (canExecute 60005 CircuitBreakerProps.openCb).

Lemma half_open_failure_reopens_witness :
  state (snd (step halfOpenCb (Failed 60010 CircuitBreakerProps.e500))) = Open /\
  fst (run (snd (step halfOpenCb (Failed 60010 CircuitBreakerProps.e500)))
         [CanExecute 60011; CanExecute 120009])
  = [false; false].
Proof.
  destruct (half_open_failure_reopens halfOpenCb 60010 CircuitBreakerProps.e500
              [CanExecute 60011; CanExecute 120009])
    as (H1 & _ & _ & _ & _).
  - reflexivity.
  - reflexivity.
  - reflexivity.
  - repeat constructor.
  - split; [exact H1 | reflexivity].
Defined.





(** X4. A breaker constructed disabled admits every request and records
    nothing: after any sequence of events every admission check has
    answered [true] and the breaker is as it was constructed. *)
Theorem disabled_breaker_is_transparent (cfg : CircuitBreakerConfig)
    (evs : list Event) :
  enabled cfg = false ->
  Forall (fun b => b = true) (fst (run (new cfg) evs)) /\
  snd (run (new cfg) evs) = new cfg.
Proof.
  intros Hen. induction evs as [|ev evs IH]; [done|].
  cbn [run].
  assert (Hstep : (fst (step (new cfg) ev) = None \/
                   fst (step (new cfg) ev) = Some true) /\
                  snd (step (new cfg) ev) = new cfg).
  { destruct ev as [now|now|now|now e|now|now]; cbn [step].
    - unfold canExecute. cbn. rewrite Hen. cbn. eauto.
    - cbn. rewrite Hen. cbn. eauto.
    - cbn. rewrite Hen. eauto.
    - cbn. rewrite Hen. eauto.
    - cbn. eauto.
    - cbn. eauto. }
  destruct (step (new cfg) ev) as [r cb1]. cbn in Hstep.
  destruct Hstep as [Hr ->].
  destruct (run (new cfg) evs) as [rs cb2]. cbn in *.
  destruct IH as [IH1 IH2]. split; [|done].
  destruct Hr as [-> | ->]; [done | by constructor].
Qed.

Definition offCfg : CircuitBreakerConfig :=
  {| enabled := false; failureThreshold := 1; successThreshold := 1;
     timeout := 60000; resetTimeout := 30000; monitoringPeriod := 10000;
     errorFilter := None |}.

Lemma disabled_breaker_is_transparent_witness :
  fst (run (new offCfg)
         [Admission 1; Failed 2 CircuitBreakerProps.e500; Admission 3])
  = [true; true].
Proof.
  destruct (disabled_breaker_is_transparent offCfg
              [Admission 1; Failed 2 CircuitBreakerProps.e500; Admission 3])
    as [_ _]; [reflexivity|]. reflexivity.
Defined.

(** X5. Errors that the [errorFilter] rejects do not count: any run of
    them leaves the breaker exactly as it was, so it can neither trip a
    Closed breaker nor reopen a HalfOpen one. *)
Theorem filtered_errors_leave_breaker_alone (cb : t)
    (fs : list (Z * AxiosError)) :
  Forall (fun f => counted (config cb) (snd f) = false) fs ->
  recordFailures fs cb = cb.
Proof.
  induction fs as [|f fs IH]; intros Hall; [done|].
  apply Forall_cons in Hall as [Hf Hall]. cbn [recordFailures fold_left].
  assert (Hsame : onFailure (fst f) (snd f) cb = cb).
  { unfold onFailure. by rewrite Hf. }
  rewrite Hsame. by apply IH.
Qed.

Definition only5xx : CircuitBreakerConfig :=
  {| enabled := true; failureThreshold := 1; successThreshold := 1;
     timeout := 60000; resetTimeout := 30000; monitoringPeriod := 10000;
     errorFilter :=
       Some (fun e => match response e with
                      | Some r => 500 <=? status r
                      | None => true
                      end) |}.

Lemma filtered_errors_leave_breaker_alone_witness :
  recordFailures [(1, RetryProps.errStatus 404); (2, RetryProps.errStatus 400)]
    (new only5xx) = new only5xx.
Proof.
  apply (filtered_errors_leave_breaker_alone (new only5xx)).
  repeat constructor.
Defined.

End CircuitBreakerMore.

Module CircuitBreakerManagerProps.
Import CircuitBreakerManager.

Definition strict : PartialConfig :=
  mkPartial None (Some 1) None None None None None.

Definition lenient : PartialConfig :=
  mkPartial None (Some 50) None (Some 1000) None None None.

Example first_config_wins :
  let m1 := snd (getBreaker "users" (Some strict)
                   (new CircuitBreakerProps.cfg5)) in
  CircuitBreaker.failureThreshold
    (CircuitBreaker.config (fst (getBreaker "users" (Some lenient) m1)))
  = 1.
Proof. reflexivity. Qed.

(** X6. A breaker is created on the first use of a service name, with the
    default configuration overridden by the fields given in that call; a
    later [getBreaker] for the same name returns that same breaker and
    leaves the manager as it is, whatever configuration it is given: a
    per-call configuration has no effect once the breaker exists. *)
Theorem getBreaker_first_config_wins (m : t) (serviceName : string)
    (config1 config2 : option PartialConfig) :
  breakers m !! serviceName = None ->
  let b1 := fst (getBreaker serviceName config1 m) in
  let m1 := snd (getBreaker serviceName config1 m) in
  b1 = CircuitBreaker.new (merge (defaultConfig m) config1) /\
  breakers m1 !! serviceName = Some b1 /\
  getBreaker serviceName config2 m1 = (b1, m1).
Proof.
  intros Hnone. unfold getBreaker. rewrite Hnone. cbn.
  rewrite lookup_insert_eq. done.
Qed.

Lemma getBreaker_first_config_wins_witness :
  getBreaker "users" (Some lenient)
    (snd (getBreaker "users" (Some strict) (new CircuitBreakerProps.cfg5)))
  = (fst (getBreaker "users" (Some strict) (new CircuitBreakerProps.cfg5)),
     snd (getBreaker "users" (Some strict) (new CircuitBreakerProps.cfg5))).
Proof.
  destruct (getBreaker_first_config_wins (new CircuitBreakerProps.cfg5)
              "users" (Some strict) (Some lenient)) as (_ & _ & H).
  - reflexivity.
  - exact H.
Defined.

(** X7. The breakers of different services are independent: whatever
    happens to the breaker of one service (including its creation) leaves
    the breaker of every other service as it was. *)
Theorem execute_other_service_unchanged (m : t) (a b : string)
    (config : option PartialConfig) (ev : CircuitBreaker.Event) :
  a <> b ->
  breakers (snd (execute a config ev m)) !! b = breakers m !! b /\
  breakers (snd (getBreaker a config m)) !! b = breakers m !! b.
Proof.
  intros Hne. unfold execute, getBreaker.
  destruct (breakers m !! a) as [br|] eqn:Ha; cbn.
  - destruct (CircuitBreaker.step br ev) as [r br']. cbn.
    by rewrite lookup_insert_ne.
  - destruct (CircuitBreaker.step _ ev) as [r br']. cbn.
    by rewrite !lookup_insert_ne.
Qed.

Lemma execute_other_service_unchanged_witness :
  let m := snd (getBreaker "orders" None (new CircuitBreakerProps.cfg5)) in
  breakers
    (snd (execute "users" (Some strict)
            (CircuitBreaker.Failed 1 CircuitBreakerProps.e500) m))
    !! "orders"
  = breakers m !! "orders".
Proof.
  cbn zeta.
  destruct (execute_other_service_unchanged
              (snd (getBreaker "orders" None (new CircuitBreakerProps.cfg5)))
              "users" "orders" (Some strict)
              (CircuitBreaker.Failed 1 CircuitBreakerProps.e500)) as [H _].
  - discriminate.
  - exact H.
Defined.

(** X8. [forceOpenAll] at time [now] makes every enabled breaker of the
    manager refuse admission until [now] plus its own timeout; [resetAll]
    makes every breaker admit again at once. *)
Theorem forceOpenAll_blocks_resetAll_admits (m : t) (serviceName : string)
    (cb : CircuitBreaker.t) (config : option PartialConfig) (now t0 : Z) :
  breakers m !! serviceName = Some cb ->
  CircuitBreaker.enabled (CircuitBreaker.config cb) = true ->
  t0 < now + CircuitBreaker.timeout (CircuitBreaker.config cb) ->
  fst (execute serviceName config (CircuitBreaker.CanExecute t0)
         (forceOpenAll now m)) = Some false /\
  fst (execute serviceName config (CircuitBreaker.CanExecute t0)
         (resetAll (forceOpenAll now m))) = Some true.
Proof.
  intros Hcb Hen Hlt. unfold execute, getBreaker, resetAll, forceOpenAll.
  cbn [breakers defaultConfig]. rewrite !lookup_fmap, Hcb. cbn.
  unfold CircuitBreaker.canExecute. cbn. rewrite Hen. cbn.
  destruct (Z.leb_spec (now + CircuitBreaker.timeout (CircuitBreaker.config cb))
              t0); [lia|].
  by rewrite andb_false_r.
Qed.

Lemma forceOpenAll_blocks_resetAll_admits_witness :
  let m := snd (getBreaker "users" None (new CircuitBreakerProps.cfg5)) in
  fst (execute "users" None (CircuitBreaker.CanExecute 59999)
         (forceOpenAll 0 m)) = Some false.
Proof.
  cbn zeta.
  destruct (forceOpenAll_blocks_resetAll_admits
              (snd (getBreaker "users" None (new CircuitBreakerProps.cfg5)))
              "users" (CircuitBreaker.new CircuitBreakerProps.cfg5) None 0 59999)
    as [H _].
  - reflexivity.
  - reflexivity.
  - reflexivity.
  - exact H.
Defined.

End CircuitBreakerManagerProps.

Module RetryMore.
Import RetryHandler.

Section Counting.
Context {W E T : Type}.
Variable requestFn : W -> Outcome E T * W.
Variable asAxios : E -> AxiosError.
Variable random : Z -> Q.
Variable cfg : RetryConfig.

(** The request, with a count of its invocations beside the world. *)
Definition counting (wn : W * nat) : Outcome E T * (W * nat) :=
  let '(r, w') := requestFn (fst wn) in (r, (w', S (snd wn))).

(** The loop entered at [attempt] with [maxRetries + 1 - attempt]
    iterations left: either no iteration is left and it rethrows what it
    was given, or it invokes the request at least once, at most once per
    iteration left, waits once between two invocations, and settles with
    the outcome of an invocation. *)
Lemma loop_counts (fuel : nat) : forall attempt lastError delays w n,
  Z.of_nat fuel + attempt = maxRetries cfg + 1 ->
  let '(r, ds, wn) :=
    loop counting asAxios random cfg fuel attempt lastError delays (w, n) in
  (fuel = 0%nat /\ r = Rejected lastError /\ ds = delays /\ wn = (w, n)) \/
  ((n < snd wn)%nat /\ (snd wn <= n + fuel)%nat /\
   (length ds + S n = length delays + snd wn)%nat /\
   ((exists x, r = Resolved x) \/ (exists e, r = Rejected (Some e)))).
Proof.
  induction fuel as [|fuel IH]; intros attempt lastError delays w n Hfuel.
  { cbn. left. done. }
  cbn [loop]. unfold counting at 1. cbn [fst snd].
  destruct (requestFn w) as [[x|e] w'].
  { right. cbn. repeat split; try lia. left. by eexists. }
  destruct (Z.eqb_spec attempt (maxRetries cfg)) as [Heq|Hne]; cbn [orb].
  { right. cbn. repeat split; try lia. right. by eexists. }
  destruct (negb (shouldRetry cfg (asAxios e))).
  { right. cbn. repeat split; try lia. right. by eexists. }
  specialize (IH (attempt + 1) (Some e)
                (delays ++ [calculateDelay cfg attempt (random attempt)])
                w' (S n)).
  destruct (loop counting asAxios random cfg fuel (attempt + 1) (Some e) _
              (w', S n)) as [[r ds] wn].
  destruct IH as [(Hz & _) | (H1 & H2 & H3 & H4)]; [lia| |].
  { subst fuel. lia. }
  right. rewrite length_app in H3. cbn in H3. repeat split; try lia. done.
Qed.

(** X9. [executeWithRetry] invokes the request at most [maxRetries + 1]
    times and waits exactly once between two invocations; when it is
    enabled and [maxRetries] is negative it never invokes the request
    and rejects with [undefined]; in every other case it invokes the
    request at least once (exactly once when disabled) and settles with
    a response or an error of the request. *)
Theorem executeWithRetry_attempts (w : W) :
  let '(r, ds, wn) :=
    executeWithRetry counting asAxios random cfg (w, 0%nat) in
  (Z.of_nat (snd wn) <= Z.max 1 (maxRetries cfg + 1)) /\
  length ds = (snd wn - 1)%nat /\
  (enabled cfg = false -> snd wn = 1%nat) /\
  (enabled cfg = true -> maxRetries cfg < 0 ->
   r = Rejected None /\ wn = (w, 0%nat)) /\
  (enabled cfg = false \/ 0 <= maxRetries cfg ->
   (1 <= snd wn)%nat /\
   ((exists x, r = Resolved x) \/ (exists e, r = Rejected (Some e)))).
Proof.
  unfold executeWithRetry. destruct (enabled cfg) eqn:Hen; cbn [negb].
  - destruct (Z_lt_le_dec (maxRetries cfg) 0) as [Hneg|Hpos].
    + replace (Z.to_nat (maxRetries cfg + 1)) with 0%nat by lia.
      cbn. repeat split; try lia; try done.
    + pose proof (loop_counts (Z.to_nat (maxRetries cfg + 1)) 0 None [] w
                    0%nat) as H.
      destruct (loop counting asAxios random cfg _ 0 None [] (w, 0%nat))
        as [[r ds] wn].
      destruct H as [(Hz & _) | (H1 & H2 & H3 & H4)]; [lia | lia |].
      cbn in H3. split; [lia|]. split; [lia|]. split; [done|].
      split; [intros; lia|]. intros _. split; [lia | done].
  - unfold counting. cbn. destruct (requestFn w) as [[x|e] w']; cbn.
    + split; [lia|]. split; [done|]. split; [done|]. split; [done|].
      intros _. split; [lia|]. left. by eexists.
    + split; [lia|]. split; [done|]. split; [done|]. split; [done|].
      intros _. split; [lia|]. right. by eexists.
Qed.

End Counting.

Section Scripted.
Context {T : Type}.
(** The outcome of the request as a function of the number of requests
    sent before it. *)
Variable outcomes : nat -> Outcome AxiosError T.
Variable random : Z -> Q.
Variable cfg : RetryConfig.

Definition scripted (sent : nat) : Outcome AxiosError T * nat :=
  (outcomes sent, S sent).

Definition delayOf (i : nat) : Q :=
  calculateDelay cfg (Z.of_nat i) (random (Z.of_nat i)).

Definition surfaced (k : nat) : Outcome (option AxiosError) T :=
  match outcomes k with
  | Resolved x => Resolved x
  | Rejected e => Rejected (Some e)
  end.

Lemma loop_scripted (k : nat) :
  Z.of_nat k <= maxRetries cfg ->
  (forall j, (j < k)%nat ->
     exists e, outcomes j = Rejected e /\ shouldRetry cfg e = true) ->
  (Z.of_nat k = maxRetries cfg \/
   match outcomes k with
   | Resolved _ => True
   | Rejected e => shouldRetry cfg e = false
   end) ->
  forall n a fuel lastError delays,
    (a + n = k)%nat ->
    Z.of_nat fuel + Z.of_nat a = maxRetries cfg + 1 ->
    loop scripted id random cfg fuel (Z.of_nat a) lastError delays a
    = (surfaced k, delays ++ map delayOf (seq a n), S k).
Proof.
  intros Hk Hretry Hstop. induction n as [|n IH];
    intros a fuel lastError delays Han Hfuel;
    (destruct fuel as [|fuel]; [lia|]); cbn [loop]; unfold scripted at 1.
  - assert (a = k) as -> by lia. cbn [seq map]. rewrite app_nil_r.
    unfold surfaced. destruct (outcomes k) as [x|e]; [done|].
    destruct Hstop as [Heq|Hno].
    + rewrite Heq, Z.eqb_refl. done.
    + unfold id. rewrite Hno. cbn. by rewrite orb_true_r.
  - destruct (Hretry a) as (e & -> & Hyes); [lia|].
    destruct (Z.eqb_spec (Z.of_nat a) (maxRetries cfg)) as [Heq|Hne]; [lia|].
    unfold id. rewrite Hyes. cbn [negb orb].
    replace (Z.of_nat a + 1) with (Z.of_nat (S a)) by lia.
    rewrite (IH (S a) fuel) by lia.
    rewrite <- app_assoc. done.
Qed.

(** X10. The attempt that ends a retried request. With retries enabled,
    if the first [k <= maxRetries] requests fail with retryable errors
    and request [k] succeeds, or fails with an error that is not
    retryable, or is the last one allowed ([k = maxRetries]), then the
    caller gets the outcome of request [k], exactly [k + 1] requests were
    sent, and one delay was waited after each of the first [k], computed
    from its attempt index. *)
Theorem executeWithRetry_stops_at (k : nat) :
  enabled cfg = true ->
  Z.of_nat k <= maxRetries cfg ->
  (forall j, (j < k)%nat ->
     exists e, outcomes j = Rejected e /\ shouldRetry cfg e = true) ->
  (Z.of_nat k = maxRetries cfg \/
   match outcomes k with
   | Resolved _ => True
   | Rejected e => shouldRetry cfg e = false
   end) ->
  executeWithRetry scripted id random cfg 0%nat
  = (surfaced k, map delayOf (seq 0 k), S k).
Proof.
  intros Hen Hk Hretry Hstop. unfold executeWithRetry. rewrite Hen. cbn [negb].
  rewrite (loop_scripted k Hk Hretry Hstop k 0%nat) by lia. done.
Qed.

End Scripted.

(** 500, 500, 500, then 200, with [maxRetries = 3]. *)
Lemma executeWithRetry_stops_at_witness :
  executeWithRetry
    (scripted (fun sent => fst (RetryProps.flaky sent))) id (fun _ => 0%Q)
    RetryProps.cfg3 0%nat
  = (Resolved 200, map (delayOf (fun _ => 0%Q) RetryProps.cfg3) [0; 1; 2]%nat,
     4%nat).
Proof.
  apply (executeWithRetry_stops_at (fun sent => fst (RetryProps.flaky sent))
           (fun _ => 0%Q) RetryProps.cfg3 3).
  - reflexivity.
  - cbn. lia.
  - intros j Hj. exists (RetryProps.errStatus 500).
    destruct j as [|[|[|j]]]; [by split..|lia].
  - right. exact I.
Defined.
End RetryMore.

(** ** More on the insertion-ordered map *)

Module JsMapMore.
Section Lemmas.
Context {V : Type}.
Implicit Types (m : list (string * V)) (k : string) (v : V).

Lemma elem_of_delete k m (kv : string * V) :
  kv ∈ JsMap.delete k m <-> kv ∈ m /\ fst kv <> k.
Proof.
  unfold JsMap.delete.
  rewrite list_elem_of_In, filter_In, <- list_elem_of_In.
  destruct (String.eqb_spec (fst kv) k); naive_solver.
Qed.









Lemma NoDup_keys_inj k v v' m :
  NoDup (JsMap.keys m) -> (k, v) ∈ m -> (k, v') ∈ m -> v = v'.
Proof.
  unfold JsMap.keys. induction m as [|[k0 v0] m IH]; cbn.
  - intros _ H. by apply elem_of_nil in H.
  - intros Hnd H1 H2. apply NoDup_cons in Hnd as [Hk0 Hnd].
    apply elem_of_cons in H1 as [H1|H1];
      apply elem_of_cons in H2 as [H2|H2].
    + congruence.
    + exfalso. apply Hk0. apply list_elem_of_fmap. exists (k, v').
      split; [cbn; congruence|done].
    + exfalso. apply Hk0. apply list_elem_of_fmap. exists (k, v).
      split; [cbn; congruence|done].
    + by apply IH.
Qed.

(** Deleting the keys of [rem] one after the other. *)
Definition deleteAll (rem : list (string * V)) m : list (string * V) :=
  fold_left (fun m kv => JsMap.delete (fst kv) m) rem m.

Lemma elem_of_deleteAll rem m (kv : string * V) :
  kv ∈ deleteAll rem m <-> kv ∈ m /\ fst kv ∉ JsMap.keys rem.
Proof.
  unfold deleteAll, JsMap.keys. revert m.
  induction rem as [|r rem IH]; intros m; cbn.
  - split; [|naive_solver]. intros H. split; [done|apply not_elem_of_nil].
  - rewrite IH, elem_of_delete, not_elem_of_cons. naive_solver.
Qed.



End Lemmas.
End JsMapMore.

(** ** The cache on every backend *)

Module CacheMore.
Import CacheManager.

Section Backends.
Variable JSON_stringify : CacheEntry -> string.
Variable JSON_parse : string -> option CacheEntry.

Abbreviation getEntry := (getEntry JSON_parse).
Abbreviation setEntry := (setEntry JSON_stringify).

Lemma substring_all (s : string) : String.substring 0 (String.length s) s = s.
Proof. induction s as [|a s IH]; cbn; [done|]. by rewrite IH. Qed.

Lemma stripPrefix_cache (k : string) : stripPrefix ("cache_" +:+ k) = k.
Proof.
  unfold stripPrefix. cbv [String.append]. cbn.
  rewrite ?Nat.sub_0_r. apply substring_all.
Qed.

Lemma prefix_cache (k : string) : String.prefix "cache_" ("cache_" +:+ k) = true.
Proof. cbv [String.append]. cbn. by destruct k. Qed.

Lemma cache_key_inj (k k' : string) :
  "cache_" +:+ k = "cache_" +:+ k' -> k = k'.
Proof. cbv [String.append]. congruence. Qed.

Lemma config_delete (k : string) (c : t) : config (delete k c) = config c.
Proof.
  unfold delete. destruct (storage (config c)); [done|..];
    by destruct (window c).
Qed.

Lemma getEntry_delete_ne (k k' : string) (c : t) :
  k <> k' -> getEntry k' (delete k c) = getEntry k' c.
Proof.
  intros Hne. unfold CacheManager.getEntry, delete.
  destruct (storage (config c)) eqn:Hs; cbn; rewrite ?Hs.
  - by rewrite JsMapProps.get_delete_ne.
  - destruct (window c) as [w|] eqn:Hw; cbn; rewrite ?Hs, ?Hw; [|done].
    cbn. rewrite lookup_delete_ne; [done|].
    intros He. by apply cache_key_inj in He.
  - destruct (window c) as [w|] eqn:Hw; cbn; rewrite ?Hs, ?Hw; [|done].
    cbn. by rewrite lookup_delete_ne.
Qed.

Lemma get_Some_keys (k : string) (m : list (string * CacheEntry)) e :
  JsMap.get k m = Some e -> k ∈ JsMap.keys m.
Proof.
  induction m as [|[k0 e0] m IH]; cbn; [done|].
  destruct (String.eqb_spec k0 k) as [->|Hne]; intros H.
  - apply list_elem_of_here.
  - apply list_elem_of_further. by apply IH.
Qed.

(** Every key under which something is stored is listed by [getKeys]. *)
Lemma getKeys_complete (k : string) (c : t) :
  getEntry k c <> Resolved None -> k ∈ getKeys c.
Proof.
  unfold CacheManager.getEntry, getKeys.
  destruct (storage (config c)).
  - destruct (JsMap.get k (memoryCache c)) as [e|] eqn:He; [|done].
    intros _. by apply get_Some_keys in He.
  - destruct (window c) as [w|]; [|done].
    destruct (localStorageItems w !! ("cache_" +:+ k)) as [item|] eqn:Hi;
      [|done].
    intros _. rewrite <- (stripPrefix_cache k).
    apply list_elem_of_fmap_2. apply list_elem_of_In, filter_In.
    split; [|apply prefix_cache].
    apply list_elem_of_In.
    change ("cache_" +:+ k) with (fst ("cache_" +:+ k, item)).
    apply list_elem_of_fmap_2. by apply elem_of_map_to_list.
  - destruct (window c) as [w|]; [|done].
    destruct (objectStore w !! k) as [e|] eqn:He; [|done].
    intros _. change k with (fst (k, e)).
    apply list_elem_of_fmap_2. by apply elem_of_map_to_list.
Qed.

Lemma getEntry_not_listed (k : string) (c : t) :
  k ∉ getKeys c -> getEntry k c = Resolved None.
Proof.
  intros Hk. destruct (getEntry k c) as [[e|]|e] eqn:He; [|done|];
    exfalso; apply Hk, getKeys_complete; by rewrite He.
Qed.

Lemma config_setEntry (k : string) (entry : CacheEntry) (c : t) :
  config (setEntry k entry c) = config c.
Proof.
  unfold CacheManager.setEntry. destruct (storage (config c)); [done|..];
    by destruct (window c).
Qed.

(** X11. What [setEntry] writes under a key, [getEntry] reads back under
    that key, on the memory backend and, in a browser, on localStorage
    (where [JSON.parse] has to invert [JSON.stringify] on the entry) and
    on IndexedDB (where the record is filed under its own [key] field);
    the entries under all other keys read as before. *)
Theorem setEntry_then_getEntry (c : t) (k : string) (entry : CacheEntry) :
  storage (config c) = memory \/ window c <> None ->
  key entry = k ->
  JSON_parse (JSON_stringify entry) = Some entry ->
  JSON_stringify entry <> "" ->
  getEntry k (setEntry k entry c) = Resolved (Some entry) /\
  (forall k', k' <> k -> getEntry k' (setEntry k entry c) = getEntry k' c).
Proof.
  intros Hback Hkey Hround Hne.
  unfold CacheManager.getEntry, CacheManager.setEntry.
  destruct (storage (config c)) eqn:Hs; cbn; rewrite ?Hs.
  - split; [by rewrite JsMapProps.get_set_eq|].
    intros k' Hk'. by rewrite JsMapProps.get_set_ne.
  - destruct Hback as [|Hw]; [done|].
    destruct (window c) as [w|] eqn:Hwin; [|done]. cbn. rewrite Hs. cbn.
    split.
    + rewrite lookup_insert_eq. cbn.
      destruct (String.eqb_spec (JSON_stringify entry) ""); [done|].
      cbn. by rewrite Hround.
    + intros k' Hk'. rewrite lookup_insert_ne; [done|].
      intros He. apply cache_key_inj in He. congruence.
  - destruct Hback as [|Hw]; [done|].
    destruct (window c) as [w|] eqn:Hwin; [|done]. cbn. rewrite Hs. cbn.
    rewrite Hkey. split; [by rewrite lookup_insert_eq|].
    intros k' Hk'. by rewrite lookup_insert_ne.
Qed.

Lemma filter_none {X} (f : X -> bool) (l : list X) :
  (forall x, x ∈ l -> f x = false) -> List.filter f l = [].
Proof.
  induction l as [|x l IH]; intros H; cbn; [done|].
  rewrite (H x) by apply list_elem_of_here.
  apply IH. intros y Hy. apply H. by apply list_elem_of_further.
Qed.

(** X12. After [clear], on every backend, no key is listed and every
    lookup finds nothing; in localStorage the items whose name does not
    start with [cache_] are left as they were. *)
Theorem clear_empties_every_backend (c : t) :
  getKeys (clear c) = [] /\
  (forall k, getEntry k (clear c) = Resolved None) /\
  (forall w, window c = Some w ->
     exists w', window (clear c) = Some w' /\
       forall name, String.prefix "cache_" name = false ->
         localStorageItems w' !! name = localStorageItems w !! name).
Proof.
  assert (Hkeys : getKeys (clear c) = []).
  { unfold getKeys, clear.
    destruct (storage (config c)) eqn:Hs; cbn; rewrite ?Hs; [done|..].
    - destruct (window c) as [w|] eqn:Hw; cbn; rewrite ?Hs, ?Hw; [|done].
      cbn. rewrite filter_none; [done|].
      intros name Hname. apply list_elem_of_fmap in Hname as [[n v] [-> Hin]].
      apply elem_of_map_to_list, map_lookup_filter_Some in Hin as [_ Hp].
      cbn in *. by destruct (String.prefix "cache_" n).
    - destruct (window c) as [w|] eqn:Hw; cbn; rewrite ?Hs, ?Hw; [|done].
      cbn. by rewrite map_to_list_empty. }
  split; [done|]. split.
  - intros k. apply getEntry_not_listed. rewrite Hkeys. apply not_elem_of_nil.
  - intros w Hw. unfold clear. rewrite Hw.
    destruct (storage (config c)); cbn.
    + exists w. by rewrite Hw.
    + eexists. split; [done|]. cbn. intros name Hname.
      apply option_eq. intros v. rewrite map_lookup_filter_Some. cbn.
      rewrite Hname. naive_solver.
    + eexists. split; [done|]. done.
Qed.

(** *** [invalidate] *)

Lemma invalidate_fold (test : string -> bool) (k : string)
    (ks : list string) (c : t) :
  getEntry k (fold_left (fun c k => if test k then delete k c else c) ks c)
  = if test k && bool_decide (k ∈ ks) then Resolved None else getEntry k c.
Proof.
  clear JSON_stringify.
  revert c. induction ks as [|k0 ks IH]; intros c; cbn.
  - by rewrite andb_false_r.
  - rewrite IH. destruct (test k) eqn:Htk; cbn.
    2:{ destruct (test k0) eqn:Htk0; [|done].
        apply getEntry_delete_ne. intros ->. congruence. }
    destruct (decide (k = k0)) as [->|Hne].
    + rewrite Htk. rewrite (bool_decide_true (k0 ∈ k0 :: ks))
        by apply list_elem_of_here.
      destruct (bool_decide (k0 ∈ ks)); [done|].
      apply CacheProps.getEntry_delete.
    + rewrite (bool_decide_ext (k ∈ k0 :: ks) (k ∈ ks)) by set_solver.
      destruct (bool_decide (k ∈ ks)); [done|].
      destruct (test k0); [|done]. by rewrite getEntry_delete_ne.
Qed.

(** X13. [invalidate] removes exactly the keys its pattern matches, on
    every backend: afterwards a matching key holds nothing, and every other
    key reads as before. *)
Theorem invalidate_removes_exactly_matching (test : string -> bool)
    (c : t) (k : string) :
  getEntry k (invalidate test c)
  = if test k then Resolved None else getEntry k c.
Proof.
  unfold invalidate. rewrite invalidate_fold.
  destruct (test k); [|done]. cbn.
  destruct (bool_decide_reflect (k ∈ getKeys c)) as [|Hk]; [done|].
  by apply getEntry_not_listed.
Qed.

(** *** [cleanupExpiredEntries] *)

(** What a lookup gives once expired entries are gone. *)
Definition unlessExpired (now : Z)
    (r : Outcome string (option CacheEntry))
  : Outcome string (option CacheEntry) :=
  match r with
  | Resolved (Some entry) =>
      if isExpired now entry then Resolved None else r
  | _ => r
  end.

Lemma unlessExpired_idem now r :
  unlessExpired now (unlessExpired now r) = unlessExpired now r.
Proof.
  destruct r as [[e|]|]; cbn; [|done..].
  destruct (isExpired now e) eqn:He; cbn; [done|]. by rewrite He.
Qed.

Lemma cleanupKeys_spec (now : Z) (k : string) (ks : list string) (c c' : t) :
  cleanupKeys JSON_parse now ks c = (Resolved tt, c') ->
  getEntry k c'
  = if bool_decide (k ∈ ks) then unlessExpired now (getEntry k c)
    else getEntry k c.
Proof.
  clear JSON_stringify.
  revert c. induction ks as [|k0 ks IH]; intros c; cbn.
  - by intros [= <-].
  - destruct (getEntry k0 c) as [[e0|]|err] eqn:He0; [| |done].
    + destruct (isExpired now e0) eqn:Hx.
      * intros Hrun. rewrite (IH _ Hrun).
        destruct (decide (k = k0)) as [->|Hne].
        -- rewrite (bool_decide_true (k0 ∈ k0 :: ks))
             by apply list_elem_of_here.
           rewrite CacheProps.getEntry_delete, He0. cbn. rewrite Hx.
           by destruct (bool_decide _).
        -- rewrite (bool_decide_ext (k ∈ k0 :: ks) (k ∈ ks)) by set_solver.
           by rewrite getEntry_delete_ne.
      * intros Hrun. rewrite (IH _ Hrun).
        destruct (decide (k = k0)) as [->|Hne].
        -- rewrite (bool_decide_true (k0 ∈ k0 :: ks))
             by apply list_elem_of_here.
           rewrite He0. cbn. rewrite Hx. by destruct (bool_decide _).
        -- by rewrite (bool_decide_ext (k ∈ k0 :: ks) (k ∈ ks)) by set_solver.
    + intros Hrun. rewrite (IH _ Hrun).
      destruct (decide (k = k0)) as [->|Hne].
      * rewrite (bool_decide_true (k0 ∈ k0 :: ks))
          by apply list_elem_of_here.
        rewrite He0. cbn. by destruct (bool_decide _).
      * by rewrite (bool_decide_ext (k ∈ k0 :: ks) (k ∈ ks)) by set_solver.
Qed.

Lemma storage_delete (k : string) (c : t) :
  storage (config (delete k c)) = storage (config c).
Proof. by rewrite config_delete. Qed.

Lemma cleanupKeys_resolves (now : Z) (ks : list string) (c : t) :
  storage (config c) = memory ->
  fst (cleanupKeys JSON_parse now ks c) = Resolved tt.
Proof.
  revert c. induction ks as [|k0 ks IH]; intros c Hs; cbn; [done|].
  destruct (getEntry k0 c) as [[e0|]|err] eqn:He0.
  - destruct (isExpired now e0); apply IH; by rewrite ?storage_delete.
  - by apply IH.
  - exfalso. revert He0. unfold CacheManager.getEntry. by rewrite Hs.
Qed.

(** X14. A cleanup pass that runs to its end removes exactly the expired
    entries: afterwards a key whose entry had expired holds nothing and
    every other key reads as before. (On IndexedDB a pass that runs to its
    end is one whose requests all succeeded.) On the memory backend, where
    the pass touches nothing but the map of the class, it always runs to
    its end; no such thing is stated of the other two backends. *)
Theorem cleanup_removes_exactly_expired (now : Z) (c : t) :
  (fst (cleanupExpiredEntries JSON_parse now c) = Resolved tt ->
   forall k,
     getEntry k (snd (cleanupExpiredEntries JSON_parse now c))
     = unlessExpired now (getEntry k c)) /\
  (storage (config c) = memory ->
   fst (cleanupExpiredEntries JSON_parse now c) = Resolved tt).
Proof.
  split.
  - intros Hrun k. unfold cleanupExpiredEntries in *.
    destruct (cleanupKeys JSON_parse now (getKeys c) c) as [r c'] eqn:Hc.
    cbn in *. subst r. rewrite (cleanupKeys_spec now k _ _ _ Hc).
    destruct (bool_decide_reflect (k ∈ getKeys c)) as [|Hk]; [done|].
    by rewrite (getEntry_not_listed k c Hk).
  - intros Hs. by apply cleanupKeys_resolves.
Qed.

(** *** The size bound of the in-memory map *)

Definition olderOrSame (a b : string * CacheEntry) : Prop :=
  timestamp (snd a) <= timestamp (snd b).

Lemma insertByTimestamp_perm x l : insertByTimestamp x l ≡ₚ x :: l.
Proof.
  induction l as [|y l IH]; cbn; [done|].
  destruct (_ <=? _); [done|]. rewrite IH. apply Permutation_swap.
Qed.

Lemma sortByTimestamp_perm l : sortByTimestamp l ≡ₚ l.
Proof.
  induction l as [|x l IH]; cbn; [done|].
  rewrite insertByTimestamp_perm. by rewrite IH.
Qed.

Lemma insertByTimestamp_sorted x l :
  StronglySorted olderOrSame l ->
  StronglySorted olderOrSame (insertByTimestamp x l).
Proof.
  induction 1 as [|y l Hsorted IH Hy]; cbn.
  - constructor; [constructor|constructor].
  - destruct (Z.leb_spec (timestamp (snd x)) (timestamp (snd y))) as [Hle|Hgt].
    + constructor; [by constructor|].
      constructor; [done|].
      eapply Forall_impl; [exact Hy|]. unfold olderOrSame. intros; lia.
    + constructor; [done|].
      rewrite insertByTimestamp_perm. constructor; [|done].
      unfold olderOrSame. lia.
Qed.

Lemma sortByTimestamp_sorted l :
  StronglySorted olderOrSame (sortByTimestamp l).
Proof.
  induction l as [|x l IH]; cbn; [constructor|].
  by apply insertByTimestamp_sorted.
Qed.

Lemma sorted_take_drop (l : list (string * CacheEntry)) :
  StronglySorted olderOrSame l ->
  forall n a b, a ∈ take n l -> b ∈ drop n l -> olderOrSame a b.
Proof.
  induction 1 as [|y l Hsorted IH Hy]; intros n a b Ha Hb.
  - rewrite take_nil in Ha. by apply elem_of_nil in Ha.
  - destruct n as [|n]; cbn in *; [by apply elem_of_nil in Ha|].
    apply elem_of_cons in Ha as [->|Ha]; [|by eapply IH].
    rewrite Forall_forall in Hy. apply Hy.
    eapply subseteq_drop, Hb.
Qed.

(** The entries [enforceMaxSize] takes out when the map is over its
    bound. *)
Definition evicted (c : t) : list (string * CacheEntry) :=
  take (Z.to_nat (JsMap.size (memoryCache c) - maxSize (config c)))
    (sortByTimestamp (memoryCache c)).

Lemma enforceMaxSize_unfold (c : t) :
  enforceMaxSize c
  = if maxSize (config c) <? JsMap.size (memoryCache c) then
      set_memoryCache (JsMapMore.deleteAll (evicted c) (memoryCache c)) c
    else c.
Proof. done. Qed.

Lemma config_enforceMaxSize (c : t) : config (enforceMaxSize c) = config c.
Proof. unfold enforceMaxSize. by destruct (_ <? _). Qed.


Lemma evicted_subset (c : t) kv :
  kv ∈ evicted c -> kv ∈ memoryCache c.
Proof.
  unfold evicted. intros H. apply subseteq_take in H.
  by rewrite sortByTimestamp_perm in H.
Qed.













(** X16. When [enforceMaxSize] evicts, it evicts the oldest: every entry
    it takes out of the in-memory map has a timestamp no later than that
    of every entry it keeps, and the entries it keeps were in the map. *)
Theorem enforceMaxSize_evicts_oldest (c : t) (k k' : string)
    (e e' : CacheEntry) :
  NoDup (JsMap.keys (memoryCache c)) ->
  (k, e) ∈ memoryCache c ->
  (k, e) ∉ memoryCache (enforceMaxSize c) ->
  (k', e') ∈ memoryCache (enforceMaxSize c) ->
  timestamp e <= timestamp e' /\ (k', e') ∈ memoryCache c.
Proof.
  intros Hnd Hin Hout Hkept. rewrite enforceMaxSize_unfold in *.
  destruct (_ <? _); [|done]. cbn in *.
  rewrite JsMapMore.elem_of_deleteAll in Hkept.
  destruct Hkept as [Hin' Hk']. split; [|done].
  assert (Hev : (k, e) ∈ evicted c).
  { destruct (decide (k ∈ JsMap.keys (evicted c))) as [Hk|Hk].
    - unfold JsMap.keys in Hk.
      apply list_elem_of_fmap in Hk as ([k2 e2] & Hk2 & Hin2). cbn in Hk2.
      subst k2. pose proof (evicted_subset c _ Hin2) as Hin3.
      by rewrite (JsMapMore.NoDup_keys_inj k e e2 _ Hnd Hin Hin3).
    - exfalso. apply Hout. by apply JsMapMore.elem_of_deleteAll. }
  assert (Hkeep : (k', e') ∈
            drop (Z.to_nat (JsMap.size (memoryCache c) - maxSize (config c)))
              (sortByTimestamp (memoryCache c))).
  { rewrite <- (sortByTimestamp_perm (memoryCache c)) in Hin'.
    rewrite <- (take_drop
                  (Z.to_nat (JsMap.size (memoryCache c) - maxSize (config c)))
                  (sortByTimestamp (memoryCache c))) in Hin'.
    apply elem_of_app in Hin' as [Htake|Hdrop]; [|done].
    exfalso. apply Hk'. unfold JsMap.keys. apply list_elem_of_fmap.
    by exists (k', e'). }
  exact (sorted_take_drop _ (sortByTimestamp_sorted _) _ _ _ Hev Hkeep).
Qed.

(** X17. Outside a browser the localStorage and IndexedDB backends store
    nothing: a [set] is dropped without an error, every later [get] finds
    nothing, and no key is listed. *)
Theorem persistent_backend_without_window (c : t) (now now' : Z)
    (k k' : string) (response : AxiosResponse) :
  storage (config c) <> memory ->
  window c = None ->
  let c' := set JSON_stringify now k response c in
  get JSON_parse now' k' c' = (Resolved None, c') /\
  getKeys c' = [].
Proof.
  intros Hs Hw c'.
  assert (Hc' : config c' = config c /\ window c' = None).
  { unfold c', set. destruct (_ || _); [done|].
    rewrite config_enforceMaxSize, config_setEntry. split; [done|].
    unfold enforceMaxSize, CacheManager.setEntry.
    destruct (storage (config c)); [done|..]; rewrite Hw;
      by destruct (_ <? _). }
  destruct Hc' as [Hcfg Hwin].
  unfold get, CacheManager.getEntry, getKeys. rewrite Hcfg, Hwin.
  destruct (storage (config c)); [done|..]; by destruct (negb _).
Qed.

End Backends.

(** *** The theorems at concrete caches *)

Definition entryA : CacheEntry :=
  newEntry 1000 "a" (CacheProps.r200 "A") CacheProps.lsCfg.

Definition stringifyA (entry : CacheEntry) : string := "{a}".
Definition parseA (item : string) : option CacheEntry := Some entryA.

Definition browserCache : t :=
  new CacheProps.lsCfg CacheProps.emptyBrowser.

Lemma setEntry_then_getEntry_witness :
  getEntry parseA "a" (setEntry stringifyA "a" entryA browserCache)
  = Resolved (Some entryA).
Proof.
  apply (setEntry_then_getEntry stringifyA parseA browserCache "a" entryA).
  - right. discriminate.
  - reflexivity.
  - reflexivity.
  - discriminate.
Defined.

(** Two entries in memory, written at 1000 and at 1001 with a ttl of
    100. *)
Definition twoInMemory : t :=
  set CacheProps.noStringify 1001 "b" (CacheProps.r200 "B")
    (set CacheProps.noStringify 1000 "a" (CacheProps.r200 "A")
       (new CacheProps.memCfg None)).

Lemma cleanup_removes_exactly_expired_witness :
  getEntry CacheProps.noParse "a"
    (snd (cleanupExpiredEntries CacheProps.noParse 1101 twoInMemory))
  = Resolved None /\
  getEntry CacheProps.noParse "b"
    (snd (cleanupExpiredEntries CacheProps.noParse 1101 twoInMemory))
  = getEntry CacheProps.noParse "b" twoInMemory.
Proof.
  destruct (cleanup_removes_exactly_expired CacheProps.noParse 1101
              twoInMemory) as [Hexact Hruns].
  assert (Hdone := Hruns eq_refl).
  split; rewrite (Hexact Hdone); reflexivity.
Defined.



Definition entryB : CacheEntry :=
  newEntry 1001 "b" (CacheProps.r200 "B") CacheProps.mem1Cfg.

(** A map of two entries under a bound of one, as [set] leaves it before
    it calls [enforceMaxSize]. *)
Definition overfull : t :=
  {| memoryCache := [("b", entryB); ("a", entryA)];
     config := CacheProps.mem1Cfg; window := None |}.

Lemma enforceMaxSize_evicts_oldest_witness :
  timestamp entryA <= timestamp entryB /\
  ("b", entryB) ∈ memoryCache overfull.
Proof.
  apply (enforceMaxSize_evicts_oldest overfull "a" "b" entryA entryB).
  - cbn. apply NoDup_cons. split; [|apply NoDup_singleton].
    intros H. apply list_elem_of_singleton in H. discriminate.
  - cbn. apply list_elem_of_further, list_elem_of_here.
  - vm_compute. intros H. apply list_elem_of_singleton in H. discriminate.
  - vm_compute. apply list_elem_of_here.
Defined.

Lemma persistent_backend_without_window_witness :
  get parseA 1001 "a"
    (set stringifyA 1000 "a" (CacheProps.r200 "A")
       (new CacheProps.lsCfg None))
  = (Resolved None,
     set stringifyA 1000 "a" (CacheProps.r200 "A")
       (new CacheProps.lsCfg None)).
Proof.
  apply (persistent_backend_without_window stringifyA parseA
           (new CacheProps.lsCfg None) 1000 1001 "a" "a"
           (CacheProps.r200 "A")).
  - discriminate.
  - reflexivity.
Defined.

End CacheMore.

(** ** The auth handler: refresh requests and the paths around them *)

Module AuthMore.
Import Runtime Frame.

Section Refresh.
Context {A : Type}.
Variable fetch : string -> string -> Callback (A := A) AuthConfig.FetchResponse.
Implicit Types (cfg : AuthConfig.t A) (w : World A).

(** The endpoint a refresh request goes to. *)
Definition endpointOf (rc : AuthConfig.RefreshConfig A) : string :=
  if truthy_string (AuthConfig.refreshEndpoint rc)
  then default "" (AuthConfig.refreshEndpoint rc)
  else "/auth/refresh".

Lemma getRefreshToken_keeps_fetchCalls cfg :
  keeps fetchCalls (AuthHandler.getRefreshToken cfg).
Proof.
  unfold AuthHandler.getRefreshToken.
  destruct (AuthConfig.refreshToken cfg) as [rc|]; [|apply keeps_getItem].
  destruct (AuthConfig.getRefreshToken rc);
    [by apply keeps_lift | apply keeps_getItem].
Qed.

Lemma truthy_string_Some (o : option string) :
  truthy_string o = true -> exists s, o = Some s /\ s <> "".
Proof.
  destruct o as [s|]; cbn; [|done]. intros H. exists s. split; [done|].
  by apply negb_true_iff, String.eqb_neq in H.
Qed.

Lemma bind_run {X Y} (m : Async.M (S := World A) X)
    (k : X -> Async.M Y) w :
  Async.bind m k w
  = match m w with
    | (Resolved x, w1) => k x w1
    | (Rejected e, w1) => (Rejected e, w1)
    end.
Proof. done. Qed.

Lemma try_catch_run {X} (m : Async.M (S := World A) X)
    (h : Thrown -> Async.M X) w :
  Async.try_catch m h w
  = match m w with
    | (Resolved x, w1) => (Resolved x, w1)
    | (Rejected e, w1) => h e w1
    end.
Proof. done. Qed.

Lemma performTokenRefresh_fetchCalls cfg w :
  let w' := snd (AuthHandler.performTokenRefresh fetch cfg w) in
  fetchCalls w' = fetchCalls w \/
  exists rc rt,
    AuthConfig.refreshToken cfg = Some rc /\ rt <> "" /\
    fetchCalls w' = fetchCalls w ++ [(endpointOf rc, rt)].
Proof.
  unfold AuthHandler.performTokenRefresh.
  destruct (AuthConfig.refreshToken cfg) as [rc|] eqn:Hrc; [|by left].
  assert (Hfail : forall e w1,
            fetchCalls
              (snd ((await _ := call (AuthConfig.onRefreshFailed rc) in
                     Async.throw (X := option string) e) w1))
            = fetchCalls w1).
  { intros e w1.
    apply (keeps_bind fetchCalls); [by apply keeps_call|].
    intros _. apply keeps_throw. }
  cbv zeta. rewrite try_catch_run, bind_run.
  pose proof (getRefreshToken_keeps_fetchCalls cfg w) as Hget.
  destruct (AuthHandler.getRefreshToken cfg w) as [[rt|e] w1]; cbn in Hget.
  2:{ left. by rewrite Hfail. }
  destruct (truthy_string rt) eqn:Hrt; cbn [negb].
  2:{ left. unfold Async.throw at 1. by rewrite Hfail. }
  apply truthy_string_Some in Hrt as (tok & -> & Htok).
  right. exists rc, tok. split; [done|]. split; [done|].
  fold (endpointOf rc). cbn [default]. change (id tok) with tok.
  rewrite bind_run.
  assert (Hfetch : fetchCalls (snd (AuthHandler.doFetch fetch
                                      (endpointOf rc) tok w1))
                   = fetchCalls w ++ [(endpointOf rc, tok)]).
  { unfold AuthHandler.doFetch.
    destruct (fetch (endpointOf rc) tok (app w1)). cbn. by rewrite Hget. }
  destruct (AuthHandler.doFetch fetch (endpointOf rc) tok w1)
    as [[resp|e] w2]; cbn in Hfetch.
  2:{ by rewrite Hfail. }
  destruct (AuthConfig.ok resp); cbn [negb].
  2:{ unfold Async.throw at 1. by rewrite Hfail. }
  lazymatch goal with
  | |- context [Async.bind ?m ?k w2] =>
      assert (Hcb : keeps fetchCalls m)
        by (destruct (AuthConfig.onRefreshSuccess rc);
            [by apply keeps_lift | apply keeps_ret]);
      specialize (Hcb w2); rewrite bind_run;
      destruct (m w2) as [[[]|e] w3]; cbn in Hcb
  end.
  - cbn. by rewrite Hcb.
  - by rewrite Hfail, Hcb.
Qed.

(** X18. One run of [performTokenRefresh] hands nothing to the transport
    of the instance, and what it sends to the refresh endpoint is fixed by
    the refresh token it looks up. With no [refreshToken] configuration it
    resolves to [null] and touches nothing. Otherwise, when the lookup
    gives a non-empty token, exactly one request is sent: it carries that
    token and goes to the configured endpoint, or to [/auth/refresh] when
    none is configured; when the lookup gives no token, or an empty one,
    or throws, no request is sent. *)
Theorem performTokenRefresh_sends_the_looked_up_token cfg w :
  let w' := snd (AuthHandler.performTokenRefresh fetch cfg w) in
  sent w' = sent w /\
  match AuthConfig.refreshToken cfg with
  | None => AuthHandler.performTokenRefresh fetch cfg w = (Resolved None, w)
  | Some rc =>
      match fst (AuthHandler.getRefreshToken cfg w) with
      | Resolved rt =>
          fetchCalls w'
          = fetchCalls w
            ++ (if truthy_string rt then [(endpointOf rc, default "" rt)]
                else [])
      | Rejected _ => fetchCalls w' = fetchCalls w
      end
  end.
Proof.
  split; [apply AuthProps.performTokenRefresh_keeps_sent|].
  unfold AuthHandler.performTokenRefresh.
  destruct (AuthConfig.refreshToken cfg) as [rc|] eqn:Hrc; [|done].
  assert (Hfail : forall e w1,
            fetchCalls
              (snd ((await _ := call (AuthConfig.onRefreshFailed rc) in
                     Async.throw (X := option string) e) w1))
            = fetchCalls w1).
  { intros e w1.
    apply (keeps_bind fetchCalls); [by apply keeps_call|].
    intros _. apply keeps_throw. }
  cbv zeta. rewrite try_catch_run, bind_run.
  pose proof (getRefreshToken_keeps_fetchCalls cfg w) as Hget.
  destruct (AuthHandler.getRefreshToken cfg w) as [[rt|e] w1];
    cbn in Hget; cbn [fst].
  2:{ by rewrite Hfail. }
  destruct (truthy_string rt) eqn:Hrt; cbn [negb].
  2:{ unfold Async.throw at 1. by rewrite Hfail, app_nil_r. }
  fold (endpointOf rc). rewrite bind_run.
  assert (Hfetch : fetchCalls (snd (AuthHandler.doFetch fetch
                                      (endpointOf rc) (default "" rt) w1))
                   = fetchCalls w ++ [(endpointOf rc, default "" rt)]).
  { unfold AuthHandler.doFetch.
    destruct (fetch (endpointOf rc) (default "" rt) (app w1)). cbn.
    by rewrite Hget. }
  destruct (AuthHandler.doFetch fetch (endpointOf rc) (default "" rt) w1)
    as [[resp|e] w2]; cbn in Hfetch.
  2:{ by rewrite Hfail. }
  destruct (AuthConfig.ok resp); cbn [negb].
  2:{ unfold Async.throw at 1. by rewrite Hfail. }
  lazymatch goal with
  | |- context [Async.bind ?m ?k w2] =>
      assert (Hcb : keeps fetchCalls m)
        by (destruct (AuthConfig.onRefreshSuccess rc);
            [by apply keeps_lift | apply keeps_ret]);
      specialize (Hcb w2); rewrite bind_run;
      destruct (m w2) as [[[]|e] w3]; cbn in Hcb
  end.
  - cbn. by rewrite Hcb.
  - by rewrite Hfail, Hcb.
Qed.

(** X19. A 401 whose refresh brings no token, because it fails or because
    the endpoint answers without one, ends in the token-expiration path:
    a failure is logged with one warning, then [onTokenExpired] is called
    or, without it, the token is removed; the flag is cleared and the call
    returns the error it was given. With no callbacks configured the token
    is removed from localStorage. *)
Theorem unauthorized_refresh_without_token (s : AuthHandler.State)
    (error : AxiosError) r refreshed w3 :
  let cfg := AuthHandler.config (AuthHandler.handler s) in
  AuthConfig.enabled cfg = true ->
  AuthHandler.refreshEnabled cfg = true ->
  AuthHandler.isRefreshing (AuthHandler.handler s) = false ->
  AuthHandler.waiting s = [] ->
  response error = Some r -> status r = 401 ->
  AuthHandler.performTokenRefresh fetch cfg (AuthHandler.world s)
  = (refreshed, w3) ->
  (forall tok, refreshed = Resolved tok -> truthy_string tok = false) ->
  let w3' := match refreshed with
             | Rejected _ => snd (warn w3)
             | Resolved _ => w3
             end in
  let expired := AuthHandler.handleTokenExpiration cfg w3' in
  AuthHandler.handleAuthError fetch error s
  = (match fst expired with
     | Resolved _ => Resolved error
     | Rejected e => Rejected e
     end,
     AuthHandler.mkState
       (AuthHandler.mk cfg false None
          (S (AuthHandler.refreshes (AuthHandler.handler s))))
       (snd expired) []) /\
  (AuthConfig.onTokenExpired cfg = None ->
   AuthConfig.removeToken cfg = None ->
   localStorage (snd expired)
   = delete (AuthConfig.tokenKey cfg) <$> localStorage w3).
Proof.
  intros cfg Hen Hren Hnot Hwait Hresp H401 Hrefresh Hnotok w3' expired.
  split.
  - unfold AuthHandler.handleAuthError, AuthHandler.handleAuthError_begin.
    fold cfg. rewrite Hen, Hresp. cbn [negb].
    rewrite H401. cbn [Z.eqb Pos.eqb].
    unfold AuthHandler.handleUnauthorized_begin. fold cfg.
    rewrite Hren, Hnot. cbn [negb andb].
    unfold AuthHandler.refreshToken_begin. rewrite Hnot, Hwait.
    cbn [andb app].
    unfold AuthHandler.refreshSettles.
    cbn [AuthHandler.handler AuthHandler.refreshPromise AuthHandler.world
         AuthHandler.config AuthHandler.waiting].
    fold cfg. rewrite Hrefresh. rewrite app_nil_l.
    cbn [AuthHandler.resume AuthHandler.owns
         AuthHandler.refreshToken_finally AuthHandler.config AuthHandler.task
         AuthHandler.authError AuthHandler.refreshes].
    fold cfg.
    assert (Hresume :
              AuthHandler.handleUnauthorized_resume cfg refreshed w3
              = expired).
    { unfold AuthHandler.handleUnauthorized_resume.
      rewrite bind_run, try_catch_run, bind_run. unfold Async.settled.
      subst expired w3'. destruct refreshed as [tok|e].
      - by rewrite (Hnotok tok eq_refl).
      - done. }
    rewrite Hresume. destruct expired as [[[]|e] w4]; done.
  - intros Hexp Hrem. subst expired.
    unfold AuthHandler.handleTokenExpiration, AuthHandler.removeToken.
    rewrite Hexp, Hrem. subst w3'. by destruct refreshed.
Qed.

Lemma handleForbidden_keeps cfg w :
  let w' := snd (AuthHandler.handleForbidden cfg w) in
  localStorage w' = localStorage w /\ fetchCalls w' = fetchCalls w /\
  sent w' = sent w /\ warnings w' = warnings w.
Proof.
  unfold AuthHandler.handleForbidden, call.
  destruct (AuthConfig.onUnauthorized cfg) as [cb|]; [|done].
  unfold lift. by destruct (cb (app w)).
Qed.

(** X20. An error that is not a 401 never touches the token or the
    refresh: the handler, the waiting calls, localStorage and the logs of
    refresh requests, sent requests and warnings stay as they are, and the
    call returns the error it was given, unless the status is 403 and
    [onUnauthorized] throws. *)
Theorem other_errors_leave_auth_alone (s : AuthHandler.State)
    (error : AxiosError) :
  (forall r, response error = Some r -> status r <> 401) ->
  let res := AuthHandler.handleAuthError fetch error s in
  AuthHandler.handler (snd res) = AuthHandler.handler s /\
  AuthHandler.waiting (snd res) = AuthHandler.waiting s /\
  localStorage (AuthHandler.world (snd res))
  = localStorage (AuthHandler.world s) /\
  fetchCalls (AuthHandler.world (snd res))
  = fetchCalls (AuthHandler.world s) /\
  sent (AuthHandler.world (snd res)) = sent (AuthHandler.world s) /\
  warnings (AuthHandler.world (snd res)) = warnings (AuthHandler.world s) /\
  (fst res = Resolved error \/
   exists e r, fst res = Rejected e /\ response error = Some r /\
     status r = 403 /\
     is_Some (AuthConfig.onUnauthorized
                (AuthHandler.config (AuthHandler.handler s)))).
Proof.
  intros Hnot401. unfold AuthHandler.handleAuthError,
    AuthHandler.handleAuthError_begin.
  destruct (negb _); [cbn; by repeat split; try left|].
  destruct (response error) as [r|] eqn:Hresp;
    [|cbn; by repeat split; try left].
  destruct (Z.eqb_spec (status r) 401) as [H401|_];
    [by apply Hnot401 in H401|].
  destruct (Z.eqb_spec (status r) 403) as [H403|_];
    [|cbn; by repeat split; try left].
  pose proof (handleForbidden_keeps
                (AuthHandler.config (AuthHandler.handler s))
                (AuthHandler.world s)) as (Hls & Hfc & Hsent & Hwarn).
  assert (Hcb : forall e w,
            AuthHandler.handleForbidden
              (AuthHandler.config (AuthHandler.handler s))
              (AuthHandler.world s) = (Rejected e, w) ->
            is_Some (AuthConfig.onUnauthorized
                       (AuthHandler.config (AuthHandler.handler s)))).
  { intros e w. unfold AuthHandler.handleForbidden, call.
    by destruct (AuthConfig.onUnauthorized _). }
  destruct (AuthHandler.handleForbidden _ _) as [[[]|e] w] eqn:Hforb;
    cbn in *.
  - repeat split; try done. by left.
  - repeat split; try done. right. exists e, r. repeat split; try done.
    by eapply Hcb.
Qed.

(** *** One refresh at a time *)

(** The handler is idle with nobody waiting, or one refresh is pending
    and the call that started it is the only one waiting; [base] refresh
    requests had been sent before the handler was made. *)
Definition singleFlight (base : nat) (s : AuthHandler.State (A := A))
  : Prop :=
  let h := AuthHandler.handler s in
  match AuthHandler.refreshPromise h with
  | None =>
      AuthHandler.isRefreshing h = false /\ AuthHandler.waiting s = [] /\
      (length (fetchCalls (AuthHandler.world s))
       <= base + AuthHandler.refreshes h)%nat
  | Some _ =>
      AuthHandler.isRefreshing h = true /\
      (exists x, AuthHandler.waiting s = [x] /\ AuthHandler.owns x = true) /\
      (S (length (fetchCalls (AuthHandler.world s)))
       <= base + AuthHandler.refreshes h)%nat
  end.

Lemma handleTokenExpiration_keeps_fetchCalls cfg w :
  fetchCalls (snd (AuthHandler.handleTokenExpiration cfg w)) = fetchCalls w.
Proof.
  apply (AuthProps.handleTokenExpiration_keeps (@fetchCalls A) cfg
           fetchCalls_reads_logs).
Qed.

Lemma handleUnauthorized_resume_keeps_fetchCalls cfg refreshed :
  keeps fetchCalls (AuthHandler.handleUnauthorized_resume cfg refreshed).
Proof.
  unfold AuthHandler.handleUnauthorized_resume.
  apply keeps_bind.
  - apply keeps_try_catch.
    + apply keeps_bind; [apply keeps_settled|].
      intros tok. destruct (truthy_string tok); [|apply keeps_ret].
      apply keeps_bind; [|intros _; apply keeps_ret].
      apply (AuthProps.setToken_keeps (@fetchCalls A) cfg _
               fetchCalls_reads_logs).
    + intros e. apply keeps_bind; [by apply keeps_warn|].
      intros _. apply keeps_ret.
  - intros stored. destruct stored; [apply keeps_ret|].
    intros w. apply handleTokenExpiration_keeps_fetchCalls.
Qed.

Lemma singleFlight_step base (s : AuthHandler.State (A := A)) ev :
  singleFlight base s -> singleFlight base (snd (AuthHandler.step fetch s ev)).
Proof.
  intros Hinv. destruct ev as [tk error|]; cbn [AuthHandler.step].
  - assert (Hbegin : singleFlight base
                       (snd (AuthHandler.handleAuthError_begin tk error s))).
    { unfold AuthHandler.handleAuthError_begin.
      destruct (negb _); [done|].
      destruct (response error) as [r|]; [|done].
      destruct (status r =? 401).
      - assert (Hun : singleFlight base
                        (snd (AuthHandler.handleUnauthorized_begin tk error s))).
        { unfold AuthHandler.handleUnauthorized_begin.
          destruct (AuthHandler.refreshEnabled _); cbn [andb].
          - destruct (AuthHandler.isRefreshing (AuthHandler.handler s))
              eqn:Hflag; cbn [negb].
            + pose proof (handleTokenExpiration_keeps_fetchCalls
                            (AuthHandler.config (AuthHandler.handler s))
                            (AuthHandler.world s)) as Hk.
              destruct (AuthHandler.handleTokenExpiration _ _) as [o w].
              cbn in *. unfold singleFlight in *. cbn. by rewrite Hk.
            + cbn [snd]. unfold AuthHandler.refreshToken_begin.
              rewrite Hflag. cbn [andb]. unfold singleFlight in *. cbn.
              destruct (AuthHandler.refreshPromise (AuthHandler.handler s));
                [destruct Hinv as [? _]; congruence|].
              destruct Hinv as (_ & -> & Hlen).
              split; [done|]. split; [by eexists|]. lia.
          - pose proof (handleTokenExpiration_keeps_fetchCalls
                          (AuthHandler.config (AuthHandler.handler s))
                          (AuthHandler.world s)) as Hk.
            destruct (AuthHandler.handleTokenExpiration _ _) as [o w].
            cbn in *. unfold singleFlight in *. cbn. by rewrite Hk. }
        by destruct (AuthHandler.handleUnauthorized_begin tk error s)
          as [[[|]|] s'].
      - destruct (status r =? 403); [|done].
        pose proof (handleForbidden_keeps
                      (AuthHandler.config (AuthHandler.handler s))
                      (AuthHandler.world s)) as (_ & Hk & _).
        destruct (AuthHandler.handleForbidden _ _) as [o w].
        cbn in *. unfold singleFlight in *. cbn. by rewrite Hk. }
    by destruct (AuthHandler.handleAuthError_begin tk error s) as [[o|] s'].
  - unfold AuthHandler.refreshSettles.
    destruct (AuthHandler.refreshPromise (AuthHandler.handler s)) as [p|]
      eqn:Hp; [|done].
    unfold singleFlight in Hinv. rewrite Hp in Hinv.
    destruct Hinv as (Hflag & (x & Hwait & Hown) & Hlen).
    pose proof (performTokenRefresh_fetchCalls
                  (AuthHandler.config (AuthHandler.handler s))
                  (AuthHandler.world s)) as Hone.
    destruct (AuthHandler.performTokenRefresh fetch _ _) as [refreshed w1].
    cbn in Hone. rewrite Hwait. cbn [AuthHandler.resume]. rewrite Hown.
    pose proof (handleUnauthorized_resume_keeps_fetchCalls
                  (AuthHandler.config
                     (AuthHandler.refreshToken_finally (AuthHandler.handler s)))
                  refreshed w1) as Hk.
    destruct (AuthHandler.handleUnauthorized_resume _ refreshed w1)
      as [o w2]. cbn in Hk |- *.
    unfold singleFlight. cbn. split; [done|]. split; [done|].
    rewrite Hk. destruct Hone as [->|(rc & rt & _ & _ & ->)];
      rewrite ?length_app; cbn; lia.
Qed.

Lemma singleFlight_run base evs (s : AuthHandler.State (A := A)) :
  singleFlight base s -> singleFlight base (snd (AuthHandler.run fetch s evs)).
Proof.
  revert s. induction evs as [|ev evs IH]; intros s Hinv; [done|].
  cbn [AuthHandler.run].
  pose proof (singleFlight_step base s ev Hinv) as Hstep.
  destruct (AuthHandler.step fetch s ev) as [rs1 s1]. cbn in Hstep.
  specialize (IH s1 Hstep).
  by destruct (AuthHandler.run fetch s1 evs) as [rs2 s2].
Qed.

(** X21. Refreshes are single-flight. Whatever 401s, other errors and
    settlements reach a new handler, in any order: at most one call is
    waiting for a refresh, the flag is set exactly while a refresh is
    pending, and the refresh endpoint has received no more requests than
    refreshes were started. *)
Theorem refresh_is_single_flight (cfg : AuthConfig.t A) (w : World A)
    (evs : list AuthHandler.Event) :
  let s := snd (AuthHandler.run fetch
                  (AuthHandler.mkState (AuthHandler.new cfg) w []) evs) in
  (length (AuthHandler.waiting s) <= 1)%nat /\
  (AuthHandler.isRefreshing (AuthHandler.handler s) = true <->
   is_Some (AuthHandler.refreshPromise (AuthHandler.handler s))) /\
  (length (fetchCalls (AuthHandler.world s))
   <= length (fetchCalls w) + AuthHandler.refreshes (AuthHandler.handler s))%nat.
Proof.
  intros s.
  assert (Hinv : singleFlight (length (fetchCalls w)) s).
  { apply singleFlight_run. unfold singleFlight. cbn. split; [done|].
    split; [done|]. lia. }
  unfold singleFlight in Hinv.
  destruct (AuthHandler.refreshPromise (AuthHandler.handler s)) as [p|].
  - destruct Hinv as (-> & (x & -> & _) & Hlen). cbn.
    split; [lia|]. split; [|lia]. split; [by eexists|done].
  - destruct Hinv as (-> & -> & Hlen). cbn.
    split; [lia|]. split; [|lia]. split; [done|]. by intros [? ?].
Qed.

End Refresh.

(** *** One request, one transport call *)

Section Interceptors.
Context {A : Type}.
Variable fetch : string -> string -> Callback (A := A) AuthConfig.FetchResponse.
Variable notificationMessage : AxiosError -> string.
Variable adapter : AxiosRequestConfig -> Callback (A := A) AxiosResponse.
Implicit Types (cfg : AuthConfig.t A) (w : World A).

Lemma handleUnauthorized_resume_keeps_sent cfg refreshed :
  keeps sent (AuthHandler.handleUnauthorized_resume cfg refreshed).
Proof.
  unfold AuthHandler.handleUnauthorized_resume.
  apply keeps_bind.
  - apply keeps_try_catch.
    + apply keeps_bind; [apply keeps_settled|].
      intros tok. destruct (truthy_string tok); [|apply keeps_ret].
      apply keeps_bind; [|intros _; apply keeps_ret].
      apply (AuthProps.setToken_keeps (@sent A) cfg _ sent_reads_logs).
    + intros e. apply keeps_bind; [apply keeps_warn, sent_reads_logs|].
      intros _. apply keeps_ret.
  - intros stored. destruct stored; [apply keeps_ret|].
    apply (AuthProps.handleTokenExpiration_keeps (@sent A) cfg
             sent_reads_logs).
Qed.

Lemma resume_keeps_sent refreshed ws (h : AuthHandler.t (A := A)) w :
  sent (snd (AuthHandler.resume refreshed ws h w)) = sent w.
Proof.
  revert h w. induction ws as [|x ws IH]; intros h w; [done|].
  cbn [AuthHandler.resume].
  pose proof (handleUnauthorized_resume_keeps_sent
                (AuthHandler.config
                   (if AuthHandler.owns x
                    then AuthHandler.refreshToken_finally h else h))
                refreshed w) as Hk.
  destruct (AuthHandler.handleUnauthorized_resume _ refreshed w) as [r w1].
  specialize (IH (if AuthHandler.owns x
                  then AuthHandler.refreshToken_finally h else h) w1).
  destruct (AuthHandler.resume refreshed ws _ w1) as [[rs h2] w2].
  cbn in *. congruence.
Qed.

Lemma handleAuthError_keeps_sent (s : AuthHandler.State (A := A)) error :
  sent (AuthHandler.world (snd (AuthHandler.handleAuthError fetch error s)))
  = sent (AuthHandler.world s).
Proof.
  assert (Hexp : forall s0 : AuthHandler.State (A := A),
            sent (snd (AuthHandler.handleTokenExpiration
                         (AuthHandler.config (AuthHandler.handler s0))
                         (AuthHandler.world s0)))
            = sent (AuthHandler.world s0)).
  { intros s0. apply (AuthProps.handleTokenExpiration_keeps (@sent A) _
                        sent_reads_logs). }
  assert (Hbegin :
            sent (AuthHandler.world
                    (snd (AuthHandler.handleAuthError_begin 0 error s)))
            = sent (AuthHandler.world s)).
  { unfold AuthHandler.handleAuthError_begin.
    destruct (negb _); [done|].
    destruct (response error) as [r|]; [|done].
    destruct (status r =? 401).
    - assert (Hun :
                sent (AuthHandler.world
                        (snd (AuthHandler.handleUnauthorized_begin 0 error s)))
                = sent (AuthHandler.world s)).
      { unfold AuthHandler.handleUnauthorized_begin.
        destruct (_ && _).
        - unfold AuthHandler.refreshToken_begin. by destruct (_ && _).
        - specialize (Hexp s).
          by destruct (AuthHandler.handleTokenExpiration _ _). }
      by destruct (AuthHandler.handleUnauthorized_begin 0 error s)
        as [[[|]|] s'].
    - destruct (status r =? 403); [|done].
      pose proof (AuthMore.handleForbidden_keeps
                    (AuthHandler.config (AuthHandler.handler s))
                    (AuthHandler.world s)) as (_ & _ & Hk & _).
      by destruct (AuthHandler.handleForbidden _ _). }
  unfold AuthHandler.handleAuthError.
  destruct (AuthHandler.handleAuthError_begin 0 error s) as [[o|] s1];
    cbn in Hbegin; [done|].
  unfold AuthHandler.refreshSettles.
  destruct (AuthHandler.refreshPromise (AuthHandler.handler s1));
    [|done].
  pose proof (AuthProps.performTokenRefresh_keeps_sent fetch
                (AuthHandler.config (AuthHandler.handler s1))
                (AuthHandler.world s1)) as Hp.
  destruct (AuthHandler.performTokenRefresh fetch _ _) as [refreshed w1].
  pose proof (resume_keeps_sent refreshed (AuthHandler.waiting s1)
                (AuthHandler.handler s1) w1) as Hr.
  destruct (AuthHandler.resume refreshed _ _ w1) as [[rs h2] w2].
  cbn in *. congruence.
Qed.

(** What the request interceptor hands on: the config with the
    [Authorization] header when auth is enabled and the lookup gave a
    non-empty token, the config as it came otherwise. *)
Lemma addAuthHeader_result cfg (config : AxiosRequestConfig) w :
  fst (AuthHandler.addAuthHeader cfg config w)
  = Resolved
      (if AuthConfig.enabled cfg then
         match fst (AuthHandler.getToken cfg w) with
         | Resolved tok =>
             if truthy_string tok
             then AuthProps.withAuthorization cfg config (default "" tok)
             else config
         | Rejected _ => config
         end
       else config).
Proof.
  unfold AuthHandler.addAuthHeader.
  destruct (AuthConfig.enabled cfg); cbn [negb]; [|done].
  rewrite AuthMore.try_catch_run, AuthMore.bind_run.
  destruct (AuthHandler.getToken cfg w) as [[tok|e] w1]; cbn [fst]; [|done].
  by destruct (truthy_string tok).
Qed.

Lemma handleError_rejects errorConfig error w :
  ErrorHandler.transformError errorConfig = None ->
  exists e,
    fst (ErrorHandler.handleError (A := A) notificationMessage errorConfig
           error w)
    = Rejected e.
Proof.
  intros Hnone. unfold ErrorHandler.handleError. rewrite Hnone.
  rewrite AuthMore.bind_run.
  destruct (ErrorHandler.handleSpecificError errorConfig error w)
    as [[[]|e] w1]; [|by eexists].
  rewrite AuthMore.bind_run.
  destruct (ErrorHandler.callWith _ error w1) as [[[]|e] w2]; [|by eexists].
  lazymatch goal with
  | |- context [Async.bind ?m ?k w2] =>
      rewrite AuthMore.bind_run; destruct (m w2) as [[[]|e] w3]
  end; by eexists.
Qed.

(** X22. One call of [request] hands exactly one request to the
    transport, whatever the outcome, and it is the one the request
    interceptor produced: the config it was given with the [Authorization]
    header set to the prefix and the token when auth is enabled and the
    token lookup gave a non-empty token, the config unchanged in every
    other case (auth disabled, no token, an empty token, a lookup that
    throws). No path through the response interceptor (refresh, token
    expiration, error callbacks) sends it again. A response of the
    transport is the response the caller receives; without
    [transformError], a response the caller receives is the one the
    transport gave, to that request, in the world the request interceptor
    left. *)
Theorem request_calls_transport_once
    (errorConfig : ErrorHandler.ErrorConfig A) (config : AxiosRequestConfig)
    (s : AuthHandler.State (A := A)) :
  let cfg := AuthHandler.config (AuthHandler.handler s) in
  let res := AxiosInterceptor.request fetch notificationMessage adapter
               errorConfig config s in
  let config1 :=
    if AuthConfig.enabled cfg then
      match fst (AuthHandler.getToken cfg (AuthHandler.world s)) with
      | Resolved tok =>
          if truthy_string tok
          then AuthProps.withAuthorization cfg config (default "" tok)
          else config
      | Rejected _ => config
      end
    else config in
  let w1 := snd (AuthHandler.addAuthHeader cfg config (AuthHandler.world s)) in
  fst (AuthHandler.addAuthHeader cfg config (AuthHandler.world s))
  = Resolved config1 /\
  sent (AuthHandler.world (snd res))
  = sent (AuthHandler.world s) ++ [config1] /\
  (forall response,
     fst (AxiosInterceptor.dispatchRequest adapter config1 w1)
     = Resolved response ->
     fst res = Resolved response) /\
  (ErrorHandler.transformError errorConfig = None ->
   forall response, fst res = Resolved response ->
     fst (AxiosInterceptor.dispatchRequest adapter config1 w1)
     = Resolved response).
Proof.
  cbv zeta. unfold AxiosInterceptor.request.
  pose proof (addAuthHeader_result
                (AuthHandler.config (AuthHandler.handler s)) config
                (AuthHandler.world s)) as Hadd.
  pose proof (AuthProps.addAuthHeader_keeps_sent
                (AuthHandler.config (AuthHandler.handler s)) config
                (AuthHandler.world s)) as Hs1.
  destruct (AuthHandler.addAuthHeader _ config (AuthHandler.world s))
    as [r1 w1].
  cbn [fst snd] in Hadd, Hs1 |- *. subst r1.
  lazymatch goal with
  | |- Resolved ?c = _ /\ _ => set (config1 := c)
  end.
  split; [done|].
  pose proof (AuthProps.dispatchRequest_sent adapter config1 w1) as Hs2.
  destruct (AxiosInterceptor.dispatchRequest adapter config1 w1)
    as [[response|thrown] w2]; cbn [fst snd] in Hs2 |- *.
  - cbn. split; [congruence|]. split; [done|]. by intros _ r [= ->].
  - pose proof (handleAuthError_keeps_sent
                  (AxiosInterceptor.withWorld s w2) (asAxiosError thrown))
      as Hs3.
    destruct (AuthHandler.handleAuthError fetch _ _) as [[e3|e3] s3];
      cbn in Hs3.
    + pose proof (AuthProps.handleError_keeps_sent notificationMessage
                    errorConfig (asAxiosError thrown)
                    (AuthHandler.world s3)) as Hs4.
      pose proof (handleError_rejects errorConfig (asAxiosError thrown)
                    (AuthHandler.world s3)) as Hrej.
      destruct (ErrorHandler.handleError _ _ _ _) as [r w4]. cbn in *.
      split; [congruence|]. split; [done|].
      intros Hnone response Hr. destruct (Hrej Hnone) as [e He]. congruence.
    + cbn. split; [congruence|]. split; [done|]. by intros _ r.
Qed.

End Interceptors.

(** *** The theorems on the browser session of [AuthProps] *)

Lemma unauthorized_refresh_without_token_witness :
  fst (AuthHandler.handleAuthError AuthProps.fetchDown AuthProps.e401
         AuthProps.session)
  = Resolved AuthProps.e401 /\
  AuthProps.tokenIn
    (snd (AuthHandler.handleAuthError AuthProps.fetchDown AuthProps.e401
            AuthProps.session))
  = None.
Proof.
  destruct (unauthorized_refresh_without_token AuthProps.fetchDown
              AuthProps.session AuthProps.e401 (mkResponse 401 "" ∅)
              (fst (AuthHandler.performTokenRefresh AuthProps.fetchDown
                      AuthProps.browserAuth
                      (AuthHandler.world AuthProps.session)))
              (snd (AuthHandler.performTokenRefresh AuthProps.fetchDown
                      AuthProps.browserAuth
                      (AuthHandler.world AuthProps.session))))
    as [Hcall _].
  - reflexivity.
  - reflexivity.
  - reflexivity.
  - reflexivity.
  - reflexivity.
  - reflexivity.
  - reflexivity.
  - intros tok Htok. vm_compute in Htok. discriminate.
  - rewrite Hcall. split; reflexivity.
Defined.

Definition e500 : AxiosError :=
  {| code := None;
     response := Some (mkResponse 500 "" ∅);
     message := "Request failed with status code 500" |}.

Lemma other_errors_leave_auth_alone_witness :
  AuthHandler.handler
    (snd (AuthHandler.handleAuthError AuthProps.fetchNew e500
            AuthProps.session))
  = AuthHandler.handler AuthProps.session.
Proof.
  apply (other_errors_leave_auth_alone AuthProps.fetchNew AuthProps.session
           e500).
  intros r Hr. injection Hr as <-. cbn. lia.
Defined.
End AuthMore.

(** ** The request manager: limits, accounting and cancellation *)

Module RequestMore.
Import RequestManager.

Lemma finish_cases rid rm newStats newEntry after outcome :
  finish rid rm newStats newEntry after outcome = rm \/
  exists ref request,
    pendingRequests rm !! rid = Some ref /\
    objects rm !! ref = Some request /\
    finish rid rm newStats newEntry after outcome
    = mk (delete rid (pendingRequests rm))
        (delete (getRequestKey (config request)) (deduplicationMap rm))
        (updateHistory rid (newEntry request) (requestHistory rm))
        (managerConfig rm)
        (after (requestHistory rm) (newStats request))
        (objects rm)
        (settle (settles request) outcome (promises rm))
        (aborted rm) (transportCalls rm) (fresh rm).
Proof.
  unfold finish.
  destruct (pendingRequests rm !! rid) as [ref|] eqn:Hrid; cbn; [|by left].
  destruct (objects rm !! ref) as [request|] eqn:Ho; cbn; [|by left].
  right. by exists ref, request.
Qed.

(** *** The concurrency limit *)

Definition withinLimit (cfg : RequestManagerConfig) (rm : t) : Prop :=
  managerConfig rm = cfg /\
  Z.of_nat (size (pendingRequests rm)) <= Z.max 0 (maxConcurrentRequests cfg).

Lemma withinLimit_finish cfg rid rm newStats newEntry after outcome :
  withinLimit cfg rm ->
  withinLimit cfg (finish rid rm newStats newEntry after outcome).
Proof.
  intros [Hc Hsz].
  destruct (finish_cases rid rm newStats newEntry after outcome)
    as [->|(ref & request & Hrid & _ & ->)]; [done|].
  split; [done|]. cbn. rewrite map_size_delete, Hrid. lia.
Qed.

Lemma withinLimit_step cfg rm ev :
  withinLimit cfg rm -> withinLimit cfg (step rm ev).
Proof.
  intros [Hc Hsz].
  destruct ev as [now rid config|now rid [resp|err]|now rid|c]; cbn [step].
  - unfold executeRequest. destruct (negb _); [done|].
    destruct (if deduplication _ then _ else _); [done|].
    destruct (Z.leb_spec (maxConcurrentRequests (managerConfig rm))
                (Z.of_nat (size (pendingRequests rm)))) as [|Hroom];
      [done|].
    split; [done|]. cbn. rewrite map_size_insert. rewrite Hc in Hroom.
    destruct (pendingRequests rm !! rid); cbn; lia.
  - by apply withinLimit_finish.
  - by apply withinLimit_finish.
  - unfold cancelRequest. destruct (_ ≫= _) as [request|]; cbn; [|done].
    by apply withinLimit_finish.
  - done.
Qed.

(** X23. The number of pending requests never exceeds
    [maxConcurrentRequests] (and is zero when the limit is not positive),
    whatever calls, settlements, cancellations and timeouts reach the
    manager. *)
Theorem pending_within_maxConcurrentRequests (cfg : RequestManagerConfig)
    (evs : list Event) :
  Z.of_nat (size (pendingRequests (run (new cfg) evs)))
  <= Z.max 0 (maxConcurrentRequests cfg).
Proof.
  assert (H : forall rm, withinLimit cfg rm -> withinLimit cfg (run rm evs)).
  { unfold run. induction evs as [|ev evs IH]; intros rm Hrm; [done|].
    cbn. by apply IH, withinLimit_step. }
  destruct (H (new cfg)) as [_ Hsz]; [|done].
  split; [done|]. cbn. rewrite map_size_empty. lia.
Qed.

(** *** The statistics *)

Record Accounted (cfg : RequestManagerConfig) (rm : t) : Prop := mkAccounted {
  acc_config : managerConfig rm = cfg;
  acc_objects : forall rid ref,
    pendingRequests rm !! rid = Some ref -> is_Some (objects rm !! ref);
  acc_active :
    activeRequests (stats rm) = Z.of_nat (size (pendingRequests rm));
  acc_total :
    totalRequests (stats rm)
    = activeRequests (stats rm) + completedRequests (stats rm)
      + cancelledRequests (stats rm);
  acc_calls :
    enabled cfg = true ->
    Z.of_nat (length (transportCalls rm)) = totalRequests (stats rm);
}.

(** The statistics after one request has finished. *)
Definition oneFinished (st st' : RequestStats) : Prop :=
  totalRequests st' = totalRequests st /\
  activeRequests st' = activeRequests st - 1 /\
  completedRequests st' + cancelledRequests st'
  = completedRequests st + cancelledRequests st + 1.

Lemma counters_updateAverageResponseTime d st :
  let st' := updateAverageResponseTime d st in
  totalRequests st' = totalRequests st /\
  activeRequests st' = activeRequests st /\
  completedRequests st' = completedRequests st /\
  cancelledRequests st' = cancelledRequests st.
Proof. unfold updateAverageResponseTime. by destruct (0 <? _). Qed.

Lemma counters_updateErrorRate h st :
  let st' := updateErrorRate h st in
  totalRequests st' = totalRequests st /\
  activeRequests st' = activeRequests st /\
  completedRequests st' = completedRequests st /\
  cancelledRequests st' = cancelledRequests st.
Proof. unfold updateErrorRate. by destruct (0 <? _). Qed.

Lemma size_delete_Some (m : gmap string nat) rid ref :
  m !! rid = Some ref ->
  Z.of_nat (size (delete rid m)) = Z.of_nat (size m) - 1.
Proof.
  intros Hl. rewrite <- (insert_delete_id m rid ref Hl) at 2.
  rewrite map_size_insert_None by apply lookup_delete_eq. lia.
Qed.

Lemma accounted_finish cfg rid rm newStats newEntry after outcome :
  Accounted cfg rm ->
  (forall request h, oneFinished (stats rm) (after h (newStats request))) ->
  Accounted cfg (finish rid rm newStats newEntry after outcome).
Proof.
  intros [Hc Hobj Hact Htot Hcalls] Hone.
  destruct (finish_cases rid rm newStats newEntry after outcome)
    as [->|(ref & request & Hrid & _ & ->)]; [by split|].
  destruct (Hone request (requestHistory rm)) as (H1 & H2 & H3).
  split; cbn.
  - done.
  - intros rid' ref' Hl. apply lookup_delete_Some in Hl as [_ Hl]. eauto.
  - rewrite (size_delete_Some _ _ _ Hrid). lia.
  - lia.
  - intros Hen. rewrite H1. by apply Hcalls.
Qed.

Lemma accounted_abort cfg c rm : Accounted cfg rm -> Accounted cfg (abort c rm).
Proof. intros [Hc Hobj Hact Htot Hcalls]. by split. Qed.

Lemma accounted_executeRequest cfg now rid config rm :
  Accounted cfg rm ->
  pendingRequests rm !! rid = None ->
  Accounted cfg (snd (executeRequest now rid config rm)).
Proof.
  intros [Hc Hobj Hact Htot Hcalls] Hfresh. unfold executeRequest.
  destruct (enabled (managerConfig rm)) eqn:Hen; cbn [negb].
  2:{ split; cbn; try done. rewrite <- Hc. congruence. }
  destruct (if deduplication _ then _ else _); [by split|].
  destruct (_ <=? _); [by split|].
  split; cbn.
  - done.
  - intros rid' ref' Hl. rewrite lookup_insert_eq.
    rewrite lookup_alter.
    destruct (decide (S (S (S (fresh rm))) = ref')) as [<-|Hne].
    + by rewrite lookup_insert_eq.
    + rewrite lookup_insert_ne by done.
      destruct (decide (rid = rid')) as [<-|Hrid].
      * rewrite lookup_insert_eq in Hl. congruence.
      * rewrite lookup_insert_ne in Hl by done. eauto.
  - rewrite map_size_insert_None by done. lia.
  - lia.
  - intros Hen'. rewrite length_app. cbn. specialize (Hcalls Hen'). lia.
Qed.

Lemma accounted_step cfg rm ev :
  Accounted cfg rm ->
  (forall now rid config, ev = Execute now rid config ->
     pendingRequests rm !! rid = None) ->
  Accounted cfg (step rm ev).
Proof.
  intros Hacc Hfresh.
  destruct ev as [now rid config|now rid [resp|err]|now rid|c]; cbn [step].
  - apply accounted_executeRequest; [done|]. by eapply Hfresh.
  - apply accounted_finish; [done|]. intros request h. unfold oneFinished.
    pose proof (counters_updateAverageResponseTime
                  (now - timestamp request)
                  (mkStats (totalRequests (stats rm))
                     (activeRequests (stats rm) - 1)
                     (completedRequests (stats rm) + 1)
                     (cancelledRequests (stats rm))
                     (deduplicatedRequests (stats rm))
                     (averageResponseTime (stats rm))
                     (errorRate (stats rm)))) as (H1 & H2 & H3 & H4).
    cbn in *. lia.
  - apply accounted_finish; [done|]. intros request h. unfold oneFinished.
    pose proof (counters_updateAverageResponseTime
                  (now - timestamp request)
                  (mkStats (totalRequests (stats rm))
                     (activeRequests (stats rm) - 1)
                     (completedRequests (stats rm) + 1)
                     (cancelledRequests (stats rm))
                     (deduplicatedRequests (stats rm))
                     (averageResponseTime (stats rm))
                     (errorRate (stats rm)))) as (H1 & H2 & H3 & H4).
    pose proof (counters_updateErrorRate h
                  (updateAverageResponseTime (now - timestamp request)
                     (mkStats (totalRequests (stats rm))
                        (activeRequests (stats rm) - 1)
                        (completedRequests (stats rm) + 1)
                        (cancelledRequests (stats rm))
                        (deduplicatedRequests (stats rm))
                        (averageResponseTime (stats rm))
                        (errorRate (stats rm))))) as (G1 & G2 & G3 & G4).
    cbn in *. lia.
  - unfold cancelRequest. destruct (_ ≫= _) as [request|]; cbn; [|done].
    apply accounted_finish; [by apply accounted_abort|].
    intros request' h. unfold oneFinished. cbn. lia.
  - by apply accounted_abort.
Qed.

Lemma accounted_run cfg evs : forall rm used,
  Accounted cfg rm ->
  (forall rid, is_Some (pendingRequests rm !! rid) -> rid ∈ used) ->
  NoDup (used ++ executeIds evs) ->
  Accounted cfg (run rm evs).
Proof.
  induction evs as [|ev evs IH]; intros rm used Hacc Hused Hnd; [done|].
  rewrite RequestProps.executeIds_cons, app_assoc in Hnd.
  cbn [run fold_left].
  apply (IH (step rm ev) (used ++ executeIds [ev])); [| |done].
  - apply accounted_step; [done|]. intros now rid config ->.
    apply eq_None_not_Some. intros Hsome. apply Hused in Hsome.
    apply NoDup_app in Hnd as [Hnd _]. apply NoDup_app in Hnd as (_ & Hd & _).
    apply (Hd rid Hsome). cbn. set_solver.
  - intros rid [ref Hl]. apply RequestProps.step_pending_ids in Hl as [Hl|Hl].
    + apply elem_of_app. left. by apply Hused.
    + apply elem_of_app. by right.
Qed.

(** X24. The counters add up. When every call of [executeRequest] comes
    with a request id of its own, then at any time [activeRequests] is the
    number of pending requests, every request counted in [totalRequests]
    is active, completed or cancelled, and, on an enabled manager,
    [totalRequests] is the number of transport calls made. *)
Theorem stats_account_for_requests (cfg : RequestManagerConfig)
    (evs : list Event) :
  NoDup (executeIds evs) ->
  let rm := run (new cfg) evs in
  activeRequests (stats rm) = Z.of_nat (size (pendingRequests rm)) /\
  totalRequests (stats rm)
  = activeRequests (stats rm) + completedRequests (stats rm)
    + cancelledRequests (stats rm) /\
  (enabled cfg = true ->
   Z.of_nat (length (transportCalls rm)) = totalRequests (stats rm)).
Proof.
  intros Hnd rm.
  assert (Hacc : Accounted cfg rm).
  { apply (accounted_run cfg evs (new cfg) []).
    - split; cbn; done.
    - intros rid [ref Hl]. done.
    - done. }
  destruct Hacc as [_ _ Hact Htot Hcalls]. done.
Qed.

(** *** Cancellation *)

(** X25. Cancelling a pending request aborts its controller, rejects its
    promise with [Request cancelled], takes it out of both maps and counts
    it as cancelled; when the transport call settles afterwards, with a
    response or an error, nothing changes any more, and a second
    cancellation reports [false]. *)
Theorem cancel_then_late_answer_is_ignored (now : Z) (rid : string) (rm : t)
    (ref : nat) (o : PendingRequest) :
  pendingRequests rm !! rid = Some ref ->
  objects rm !! ref = Some o ->
  promises rm !! settles o = Some Pending ->
  let rm' := snd (cancelRequest now rid rm) in
  fst (cancelRequest now rid rm) = true /\
  promises rm' !! settles o = Some (Failed (JsError "Request cancelled")) /\
  controller o ∈ aborted rm' /\
  pendingRequests rm' !! rid = None /\
  deduplicationMap rm' !! getRequestKey (config o) = None /\
  cancelledRequests (stats rm') = cancelledRequests (stats rm) + 1 /\
  (forall now' outcome, step rm' (TransportSettles now' rid outcome) = rm') /\
  (forall now', cancelRequest now' rid rm' = (false, rm')).
Proof.
  intros Hrid Ho Hp. unfold cancelRequest. rewrite Hrid. cbn. rewrite Ho.
  cbn [fst snd]. unfold handleRequestCancellation, finish. cbn.
  rewrite Hrid. cbn. rewrite Ho. cbn.
  split; [done|]. split.
  { unfold settle. rewrite Hp. by rewrite lookup_insert_eq. }
  split; [set_solver|]. split; [by rewrite lookup_delete_eq|].
  split; [by rewrite lookup_delete_eq|]. split; [done|].
  split.
  - intros now' [resp|err]; cbn [step];
      unfold handleRequestSuccess, handleRequestError, finish; cbn;
      by rewrite lookup_delete_eq.
  - intros now'. by rewrite lookup_delete_eq.
Qed.

(** *** The answer of the transport *)

(** A request that was admitted is still pending, as the object that was
    registered for it, after any events that do not settle it. *)
Lemma admitted_stays_pending (cfg : RequestManagerConfig)
    (before between : list Event) (now1 : Z) (rid1 : string)
    (config1 : AxiosRequestConfig) :
  enabled cfg = true ->
  deduplication cfg = true ->
  NoDup (executeIds (before ++ [Execute now1 rid1 config1] ++ between)) ->
  let rm1 := run (new cfg) before in
  let rm2 := snd (executeRequest now1 rid1 config1 rm1) in
  let rm3 := run rm2 between in
  is_Some (pendingRequests rm2 !! rid1) ->
  Forall (fun ev => finishes rid1 ev = false) between ->
  fst (executeRequest now1 rid1 config1 rm1) = Promise (S (fresh rm1)) /\
  RequestProps.Inv rm3 /\
  pendingRequests rm3 !! rid1 = Some (S (S (S (fresh rm1)))) /\
  objects rm3 !! S (S (S (fresh rm1)))
  = Some (mkPending rid1 config1 (fresh rm1) (S (fresh rm1)) now1
            (S (fresh rm1))).
Proof.
  intros He Hd Hnd rm1 rm2 rm3 Hadm Hfin.
  rewrite !RequestProps.executeIds_app in Hnd.
  cbn [executeIds omap] in Hnd.
  change (omap _ before) with (executeIds before) in Hnd.
  change (omap _ between) with (executeIds between) in Hnd.
  destruct (RequestProps.run_inv before (new cfg) []) as [HI1 Hused1].
  { by apply RequestProps.inv_new. }
  { intros rid [ref Hl]. done. }
  { cbn. by apply NoDup_app in Hnd as [Hnd _]. }
  fold rm1 in HI1, Hused1. cbn [app] in Hused1.
  assert (Hfresh1 : pendingRequests rm1 !! rid1 = None).
  { apply eq_None_not_Some. intros Hsome. apply Hused1 in Hsome.
    apply NoDup_app in Hnd as (_ & Hdis & _). apply (Hdis rid1 Hsome).
    set_solver. }
  destruct (RequestProps.executeRequest_cases now1 rid1 config1 rm1 HI1)
    as [(ref & o & Hk & Ho & _ & Hsame) | [[Hk Hex] | [Hk Hex]]].
  { subst rm2. rewrite Hsame, Hfresh1 in Hadm. by destruct Hadm. }
  { subst rm2. rewrite Hex in Hadm. cbn in Hadm. rewrite Hfresh1 in Hadm.
    by destruct Hadm. }
  assert (Hrm2 : rm2 = RequestProps.admitted now1 rid1 config1 rm1)
    by (subst rm2; by rewrite Hex).
  assert (HI2 : RequestProps.Inv rm2)
    by (rewrite Hrm2; by apply RequestProps.inv_admitted).
  set (ref1 := S (S (S (fresh rm1)))).
  set (o1 := mkPending rid1 config1 (fresh rm1) (S (fresh rm1)) now1
               (S (fresh rm1))).
  assert (Hp2 : pendingRequests rm2 !! rid1 = Some ref1)
    by (rewrite Hrm2; cbn; by rewrite lookup_insert_eq).
  assert (Ho2 : objects rm2 !! ref1 = Some o1)
    by (rewrite Hrm2; cbn; by rewrite lookup_insert_eq).
  assert (Hused2 : forall rid, is_Some (pendingRequests rm2 !! rid) ->
                               rid ∈ executeIds before ++ [rid1]).
  { intros rid [r Hl]. rewrite Hrm2 in Hl. cbn in Hl.
    destruct (decide (rid1 = rid)) as [<-|Hne]; [set_solver|].
    rewrite lookup_insert_ne in Hl by done.
    apply elem_of_app. left. apply Hused1. by eexists. }
  assert (Hnd2 : NoDup ((executeIds before ++ [rid1]) ++ executeIds between))
    by (by rewrite <- !app_assoc).
  destruct (RequestProps.run_inv between rm2 _ HI2 Hused2 Hnd2) as [HI3 _].
  destruct (RequestProps.run_keeps_pending between rm2 _ rid1 ref1 o1 HI2
              Hused2 Hnd2 Hp2 Ho2 Hfin) as [Hp3 Ho3].
  rewrite Hex. done.
Qed.

(** What [resolve] or [reject] is called with when the transport call
    has settled with [outcome]. *)
Definition settledBy (outcome : Outcome Thrown AxiosResponse) : PromiseState :=
  match outcome with
  | Resolved response => Fulfilled response
  | Rejected err => Failed err
  end.

(** X26. The answer of the transport reaches the caller it belongs to. On
    a manager that is enabled and deduplicates, whose calls come with ids
    that were never used before: a call that is admitted gets a promise
    [p]; whatever happens next, as long as nothing settles that request,
    [p] is still pending; when the transport call of the request then
    settles, [p] is fulfilled with the response it gave, or rejected with
    the error it gave, and no other promise changes; the request leaves
    the pending requests, its key leaves the deduplication map (a later
    call with the same key is sent anew), it is counted as completed, and
    it can no longer be cancelled. *)
Theorem transport_answer_settles_its_promise (cfg : RequestManagerConfig)
    (before between : list Event) (now1 now2 : Z) (rid1 : string)
    (config1 : AxiosRequestConfig)
    (outcome : Outcome Thrown AxiosResponse) :
  enabled cfg = true ->
  deduplication cfg = true ->
  NoDup (executeIds (before ++ [Execute now1 rid1 config1] ++ between)) ->
  let rm1 := run (new cfg) before in
  let rm2 := snd (executeRequest now1 rid1 config1 rm1) in
  let rm3 := run rm2 between in
  let rm4 := step rm3 (TransportSettles now2 rid1 outcome) in
  is_Some (pendingRequests rm2 !! rid1) ->
  Forall (fun ev => finishes rid1 ev = false) between ->
  exists p,
    fst (executeRequest now1 rid1 config1 rm1) = Promise p /\
    promises rm3 !! p = Some Pending /\
    promises rm4 !! p = Some (settledBy outcome) /\
    (forall q, q <> p -> promises rm4 !! q = promises rm3 !! q) /\
    pendingRequests rm4 = delete rid1 (pendingRequests rm3) /\
    deduplicationMap rm4
    = delete (getRequestKey config1) (deduplicationMap rm3) /\
    completedRequests (stats rm4) = completedRequests (stats rm3) + 1 /\
    transportCalls rm4 = transportCalls rm3 /\
    (forall now3, cancelRequest now3 rid1 rm4 = (false, rm4)).
Proof.
  intros He Hd Hnd rm1 rm2 rm3 rm4 Hadm Hfin.
  destruct (admitted_stays_pending cfg before between now1 rid1 config1
              He Hd Hnd Hadm Hfin) as (Hret & HI3 & Hp3 & Ho3).
  fold rm1 in Hret, HI3, Hp3, Ho3. fold rm2 in HI3, Hp3, Ho3.
  fold rm3 in HI3, Hp3, Ho3.
  destruct (RequestProps.inv_pending _ HI3 _ _ Hp3)
    as (o & Ho & _ & _ & _ & Hps).
  assert (o = mkPending rid1 config1 (fresh rm1) (S (fresh rm1)) now1
                (S (fresh rm1))) as -> by congruence.
  cbn in Hps.
  exists (S (fresh rm1)). split; [done|]. split; [done|].
  assert (Hfinish : forall newStats newEntry after out,
            finish rid1 rm3 newStats newEntry after out
            = mk (delete rid1 (pendingRequests rm3))
                 (delete (getRequestKey config1) (deduplicationMap rm3))
                 (updateHistory rid1
                    (newEntry (mkPending rid1 config1 (fresh rm1)
                                 (S (fresh rm1)) now1 (S (fresh rm1))))
                    (requestHistory rm3))
                 (managerConfig rm3)
                 (after (requestHistory rm3)
                    (newStats (mkPending rid1 config1 (fresh rm1)
                                 (S (fresh rm1)) now1 (S (fresh rm1)))))
                 (objects rm3)
                 (<[S (fresh rm1) := out]> (promises rm3))
                 (aborted rm3) (transportCalls rm3) (fresh rm3)).
  { intros newStats newEntry after out. unfold finish. rewrite Hp3. cbn.
    rewrite Ho3. cbn. unfold settle. by rewrite Hps. }
  assert (Hrm4 : exists newStats newEntry after,
            rm4 = finish rid1 rm3 newStats newEntry after (settledBy outcome)
            /\ completedRequests
                 (after (requestHistory rm3)
                    (newStats (mkPending rid1 config1 (fresh rm1)
                                 (S (fresh rm1)) now1 (S (fresh rm1)))))
               = completedRequests (stats rm3) + 1).
  { subst rm4. destruct outcome as [response|err]; cbn [step settledBy].
    - eexists _, _, _. split; [reflexivity|]. cbn.
      by destruct (counters_updateAverageResponseTime
                     (now2 - now1)
                     (mkStats (totalRequests (stats rm3))
                        (activeRequests (stats rm3) - 1)
                        (completedRequests (stats rm3) + 1)
                        (cancelledRequests (stats rm3))
                        (deduplicatedRequests (stats rm3))
                        (averageResponseTime (stats rm3))
                        (errorRate (stats rm3)))) as (_ & _ & -> & _).
    - eexists _, _, _. split; [reflexivity|]. cbn.
      destruct (counters_updateErrorRate (requestHistory rm3)
                  (updateAverageResponseTime (now2 - now1)
                     (mkStats (totalRequests (stats rm3))
                        (activeRequests (stats rm3) - 1)
                        (completedRequests (stats rm3) + 1)
                        (cancelledRequests (stats rm3))
                        (deduplicatedRequests (stats rm3))
                        (averageResponseTime (stats rm3))
                        (errorRate (stats rm3))))) as (_ & _ & -> & _).
      by destruct (counters_updateAverageResponseTime
                     (now2 - now1)
                     (mkStats (totalRequests (stats rm3))
                        (activeRequests (stats rm3) - 1)
                        (completedRequests (stats rm3) + 1)
                        (cancelledRequests (stats rm3))
                        (deduplicatedRequests (stats rm3))
                        (averageResponseTime (stats rm3))
                        (errorRate (stats rm3)))) as (_ & _ & -> & _). }
  destruct Hrm4 as (newStats & newEntry & after & Hrm4 & Hdone).
  rewrite Hfinish in Hrm4. clearbody rm4. subst rm4. cbn.
  split; [by rewrite lookup_insert_eq|].
  split; [by intros q Hq; rewrite lookup_insert_ne|].
  do 2 (split; [done|]). split; [done|]. split; [done|].
  intros now3. unfold cancelRequest. cbn. by rewrite lookup_delete_eq.
Qed.

(** *** The theorems on a manager with two requests *)

Definition getPosts : AxiosRequestConfig :=
  mkConfig (Some "GET") (Some "/posts") None None ∅ None.

Definition ok200 : AxiosResponse := mkResponse 200 "[]" ∅.

Definition twoCalls : list Event :=
  [Execute 10 "req_1" RequestProps.getUsers;
   Execute 11 "req_2" getPosts;
   TransportSettles 20 "req_1" (Resolved ok200)].

Lemma stats_account_for_requests_witness :
  activeRequests (stats (run (new RequestProps.dedupCfg) twoCalls))
  = Z.of_nat (size (pendingRequests (run (new RequestProps.dedupCfg) twoCalls))).
Proof.
  pose proof (stats_account_for_requests RequestProps.dedupCfg twoCalls) as H.
  cbv zeta in H. apply H.
  vm_compute. repeat constructor; set_solver.
Defined.

Definition oneCall : t :=
  snd (executeRequest 10 "req_1" RequestProps.getUsers
         (new RequestProps.dedupCfg)).

Lemma cancel_then_late_answer_is_ignored_witness :
  fst (cancelRequest 15 "req_1" oneCall) = true /\
  step (snd (cancelRequest 15 "req_1" oneCall))
    (TransportSettles 20 "req_1" (Resolved ok200))
  = snd (cancelRequest 15 "req_1" oneCall).
Proof.
  pose proof (cancel_then_late_answer_is_ignored 15 "req_1" oneCall 3
                (mkPending "req_1" RequestProps.getUsers 0 1 10 1)) as H.
  cbv zeta in H.
  destruct H as (H1 & _ & _ & _ & _ & _ & H2 & _).
  - vm_compute. reflexivity.
  - vm_compute. reflexivity.
  - vm_compute. reflexivity.
  - split; [exact H1 | apply H2].
Defined.

Lemma transport_answer_settles_its_promise_witness :
  exists p,
    fst (executeRequest 10 "req_1" RequestProps.getUsers
           (new RequestProps.dedupCfg)) = Promise p /\
    promises
      (step
         (run (snd (executeRequest 10 "req_1" RequestProps.getUsers
                      (new RequestProps.dedupCfg)))
            [Execute 11 "req_2" getPosts; TimeoutFires 0])
         (TransportSettles 20 "req_1" (Resolved ok200))) !! p
    = Some (Fulfilled ok200).
Proof.
  destruct (transport_answer_settles_its_promise RequestProps.dedupCfg []
              [Execute 11 "req_2" getPosts; TimeoutFires 0] 10 20 "req_1"
              RequestProps.getUsers (Resolved ok200))
    as (p & H1 & _ & H2 & _).
  - reflexivity.
  - reflexivity.
  - vm_compute. repeat constructor; set_solver.
  - vm_compute. by eexists.
  - repeat constructor.
  - exists p. split; [exact H1 | exact H2].
Defined.

End RequestMore.

(** ** The token manager: which token a request gets *)

Module TokenMore.
Import TokenManager.

(** The name [name] holds no token that is valid at [now]: it holds no
    token, or one that has expired. *)
Definition noValidToken (now : Z) (tm : t) (name : string) : Prop :=
  forall tok, getToken (Some name) tm = Some tok -> isTokenValid now tok = false.

Lemma firstValidFallback_valid now names tm tok tm' :
  firstValidFallback now names tm = (Some tok, tm') ->
  isTokenValid now tok = true.
Proof.
  induction names as [|name names IH]; cbn; [done|].
  destruct (getToken (Some name) tm) as [fallback|]; [|done].
  destruct (isTokenValid now fallback) eqn:Hvalid; [|done].
  intros [= <- _]. done.
Qed.

Lemma firstValidFallback_first now before name after tok tm :
  Forall (noValidToken now tm) before ->
  getToken (Some name) tm = Some tok ->
  isTokenValid now tok = true ->
  firstValidFallback now (before ++ name :: after) tm
  = (Some tok, incrementUsage name tm).
Proof.
  intros Hbefore Hget Hvalid.
  induction Hbefore as [|n before Hn _ IH]; cbn.
  - by rewrite Hget, Hvalid.
  - destruct (getToken (Some n) tm) as [fallback|] eqn:Hg; [|done].
    by rewrite (Hn fallback Hg).
Qed.

Lemma firstValidFallback_none now names tm :
  Forall (noValidToken now tm) names ->
  firstValidFallback now names tm = (None, tm).
Proof.
  induction 1 as [|n names Hn _ IH]; cbn; [done|].
  destruct (getToken (Some n) tm) as [fallback|] eqn:Hg; [|done].
  by rewrite (Hn fallback Hg).
Qed.

Lemma getValidToken_skips_primary now tm :
  noValidToken now tm (primaryToken tm) ->
  getValidToken now tm = firstValidFallback now (fallbackTokens tm) tm.
Proof.
  intros Hp. unfold getValidToken.
  destruct (getToken (Some (primaryToken tm)) tm) as [primary|] eqn:Hg;
    [|done].
  by rewrite (Hp primary Hg).
Qed.

(** X27. [getValidToken] takes the primary token whenever it is valid;
    otherwise the first fallback, in the order of [fallbackTokens], that
    holds a valid token, every name before it holding none; and nothing,
    leaving the manager as it was, when neither the primary name nor any
    fallback holds a valid token. It counts one use, for the name the
    token was found under, and what it hands out has not expired. *)
Theorem getValidToken_first_valid_in_order (now : Z) (tm : t) :
  (forall primary,
     getToken (Some (primaryToken tm)) tm = Some primary ->
     isTokenValid now primary = true ->
     getValidToken now tm
     = (Some primary, incrementUsage (primaryToken tm) tm)) /\
  (forall before name after tok,
     noValidToken now tm (primaryToken tm) ->
     fallbackTokens tm = before ++ name :: after ->
     Forall (noValidToken now tm) before ->
     getToken (Some name) tm = Some tok ->
     isTokenValid now tok = true ->
     getValidToken now tm = (Some tok, incrementUsage name tm)) /\
  (noValidToken now tm (primaryToken tm) ->
   Forall (noValidToken now tm) (fallbackTokens tm) ->
   getValidToken now tm = (None, tm)) /\
  (forall tok tm',
     getValidToken now tm = (Some tok, tm') -> isTokenValid now tok = true).
Proof.
  split; [|split; [|split]].
  - intros primary Hget Hvalid. unfold getValidToken.
    by rewrite Hget, Hvalid.
  - intros before name after tok Hp Hfb Hbefore Hget Hvalid.
    rewrite (getValidToken_skips_primary now tm Hp), Hfb.
    by apply firstValidFallback_first.
  - intros Hp Hall. rewrite (getValidToken_skips_primary now tm Hp).
    by apply firstValidFallback_none.
  - intros tok tm'. unfold getValidToken.
    destruct (getToken (Some (primaryToken tm)) tm) as [primary|] eqn:Hg.
    + destruct (isTokenValid now primary) eqn:Hvalid.
      * by intros [= <- _].
      * apply firstValidFallback_valid.
    + apply firstValidFallback_valid.
Qed.

(** The value of the [Authorization] header for a token. *)
Definition authorizationOf (token : TokenConfig) : string :=
  (if truthy_string (tokenType token)
   then default "" (tokenType token) else "Bearer")
  +:+ " " +:+ accessToken token.

Lemma buildAuthHeader_lookup (token : TokenConfig) (h : string) :
  buildAuthHeader token !! h
  = if decide (h = "X-API-Key") then
      (if truthy_string (apiKey token) then apiKey token else None)
    else if decide (h = "Authorization") then
      (if String.eqb (accessToken token) "" then None
       else Some (authorizationOf token))
    else None.
Proof.
  unfold buildAuthHeader, authorizationOf.
  destruct (truthy_string (apiKey token)) eqn:Hkey.
  - destruct (apiKey token) as [k|] eqn:Hk; [|done]. cbn [default].
    change (id k) with k.
    destruct (decide (h = "X-API-Key")) as [->|Hne].
    + by rewrite lookup_insert_eq.
    + rewrite lookup_insert_ne by done.
      destruct (String.eqb (accessToken token) ""); cbn [negb].
      * rewrite lookup_empty. by destruct (decide _).
      * destruct (decide (h = "Authorization")) as [->|Hne'].
        -- by rewrite lookup_insert_eq.
        -- rewrite lookup_insert_ne by done. apply lookup_empty.
  - destruct (decide (h = "X-API-Key")) as [->|Hne].
    + destruct (String.eqb (accessToken token) ""); cbn [negb].
      * apply lookup_empty.
      * rewrite lookup_insert_ne by done. apply lookup_empty.
    + destruct (String.eqb (accessToken token) ""); cbn [negb].
      * rewrite lookup_empty. by destruct (decide _).
      * destruct (decide (h = "Authorization")) as [->|Hne'].
        -- by rewrite lookup_insert_eq.
        -- rewrite lookup_insert_ne by done. apply lookup_empty.
Qed.

(** X28. When a valid token is found, [addAuthHeader] touches two headers
    and nothing else: [Authorization] becomes the token type (or [Bearer])
    and the access token, replacing what the request had, unless the access
    token is empty; [X-API-Key] becomes the API key when the token has one;
    every other header and every other field of the request config stays as
    it was. *)
Theorem addAuthHeader_sets_only_auth_headers (now : Z)
    (config : AxiosRequestConfig) (tm tm' : t) (token : TokenConfig) :
  getValidToken now tm = (Some token, tm') ->
  let config' := fst (addAuthHeader now config tm) in
  (accessToken token <> "" ->
   reqHeaders config' !! "Authorization" = Some (authorizationOf token)) /\
  (accessToken token = "" ->
   reqHeaders config' !! "Authorization"
   = reqHeaders config !! "Authorization") /\
  (forall k, apiKey token = Some k -> k <> "" ->
   reqHeaders config' !! "X-API-Key" = Some k) /\
  (truthy_string (apiKey token) = false ->
   reqHeaders config' !! "X-API-Key" = reqHeaders config !! "X-API-Key") /\
  (forall h, h <> "Authorization" -> h <> "X-API-Key" ->
   reqHeaders config' !! h = reqHeaders config !! h) /\
  (method config', url config', params config', reqData config',
   signal config')
  = (method config, url config, params config, reqData config,
     signal config).
Proof.
  intros Hget config'. subst config'. unfold addAuthHeader. rewrite Hget.
  cbn [fst reqHeaders method url params reqData signal].
  assert (Hl : forall h,
            (buildAuthHeader token ∪ reqHeaders config) !! h
            = match buildAuthHeader token !! h with
              | Some v => Some v
              | None => reqHeaders config !! h
              end).
  { intros h. rewrite lookup_union.
    destruct (buildAuthHeader token !! h), (reqHeaders config !! h); done. }
  repeat split.
  - intros Hne. rewrite Hl, buildAuthHeader_lookup.
    apply String.eqb_neq in Hne. rewrite Hne. done.
  - intros Heq. rewrite Hl, buildAuthHeader_lookup. rewrite Heq. done.
  - intros k Hk Hne. rewrite Hl, buildAuthHeader_lookup. rewrite Hk. cbn.
    apply String.eqb_neq in Hne. by rewrite Hne.
  - intros Hk. rewrite Hl, buildAuthHeader_lookup. by rewrite Hk.
  - intros h H1 H2. rewrite Hl, buildAuthHeader_lookup.
    destruct (decide (h = "X-API-Key")); [done|].
    by destruct (decide (h = "Authorization")).
Qed.

(** *** The theorem at a manager with one token *)

Definition apiToken : TokenConfig :=
  mkToken "abc" None (Some "k1") None None.

Definition oneToken : t :=
  mk (<["default" := apiToken]> ∅) "default" [] ∅ ∅.

Lemma addAuthHeader_sets_only_auth_headers_witness :
  reqHeaders (fst (addAuthHeader 0 RequestProps.getUsers oneToken))
    !! "Authorization"
  = Some "Bearer abc".
Proof.
  pose proof (addAuthHeader_sets_only_auth_headers 0 RequestProps.getUsers
                oneToken (incrementUsage "default" oneToken) apiToken) as H.
  cbv zeta in H. destruct H as [H _].
  - vm_compute. reflexivity.
  - apply H. discriminate.
Defined.

(** *** The theorem at a manager whose primary token has expired *)

Definition expiredToken : TokenConfig :=
  mkToken "old" None None (Some 50) None.

Definition tokenB : TokenConfig := mkToken "bbb" None None (Some 200) None.

Definition tokenC : TokenConfig := mkToken "ccc" None None None None.

(** At time 100 the primary token and the first fallback have expired;
    the second and the third fallback are both valid. *)
Definition withFallbacks : t :=
  mk (<["default" := expiredToken]>
        (<["a" := expiredToken]> (<["b" := tokenB]> (<["c" := tokenC]> ∅))))
     "default" ["a"; "b"; "c"] ∅ ∅.

Lemma getValidToken_first_valid_in_order_witness :
  getValidToken 100 withFallbacks
  = (Some tokenB, incrementUsage "b" withFallbacks).
Proof.
  apply (proj1 (proj2 (getValidToken_first_valid_in_order 100 withFallbacks))
           ["a"] "b" ["c"] tokenB).
  - intros tok. vm_compute. intros [= <-]. reflexivity.
  - reflexivity.
  - constructor; [|constructor].
    intros tok. vm_compute. intros [= <-]. reflexivity.
  - vm_compute. reflexivity.
  - reflexivity.
Defined.

End TokenMore.

(** ** The request queue: throttling and the choice of the next request *)

Module QueueProps.
Import RequestQueue.

(** *** The sliding window of the throttle *)

(** The times at which requests with the key [key] were let through. *)
Definition timesOf (key : string) (adm : list (Z * string)) : list Z :=
  map fst (List.filter (fun a => String.eqb (snd a) key) adm).

(** [a] lies in the window of length [W] that ends at [t]. *)
Definition inWindow (W t a : Z) : bool := (t - W <? a) && (a <=? t).

Lemma filter_length_mono {X} (f g : X -> bool) (l : list X) :
  (forall a, a ∈ l -> f a = true -> g a = true) ->
  (length (List.filter f l) <= length (List.filter g l))%nat.
Proof.
  induction l as [|a l IH]; intros H; cbn; [done|].
  assert (IH' := IH (fun b Hb => H b (list_elem_of_further _ _ _ Hb))).
  destruct (f a) eqn:Hf.
  - rewrite (H a (list_elem_of_here _ _) Hf). cbn. lia.
  - destruct (g a); cbn; lia.
Qed.

Lemma filter_above_twice (ws x : Z) (l : list Z) :
  ws <= x ->
  List.filter (fun a => x <? a) (List.filter (fun a => ws <? a) l)
  = List.filter (fun a => x <? a) l.
Proof.
  intros Hle. induction l as [|a l IH]; cbn; [done|].
  destruct (Z.ltb_spec ws a); cbn.
  - by rewrite IH.
  - rewrite IH. destruct (Z.ltb_spec x a); [lia|done].
Qed.

Lemma timesOf_app key adm1 adm2 :
  timesOf key (adm1 ++ adm2) = timesOf key adm1 ++ timesOf key adm2.
Proof. unfold timesOf. by rewrite List.filter_app, map_app. Qed.

Section Throttle.
Variable tc : ThrottleConfig.
Hypothesis throttling : enabled tc = true.

(** What the throttle keeps, against what it let through, when the
    clock reads [c]. *)
Definition tracked (c : Z) (s : list (Z * string) * t) : Prop :=
  throttleConfig (snd s) = tc /\
  forall key,
    (forall a, a ∈ timesOf key (fst s) -> a <= c) /\
    (forall x, c - windowMs tc <= x ->
       List.filter (fun a => x <? a) (default [] (requestCounts (snd s) !! key))
       = List.filter (fun a => x <? a) (timesOf key (fst s))) /\
    (forall t,
       Z.of_nat (length (List.filter (inWindow (windowMs tc) t)
                           (timesOf key (fst s))))
       <= Z.max 0 (requestsPerSecond tc)).

Lemma tracked_step c s now config :
  tracked c s -> c <= now -> tracked now (throttleStep s (now, config)).
Proof using throttling.
  destruct s as [adm q]. intros [Htc Hinv] Hclock. cbn [fst snd] in Htc, Hinv.
  unfold throttleStep, canMakeRequest. cbn [fst snd].
  rewrite Htc, throttling. cbn [negb].
  set (k := getRequestKey config).
  set (requests := List.filter (fun timestamp => now - windowMs tc <? timestamp)
                     (default [] (requestCounts q !! k))).
  assert (Hreq : requests
                 = List.filter (fun a => now - windowMs tc <? a)
                     (timesOf k adm)).
  { destruct (Hinv k) as (_ & Hs & _). apply Hs. lia. }
  assert (Hsame : forall adm', (forall key, timesOf key adm' = timesOf key adm)
            -> forall q', throttleConfig q' = tc ->
               requestCounts q' = requestCounts q -> tracked now (adm', q')).
  { intros adm' Hadm q' Htc' Hrc. split; [done|]. intros key. cbn [fst snd].
    rewrite Hadm, Hrc. destruct (Hinv key) as (H1 & H2 & H3).
    split; [|split; [|done]].
    - intros a Ha. specialize (H1 a Ha). lia.
    - intros x Hx. apply H2. lia. }
  destruct (Z.leb_spec (requestsPerSecond tc) (Z.of_nat (length requests)))
    as [Hfull|Hroom].
  { by apply Hsame. }
  split; [done|]. intros key. cbn [fst snd requestCounts].
  rewrite timesOf_app.
  destruct (Hinv key) as (H1 & H2 & H3).
  destruct (decide (k = key)) as [<-|Hne].
  - assert (Hnew : timesOf k [(now, k)] = [now]).
    { unfold timesOf. cbn. by rewrite String.eqb_refl. }
    rewrite Hnew, lookup_insert_eq. cbn [default].
    change (Datatypes.id (requests ++ [now])) with (requests ++ [now]).
    split; [|split].
    + intros a Ha. apply elem_of_app in Ha as [Ha|Ha].
      * specialize (H1 a Ha). lia.
      * apply list_elem_of_singleton in Ha. lia.
    + intros x Hx. rewrite !List.filter_app. f_equal.
      rewrite Hreq. apply filter_above_twice. lia.
    + intros t. rewrite List.filter_app, length_app.
      cbn [List.filter]. destruct (inWindow (windowMs tc) t now) eqn:Hin.
      * unfold inWindow in Hin. apply andb_true_iff in Hin as [Hlo Hhi].
        apply Z.ltb_lt in Hlo. apply Z.leb_le in Hhi.
        assert (Hle : (length (List.filter (inWindow (windowMs tc) t)
                                 (timesOf k adm))
                       <= length requests)%nat).
        { rewrite Hreq. apply filter_length_mono. intros a Ha Hwin.
          unfold inWindow in Hwin. apply andb_true_iff in Hwin as [Hlo' _].
          apply Z.ltb_lt in Hlo'. apply Z.ltb_lt. lia. }
        cbn [length]. lia.
      * cbn [length]. specialize (H3 t). lia.
  - assert (Hnew : timesOf key [(now, k)] = []).
    { unfold timesOf. cbn. by destruct (String.eqb_spec k key). }
    rewrite Hnew, app_nil_r, lookup_insert_ne by done.
    split; [|split; [|done]].
    + intros a Ha. specialize (H1 a Ha). lia.
    + intros x Hx. apply H2. lia.
Qed.

Lemma tracked_run calls : forall c s,
  tracked c s ->
  Forall (fun call => c <= fst call) calls ->
  StronglySorted Z.le (map fst calls) ->
  exists c', tracked c' (fold_left throttleStep calls s).
Proof using throttling.
  induction calls as [|[now config] calls IH]; intros c s Hs Hall Hsorted.
  { by exists c. }
  cbn [fold_left]. apply Forall_cons in Hall as [Hnow Hall]. cbn in Hnow.
  cbn [map fst] in Hsorted. apply StronglySorted_inv in Hsorted as [Hs' Hle].
  apply (IH now).
  - by apply (tracked_step c).
  - apply Forall_forall. intros call Hcall.
    rewrite Forall_forall in Hle. apply Hle.
    by apply list_elem_of_fmap_2.
  - done.
Qed.

End Throttle.

(** X29. With the throttle enabled and a clock that does not run
    backwards, the requests let through for one key within any window of
    [windowMs] milliseconds number at most [requestsPerSecond] (none when
    that is not positive). *)
Theorem throttle_window_bound (qc : QueueConfig) (tc : ThrottleConfig)
    (calls : list (Z * AxiosRequestConfig)) (key : string) (t : Z) :
  enabled tc = true ->
  StronglySorted Z.le (map fst calls) ->
  Z.of_nat
    (length (List.filter (inWindow (windowMs tc) t)
               (timesOf key (letThrough calls (new qc tc)))))
  <= Z.max 0 (requestsPerSecond tc).
Proof.
  intros Hen Hsorted. unfold letThrough.
  destruct calls as [|[now config] calls].
  { cbn. lia. }
  destruct (tracked_run tc Hen ((now, config) :: calls) now ([], new qc tc))
    as [c' [_ Hinv]].
  - split; [done|]. intros k. cbn. split; [|split].
    + intros a Ha. by apply elem_of_nil in Ha.
    + done.
    + intros t'. lia.
  - apply Forall_cons. split; [cbn; lia|].
    cbn [map fst] in Hsorted. apply StronglySorted_inv in Hsorted as [_ Hle].
    apply Forall_forall. intros call Hcall.
    rewrite Forall_forall in Hle. apply Hle. by apply list_elem_of_fmap_2.
  - done.
  - destruct (Hinv key) as (_ & _ & H3). apply H3.
Qed.

(** *** The next request *)

Definition firstInLine (a b : QueuedRequest) : Prop :=
  priority b < priority a \/
  (priority a = priority b /\ timestamp a <= timestamp b).

Lemma inOrder_spec a b : inOrder a b = true <-> firstInLine a b.
Proof.
  unfold inOrder, firstInLine.
  destruct (Z.eqb_spec (priority a) (priority b)); cbn [negb];
    rewrite Z.leb_le; lia.
Qed.

Lemma firstInLine_trans a b c :
  firstInLine a b -> firstInLine b c -> firstInLine a c.
Proof. unfold firstInLine. lia. Qed.

Lemma firstInLine_total a b : inOrder a b = false -> firstInLine b a.
Proof.
  intros H. apply not_true_iff_false in H. rewrite inOrder_spec in H.
  unfold firstInLine in *. lia.
Qed.

Lemma insertInOrder_perm r l : insertInOrder r l ≡ₚ r :: l.
Proof.
  induction l as [|x l IH]; cbn; [done|].
  destruct (inOrder r x); [done|]. rewrite IH. apply Permutation_swap.
Qed.

Lemma sortQueue_perm l : sortQueue l ≡ₚ l.
Proof.
  induction l as [|x l IH]; cbn; [done|].
  rewrite insertInOrder_perm. by rewrite IH.
Qed.

Lemma insertInOrder_sorted r l :
  StronglySorted firstInLine l ->
  StronglySorted firstInLine (insertInOrder r l).
Proof.
  induction 1 as [|x l Hsorted IH Hx]; cbn.
  - constructor; [constructor|constructor].
  - destruct (inOrder r x) eqn:Hrx.
    + apply inOrder_spec in Hrx.
      constructor; [by constructor|]. constructor; [done|].
      eapply Forall_impl; [exact Hx|]. intros y Hy.
      by eapply firstInLine_trans.
    + apply firstInLine_total in Hrx. constructor; [done|].
      rewrite insertInOrder_perm. by constructor.
Qed.

Lemma sortQueue_sorted l : StronglySorted firstInLine (sortQueue l).
Proof.
  induction l as [|x l IH]; cbn; [constructor|].
  by apply insertInOrder_sorted.
Qed.

Lemma canMakeRequest_queue now config q :
  queue (snd (canMakeRequest now config q)) = queue q /\
  running (snd (canMakeRequest now config q)) = running q.
Proof.
  unfold canMakeRequest. destruct (negb _); [done|].
  by destruct (_ <=? _).
Qed.

(** X30. The request [processQueue] starts is the first in line: it was
    queued, no queued request has a higher priority, and none of the same
    priority is older. It is started only while fewer than [concurrency]
    requests are running; it joins the running ones and no request with
    its id stays in the queue. *)
Theorem processQueue_starts_first_in_line (now : Z) (q q' : t)
    (r : QueuedRequest) :
  processQueue now q = (Some r, q') ->
  r ∈ queue q /\
  (forall x, x ∈ queue q ->
     priority x <= priority r /\
     (priority x = priority r -> timestamp r <= timestamp x)) /\
  Z.of_nat (length (running q)) < concurrency (queueConfig q) /\
  id r ∈ running q' /\
  (forall x, x ∈ queue q' -> x ∈ queue q /\ id x <> id r).
Proof.
  unfold processQueue, getNextRequest.
  destruct (Z.leb_spec (concurrency (queueConfig q))
              (Z.of_nat (length (running q)))) as [|Hroom]; [done|].
  pose proof (sortQueue_perm (queue q)) as Hperm.
  pose proof (sortQueue_sorted (queue q)) as Hsorted.
  destruct (sortQueue (queue q)) as [|r0 sorted] eqn:Hsort; cbn [head];
    [done|].
  set (q1 := set_queue (r0 :: sorted) q).
  assert (Hq2 : forall q2 : bool * t,
            q2 = (if enabled (throttleConfig q1)
                  then canMakeRequest now (config r0) q1 else (true, q1)) ->
            queue (snd q2) = r0 :: sorted /\ running (snd q2) = running q).
  { intros q2 ->. destruct (enabled (throttleConfig q1)); [|done].
    apply (canMakeRequest_queue now (config r0) q1). }
  specialize (Hq2 _ eq_refl).
  destruct (if enabled (throttleConfig q1) then _ else _) as [allowed q2].
  cbn [snd] in Hq2. destruct Hq2 as [Hqueue Hrunning].
  destruct allowed; cbn [negb]; [|done].
  intros [= <- <-]. cbn [queue running].
  apply StronglySorted_inv in Hsorted as [_ Hfirst].
  rewrite Forall_forall in Hfirst.
  split; [rewrite <- Hperm; apply list_elem_of_here|].
  split.
  { intros x Hx. rewrite <- Hperm in Hx.
    apply elem_of_cons in Hx as [->|Hx]; [lia|].
    specialize (Hfirst x Hx). unfold firstInLine in Hfirst. lia. }
  split; [done|]. split.
  { case_bool_decide; [done|]. apply elem_of_app. right.
    apply list_elem_of_here. }
  intros x Hx. apply list_elem_of_In, filter_In in Hx as [Hx Hid].
  apply list_elem_of_In in Hx. rewrite Hqueue, Hperm in Hx.
  split; [done|]. apply negb_true_iff in Hid. by apply String.eqb_neq in Hid.
Qed.

(** *** The theorems on a small queue *)

Definition perSecond2 : ThrottleConfig :=
  {| enabled := true; requestsPerSecond := 2; burstLimit := 5;
     windowMs := 1000 |}.

Definition oneAtATime : QueueConfig :=
  {| concurrency := 1; timeout := 30000; retryDelay := 1000;
     maxRetries := 3 |}.

Definition fourChecks : list (Z * AxiosRequestConfig) :=
  [(0, RequestProps.getUsers); (100, RequestProps.getUsers);
   (200, RequestProps.getUsers); (1100, RequestProps.getUsers)].

Example fourChecks_letThrough :
  letThrough fourChecks (new oneAtATime perSecond2)
  = [(0, "GET:/users"); (100, "GET:/users"); (1100, "GET:/users")].
Proof. vm_compute. reflexivity. Qed.

Lemma throttle_window_bound_witness :
  Z.of_nat
    (length (List.filter (inWindow 1000 1100)
               (timesOf "GET:/users"
                  (letThrough fourChecks (new oneAtATime perSecond2)))))
  <= 2.
Proof.
  apply (throttle_window_bound oneAtATime perSecond2 fourChecks
           "GET:/users" 1100).
  - reflexivity.
  - cbn. repeat constructor; lia.
Defined.

Definition twoQueued : t :=
  addRequest 6 "req_b" RequestProps.getUsers 5
    (addRequest 5 "req_a" RequestProps.getUsers 0
       (new oneAtATime perSecond2)).

Lemma processQueue_starts_first_in_line_witness :
  Z.of_nat (length (running twoQueued)) < 1 /\
  "req_b" ∈ running (snd (processQueue 7 twoQueued)).
Proof.
  destruct (processQueue_starts_first_in_line 7 twoQueued
              (snd (processQueue 7 twoQueued))
              (mkQueued "req_b" RequestProps.getUsers 0 6 5))
    as (_ & _ & Hroom & Hruns & _).
  - vm_compute. reflexivity.
  - split; [exact Hroom | exact Hruns].
Defined.

End QueueProps.
